(** * Notification pipeline: ledger, fan-out, retention sweeper, suppression

    A shallow embedding of the [notifications] and [news] packages:
    the suppression predicates of the configuration, the sent-record ledger
    with its insert / delete / prune statements, the concurrent fan-out
    [runConcurrently], the retention sweeper loops, the health probe and the
    news read path [GetNews].

    Conventions.
    - A Go [error] value is [option error]: [None] is the nil error.
    - Instants and durations are integers counting nanoseconds, as Go's
      [time.Duration] does.
    - External collaborators (the store driver, the broker, the JSON encoder,
      the picture client, the Unicode tables) are parameters of the model or
      explicit outcomes handed in by the environment.
    - A message built with the verb [%#v] keeps its fixed text; the rendering
      of the value is kept where a property speaks about the message
      ([runConcurrently]) and left out elsewhere. *)

From Stdlib Require Import ZArith NArith Ascii String List Lia Bool.
From stdpp Require Import base option list gmap strings fin_maps pretty.

Local Open Scope Z_scope.

(* ------------------------------------------------------------------ *)
(** ** Errors ([github.com/pkg/errors], [go-multierror], [context]) *)
(* ------------------------------------------------------------------ *)

Module Errors.

#[warnings="-register-all"]
Inductive error : Type :=
| Canceled                                  (* context.Canceled *)
| DeadlineExceeded                          (* context.DeadlineExceeded *)
| External (msg : string)                   (* raised by a collaborator *)
| Wrapped (cause : error) (msg : string)    (* errors.Wrap / errors.Wrapf *)
| MultiError (errs : list error).           (* multierror.Error *)

(** [errors.Wrap(err, msg)]: nil stays nil. *)
Definition Wrap (err : option error) (msg : string) : option error :=
  match err with
  | None => None
  | Some e => Some (Wrapped e msg)
  end.

(** What [multierror.Append(nil, errs...)] keeps of one element: nil
    elements are skipped and a nested [*multierror.Error] is flattened. *)
Definition appendOne (e : option error) : list error :=
  match e with
  | None => []
  | Some (MultiError es) => es
  | Some e' => [e']
  end.

(** [multierror.Append(nil, errs...)], as the list of collected errors. *)
Definition Append (errs : list (option error)) : list error :=
  flat_map appendOne errs.

(** [ErrorOrNil] of a [multierror.Error]. *)
Definition ErrorOrNil (collected : list error) : option error :=
  match collected with
  | [] => None
  | _ :: _ => Some (MultiError collected)
  end.

(** The failures directly exposed by a returned error: the members of the
    aggregate under any number of [Wrap] layers. *)
Fixpoint exposed (e : error) : list error :=
  match e with
  | Wrapped c _ => exposed c
  | MultiError es => es
  | other => [other]
  end.

End Errors.
Import Errors.

(* ------------------------------------------------------------------ *)
(** ** Time and contexts *)
(* ------------------------------------------------------------------ *)

Definition Nanosecond : Z := 1.
Definition Second : Z := 1000000000 * Nanosecond.
Definition Minute : Z := 60 * Second.
Definition Hour : Z := 60 * Minute.

(** A [context.Context] as far as this code observes it: whether it has
    been cancelled, the instant of its deadline if it has one, and the
    request-scoped user id it carries. *)
Record Context : Type := mkContext {
  cancelled : bool;
  deadline : option Z;
  userIDValue : option string   (* ctx.Value(requestingUserIDCtxValueKey) *)
}.

(** [context.Background()]. *)
Definition Background : Context := mkContext false None None.

Definition deadlinePassed (now : Z) (d : option Z) : bool :=
  match d with
  | None => false
  | Some t => t <=? now
  end.

(** [ctx.Err()] read at instant [now].  The flag [cancelled] records a
    cancellation that took effect, that is, one that reached the context
    while it had no error yet: Go keeps the first error of a context, and a
    cancel after the deadline has passed changes nothing.  A context whose
    flag is set therefore answers [Canceled]. *)
Definition ctxErr (now : Z) (ctx : Context) : option error :=
  if cancelled ctx then Some Canceled
  else if deadlinePassed now (deadline ctx) then Some DeadlineExceeded
  else None.

Definition earliest (parent : option Z) (t : Z) : Z :=
  match parent with
  | None => t
  | Some p => Z.min p t
  end.

(** [context.WithTimeout(parent, d)] called at instant [now]: the child is a
    new value; the parent is not modified. *)
Definition WithTimeout (now : Z) (parent : Context) (d : Z) : Context :=
  mkContext (cancelled parent) (Some (earliest (deadline parent) (now + d)))
            (userIDValue parent).

(* ------------------------------------------------------------------ *)
(** ** Suppression configuration *)
(* ------------------------------------------------------------------ *)

Module Suppression.

Definition byteOf (a : ascii) : N := N_of_ascii a.

(** [utf8.RuneSelf]. *)
Definition RuneSelf : N := 128.

(** The suppression lists of the configuration. *)
Record disabledAchievementsNotifications : Type := {
  Levels : list string;
  Badges : list string;
  Roles : list string
}.

Record config : Type := {
  DisabledAchievementsNotifications : disabledAchievementsNotifications
}.

Section EqualFold.

(** The tail of [strings.EqualFold] after its [hasUnicode] label: the
    rune loop over [unicode.SimpleFold].  The Unicode folding table is
    not part of this code base; it stays a parameter. *)
Variable hasUnicode : string -> string -> bool.

(** [strings.EqualFold]: the byte loop of the ASCII fast path. *)
Fixpoint EqualFold (s t : string) : bool :=
  match s, t with
  | String a s', String b t' =>
      let sr := byteOf a in
      let tr := byteOf b in
      if (RuneSelf <=? N.lor sr tr)%N then hasUnicode s t
      else if (tr =? sr)%N then EqualFold s' t'
      else
        let lo := if (tr <? sr)%N then tr else sr in
        let hi := if (tr <? sr)%N then sr else tr in
        if ((65 <=? lo)%N && (lo <=? 90)%N && (hi =? lo + 97 - 65)%N)%bool
        then EqualFold s' t'
        else false
  | EmptyString, EmptyString => true
  | _, _ => false
  end.

(** The [for _, l := range names] loop shared by the three predicates. *)
Fixpoint rangeEqualFold (names : list string) (name : string) : bool :=
  match names with
  | [] => false
  | l :: rest => if EqualFold l name then true else rangeEqualFold rest name
  end.

Definition IsLevelNotificationDisabled (cfg : config) (levelName : string) : bool :=
  if (length (Levels (DisabledAchievementsNotifications cfg)) =? 0)%nat then false
  else rangeEqualFold (Levels (DisabledAchievementsNotifications cfg)) levelName.

Definition IsBadgeNotificationDisabled (cfg : config) (badgeName : string) : bool :=
  if (length (Badges (DisabledAchievementsNotifications cfg)) =? 0)%nat then false
  else rangeEqualFold (Badges (DisabledAchievementsNotifications cfg)) badgeName.

Definition IsRoleNotificationDisabled (cfg : config) (roleName : string) : bool :=
  if (length (Roles (DisabledAchievementsNotifications cfg)) =? 0)%nat then false
  else rangeEqualFold (Roles (DisabledAchievementsNotifications cfg)) roleName.

End EqualFold.

(** Reference notions used to state case-insensitivity on ASCII names. *)
Definition isASCII (s : string) : Prop :=
  Forall (fun a => (byteOf a < RuneSelf)%N) (list_ascii_of_string s).

Definition lowerByte (n : N) : N :=
  if ((65 <=? n)%N && (n <=? 90)%N)%bool then (n + 32)%N else n.

Definition asciiLower (s : string) : list N :=
  map (fun a => lowerByte (byteOf a)) (list_ascii_of_string s).

Definition withBadges (bs : list string) : config :=
  {| DisabledAchievementsNotifications := {| Levels := []; Badges := bs; Roles := [] |} |}.

End Suppression.

(* ------------------------------------------------------------------ *)
(** ** The Unicode tail of [strings.EqualFold] *)
(* ------------------------------------------------------------------ *)

(** The code after the [hasUnicode] label of [strings.EqualFold]: the two
    strings are read rune by rune, [s] by a [range] loop and [t] by
    [utf8.DecodeRuneInString], and two runes match when one is reached from
    the other by [unicode.SimpleFold].  Runes are numbers; the decoder only
    produces non-negative ones. *)
Module Folding.
Import Suppression.

Local Open Scope N_scope.

(** [utf8.RuneError] and the masks and bounds of package [utf8]. *)
Definition RuneError : N := 0xFFFD.
Definition maskx : N := 0x3F.
Definition mask2 : N := 0x1F.
Definition mask3 : N := 0x0F.
Definition mask4 : N := 0x07.
Definition locb : N := 0x80.
Definition hicb : N := 0xBF.

(** The entries of the table [first] of package [utf8]: an ASCII byte, an
    invalid leading byte, or the leading byte of a sequence of [size]
    bytes whose second byte must lie in [lo, hi]. *)
Inductive firstByte : Type :=
  | ASCII
  | Invalid
  | Leading (size : nat) (lo hi : N).

Definition first (s0 : N) : firstByte :=
  if s0 <? 0x80 then ASCII
  else if s0 <? 0xC2 then Invalid
  else if s0 <? 0xE0 then Leading 2 locb hicb
  else if s0 =? 0xE0 then Leading 3 0xA0 hicb
  else if s0 <? 0xED then Leading 3 locb hicb
  else if s0 =? 0xED then Leading 3 locb 0x9F
  else if s0 <? 0xF0 then Leading 3 locb hicb
  else if s0 =? 0xF0 then Leading 4 0x90 hicb
  else if s0 <? 0xF4 then Leading 4 locb hicb
  else if s0 =? 0xF4 then Leading 4 locb 0x8F
  else Invalid.

(** [utf8.DecodeRuneInString]: the first rune of [s] and its width in
    bytes; an invalid or truncated sequence gives [RuneError] and width 1. *)
Definition DecodeRuneInString (s : string) : N * nat :=
  match s with
  | EmptyString => (RuneError, 0%nat)
  | String a0 rest1 =>
      let s0 := byteOf a0 in
      match first s0 with
      | ASCII => (s0, 1%nat)
      | Invalid => (RuneError, 1%nat)
      | Leading sz lo hi =>
          if (String.length s <? sz)%nat then (RuneError, 1%nat)
          else
            match rest1 with
            | EmptyString => (RuneError, 1%nat)
            | String a1 rest2 =>
                let s1 := byteOf a1 in
                if (s1 <? lo) || (hi <? s1) then (RuneError, 1%nat)
                else if (sz <=? 2)%nat
                then (N.lor (N.shiftl (N.land s0 mask2) 6) (N.land s1 maskx), 2%nat)
                else
                  match rest2 with
                  | EmptyString => (RuneError, 1%nat)
                  | String a2 rest3 =>
                      let s2 := byteOf a2 in
                      if (s2 <? locb) || (hicb <? s2) then (RuneError, 1%nat)
                      else if (sz <=? 3)%nat
                      then (N.lor (N.lor (N.shiftl (N.land s0 mask3) 12)
                                         (N.shiftl (N.land s1 maskx) 6))
                                  (N.land s2 maskx), 3%nat)
                      else
                        match rest3 with
                        | EmptyString => (RuneError, 1%nat)
                        | String a3 _ =>
                            let s3 := byteOf a3 in
                            if (s3 <? locb) || (hicb <? s3) then (RuneError, 1%nat)
                            else (N.lor (N.lor (N.lor (N.shiftl (N.land s0 mask4) 18)
                                                      (N.shiftl (N.land s1 maskx) 12))
                                               (N.shiftl (N.land s2 maskx) 6))
                                        (N.land s3 maskx), 4%nat)
                        end
                  end
            end
      end
  end.

(** [s[n:]]. *)
Fixpoint skip (n : nat) (s : string) : string :=
  match n, s with
  | S n', String _ s' => skip n' s'
  | _, _ => s
  end.

(** The runes a [for _, r := range s] loop visits: each step decodes one
    rune and advances by its width.  A step consumes at least one byte, so
    [String.length s] steps exhaust the string. *)
Fixpoint runesFrom (steps : nat) (s : string) : list N :=
  match steps, s with
  | S steps', String _ _ =>
      let d := DecodeRuneInString s in
      fst d :: runesFrom steps' (skip (snd d) s)
  | _, _ => []
  end.

Definition rangeRunes (s : string) : list N := runesFrom (String.length s) s.

Section SimpleFold.

(** The classes of Unicode's simple case folding that have more than one
    member, each as the list of its code points.  The table belongs to Go's
    package [unicode]; it is a parameter here. *)
Variable orbits : list (list N).

Definition member (r : N) (class : list N) : bool := existsb (N.eqb r) class.

(** The class of [r]: a rune the table does not list folds to itself
    only. *)
Definition orbitOf (r : N) : list N :=
  match List.find (member r) orbits with
  | Some class => class
  | None => [r]
  end.

Definition least (l : list N) : option N :=
  match l with
  | [] => None
  | x :: rest => Some (fold_right N.min x rest)
  end.

(** [unicode.SimpleFold]: among the code points equivalent to [r], the
    smallest one above [r] if there is one, and else the smallest one. *)
Definition SimpleFold (r : N) : N :=
  match least (List.filter (N.ltb r) (orbitOf r)) with
  | Some next => next
  | None =>
      match least (orbitOf r) with
      | Some smallest => smallest
      | None => r
      end
  end.

(** [for r != sr && r < tr { r = unicode.SimpleFold(r) }], run for at most
    [steps] iterations; the value of [r] after the loop. *)
Fixpoint foldLoop (steps : nat) (sr tr r : N) : N :=
  match steps with
  | O => r
  | S steps' =>
      if negb (r =? sr) && (r <? tr) then foldLoop steps' sr tr (SimpleFold r) else r
  end.

(** The members of a class still ahead of [r] on the way round to [sr]:
    the measure of the loop. *)
Definition pending (sr r : N) (x : N) : bool :=
  if r <? sr then (r <? x) && (x <=? sr) else (r <? x) || (x <=? sr).

(** The comparison of one rune of [s] with one rune of [t].  The walk
    through the class of [sr] visits each of its members at most once, so
    as many iterations as the class has members complete the loop. *)
Definition runeMatch (sr tr : N) : bool :=
  if tr =? sr then true
  else
    let lo := if tr <? sr then tr else sr in
    let hi := if tr <? sr then sr else tr in
    if hi <? RuneSelf
    then (65 <=? lo) && (lo <=? 90) && (hi =? lo + 97 - 65)
    else foldLoop (length (orbitOf lo)) lo hi (SimpleFold lo) =? hi.

(** The loop [for _, sr := range s] after the label, over the runes of [s]
    still to visit and the rest of [t]. *)
Fixpoint runeLoop (srs : list N) (t : string) : bool :=
  match srs with
  | [] => (String.length t =? 0)%nat
  | sr :: srs' =>
      match t with
      | EmptyString => false
      | String b _ =>
          let d := if byteOf b <? RuneSelf then (byteOf b, 1%nat)
                   else DecodeRuneInString t in
          if runeMatch sr (fst d) then runeLoop srs' (skip (snd d) t) else false
      end
  end.

(** The code from the label [hasUnicode] on, for the rests [s[i:]] and
    [t[i:]] of the two strings. *)
Definition hasUnicode (s t : string) : bool := runeLoop (rangeRunes s) t.

(** Two runes are equal under simple case folding. *)
Definition sameFold (a b : N) : Prop := b ∈ orbitOf a.

(** Reference notion: [s] and [t] are the same up to case, rune by rune. *)
Definition caseInsensitiveMatch (s t : string) : Prop :=
  Forall2 sameFold (rangeRunes s) (rangeRunes t).

End SimpleFold.

(** What is assumed of the folding table: no code point is listed twice,
    and on ASCII letters it pairs each capital with its small letter. *)
Fixpoint distinct (l : list N) : bool :=
  match l with
  | [] => true
  | x :: rest => negb (existsb (N.eqb x) rest) && distinct rest
  end.

Definition asciiRunes : list N := map N.of_nat (seq 0 128).

Definition asciiFoldsAgree (orbits : list (list N)) : bool :=
  forallb (fun a =>
    forallb (fun b =>
      Bool.eqb (member b (orbitOf orbits a)) (lowerByte a =? lowerByte b))
      asciiRunes) asciiRunes.

Definition wellFormed (orbits : list (list N)) : bool :=
  distinct (concat orbits) && asciiFoldsAgree orbits.

(** A table with the classes of the ASCII letters (K and S fold with the
    Kelvin sign and the long s), of E with acute and of the Greek sigma. *)
Definition sampleOrbits : list (list N) :=
  map (fun c => if c =? 75 then [c; c + 32; 0x212A]
                else if c =? 83 then [c; c + 32; 0x17F]
                else [c; c + 32])
      (map N.of_nat (seq 65 26))
  ++ [[0xC9; 0xE9]; [0x3A3; 0x3C2; 0x3C3]].

Definition withRoles (rs : list string) : config :=
  {| DisabledAchievementsNotifications := {| Levels := []; Badges := []; Roles := rs |} |}.

End Folding.


(** [requestingUserID]: the type assertion to [string] yields the empty
    string when the value is absent. *)
Definition requestingUserID (ctx : Context) : string :=
  match userIDValue ctx with
  | Some u => u
  | None => EmptyString
  end.

(** Outcome of a call that may panic (nil dereference, index out of range)
    or wait forever instead of returning. *)
Inductive outcome (A : Type) : Type :=
| Returned (a : A)
| Panicked
| Blocked.
Arguments Returned {A} a.
Arguments Panicked {A}.
Arguments Blocked {A}.

(* ------------------------------------------------------------------ *)
(** ** The sent-record ledger *)
(* ------------------------------------------------------------------ *)

Module SN.
(** The fields of [sentNotification] that [insertSentNotification] and
    [deleteSentNotification] bind to their statements. *)
Record sentNotification : Type := {
  SentAt : Z;
  Language : string;
  UserID : string;
  Uniqueness : string;
  NotificationType : string;
  NotificationChannel : string;
  NotificationChannelValue : string
}.
End SN.

Module SA.
(** The fields of [sentAnnouncement] that [insertSentAnnouncement] and
    [deleteSentAnnouncement] bind to their statements. *)
Record sentAnnouncement : Type := {
  SentAt : Z;
  Language : string;
  Uniqueness : string;
  NotificationType : string;
  NotificationChannel : string;
  NotificationChannelValue : string
}.
End SA.

Module Ledger.

(** Key columns (user_id, uniqueness, notification_type,
    notification_channel, notification_channel_value). *)
Abbreviation notificationKey := (string * string * string * string * string)%type.
(** Key columns (uniqueness, notification_type, notification_channel,
    notification_channel_value). *)
Abbreviation announcementKey := (string * string * string * string)%type.
(** Remaining columns of a row: (sent_at, language). *)
Abbreviation rowData := (Z * string)%type.

(** Modelled from the spec: the table definitions (DDL.sql) are not among the
    sources.  Following "durable row keyed by (recipient-or-none, uniqueness
    key, notification type, channel, channel value)" and "both support
    unique-constraint insert", each table is a finite map from its key columns
    to the remaining columns, so at most one row exists per key. *)
Record DB : Type := {
  sent_notifications : gmap notificationKey rowData;
  sent_announcements : gmap announcementKey rowData
}.

(** The SQL statements the package sends to the store. *)
Inductive statement : Type :=
| InsertIntoSentNotifications
    (sent_at : Z) (language user_id uniqueness notification_type
                   notification_channel notification_channel_value : string)
| DeleteFromSentNotificationsByKey
    (user_id uniqueness notification_type notification_channel
             notification_channel_value : string)
| InsertIntoSentAnnouncements
    (sent_at : Z) (language uniqueness notification_type notification_channel
                   notification_channel_value : string)
| DeleteFromSentAnnouncementsByKey
    (uniqueness notification_type notification_channel
                notification_channel_value : string)
| DeleteFromSentNotificationsOlderThan (cutoff : Z)
| DeleteFromSentAnnouncementsOlderThan (cutoff : Z).

(** The store's error for a violated uniqueness constraint. *)
Definition ErrDuplicate : error := External "duplicate key".

(** Rows kept by [DELETE ... WHERE sent_at < $1]. *)
Definition keepRecent {K} `{Countable K} (cutoff : Z) (t : gmap K rowData) : gmap K rowData :=
  filter (fun kv : K * rowData => ~ (fst (snd kv) < cutoff)) t.

(** Effect of one statement on the tables, with the number of rows it
    affected. *)
Definition execStatement (stmt : statement) (d : DB) : DB * (nat + error) :=
  match stmt with
  | InsertIntoSentNotifications at_ lang u q ty ch v =>
      match sent_notifications d !! (u, q, ty, ch, v) with
      | Some _ => (d, inr ErrDuplicate)
      | None =>
          ({| sent_notifications := <[(u, q, ty, ch, v) := (at_, lang)]> (sent_notifications d);
              sent_announcements := sent_announcements d |}, inl 1%nat)
      end
  | DeleteFromSentNotificationsByKey u q ty ch v =>
      ({| sent_notifications := delete (u, q, ty, ch, v) (sent_notifications d);
          sent_announcements := sent_announcements d |},
       inl (match sent_notifications d !! (u, q, ty, ch, v) with Some _ => 1%nat | None => 0%nat end))
  | InsertIntoSentAnnouncements at_ lang q ty ch v =>
      match sent_announcements d !! (q, ty, ch, v) with
      | Some _ => (d, inr ErrDuplicate)
      | None =>
          ({| sent_notifications := sent_notifications d;
              sent_announcements := <[(q, ty, ch, v) := (at_, lang)]> (sent_announcements d) |},
           inl 1%nat)
      end
  | DeleteFromSentAnnouncementsByKey q ty ch v =>
      ({| sent_notifications := sent_notifications d;
          sent_announcements := delete (q, ty, ch, v) (sent_announcements d) |},
       inl (match sent_announcements d !! (q, ty, ch, v) with Some _ => 1%nat | None => 0%nat end))
  | DeleteFromSentNotificationsOlderThan cutoff =>
      ({| sent_notifications := keepRecent cutoff (sent_notifications d);
          sent_announcements := sent_announcements d |},
       inl (size (sent_notifications d) - size (keepRecent cutoff (sent_notifications d)))%nat)
  | DeleteFromSentAnnouncementsOlderThan cutoff =>
      ({| sent_notifications := sent_notifications d;
          sent_announcements := keepRecent cutoff (sent_announcements d) |},
       inl (size (sent_announcements d) - size (keepRecent cutoff (sent_announcements d)))%nat)
  end.

(** What the environment decides about one call to the store: the instant at
    which the store would complete it, and a failure of the store itself
    (unreachable, connection lost), if any. *)
Record storeReply : Type := {
  completesAt : Z;
  fault : option error
}.

(** A call made to an external collaborator, with the context it was given. *)
Inductive call : Type :=
| ExecCall (ctx : Context) (stmt : statement)
| PingCall (ctx : Context)
| SendMessageCall (ctx : Context) (key topic value : string).

(** The store together with the record of calls made so far. *)
Record Store : Type := {
  db : DB;
  calls : list call
}.

(** [storage.Exec(ctx, db, sql, args...)].  The driver honours its context: a
    statement whose context is done before the store completes it is aborted
    without effect and the context's error is returned; a statement the store
    fails has no effect either. *)
Definition storage_Exec (ctx : Context) (reply : storeReply) (stmt : statement)
    (st : Store) : Store * (nat + error) :=
  let logged := calls st ++ [ExecCall ctx stmt] in
  match ctxErr (completesAt reply) ctx with
  | Some e => ({| db := db st; calls := logged |}, inr e)
  | None =>
      match fault reply with
      | Some e => ({| db := db st; calls := logged |}, inr e)
      | None =>
          let r := execStatement stmt (db st) in
          ({| db := fst r; calls := logged |}, snd r)
      end
  end.

(** The store answers a call made under [ctx] in time and without a failure
    of its own. *)
Definition answered (ctx : Context) (reply : storeReply) : Prop :=
  ctxErr (completesAt reply) ctx = None /\ fault reply = None.

(** The key columns a statement for a personal notification binds. *)
Definition notificationKeyOf (sn : SN.sentNotification) : notificationKey :=
  (SN.UserID sn, SN.Uniqueness sn, SN.NotificationType sn, SN.NotificationChannel sn,
   SN.NotificationChannelValue sn).

(** The key columns a statement for an announcement binds. *)
Definition announcementKeyOf (sa : SA.sentAnnouncement) : announcementKey :=
  (SA.Uniqueness sa, SA.NotificationType sa, SA.NotificationChannel sa,
   SA.NotificationChannelValue sa).

Definition errOf {A} (r : A + error) : option error :=
  match r with
  | inl _ => None
  | inr e => Some e
  end.

Definition insertSentNotification (ctx : Context) (reply : storeReply)
    (sn : SN.sentNotification) (st : Store) : Store * option error :=
  let r := storage_Exec ctx reply
             (InsertIntoSentNotifications (SN.SentAt sn) (SN.Language sn) (SN.UserID sn)
                (SN.Uniqueness sn) (SN.NotificationType sn) (SN.NotificationChannel sn)
                (SN.NotificationChannelValue sn)) st in
  (fst r, Wrap (errOf (snd r)) "failed to insert sent notification").

Definition deleteSentNotification (ctx : Context) (reply : storeReply)
    (sn : SN.sentNotification) (st : Store) : Store * option error :=
  let r := storage_Exec ctx reply
             (DeleteFromSentNotificationsByKey (SN.UserID sn) (SN.Uniqueness sn)
                (SN.NotificationType sn) (SN.NotificationChannel sn)
                (SN.NotificationChannelValue sn)) st in
  (fst r, Wrap (errOf (snd r)) "failed to insert sent notification").

Definition insertSentAnnouncement (ctx : Context) (reply : storeReply)
    (sa : SA.sentAnnouncement) (st : Store) : Store * option error :=
  let r := storage_Exec ctx reply
             (InsertIntoSentAnnouncements (SA.SentAt sa) (SA.Language sa) (SA.Uniqueness sa)
                (SA.NotificationType sa) (SA.NotificationChannel sa)
                (SA.NotificationChannelValue sa)) st in
  (fst r, Wrap (errOf (snd r)) "failed to insert sent announcement").

Definition deleteSentAnnouncement (ctx : Context) (reply : storeReply)
    (sa : SA.sentAnnouncement) (st : Store) : Store * option error :=
  let r := storage_Exec ctx reply
             (DeleteFromSentAnnouncementsByKey (SA.Uniqueness sa) (SA.NotificationType sa)
                (SA.NotificationChannel sa) (SA.NotificationChannelValue sa)) st in
  (fst r, Wrap (errOf (snd r)) "failed to insert sent announcement").

(** [stdlibtime.Now().Add(-24*stdlibtime.Hour)]. *)
Definition retentionCutoff (now : Z) : Z := now + (-24) * Hour.

(** [deleteOldSentNotifications]; [now] is the clock reading of the call. *)
Definition deleteOldSentNotifications (ctx : Context) (now : Z) (reply : storeReply)
    (st : Store) : Store * option error :=
  match ctxErr now ctx with
  | Some e => (st, Wrap (Some e) "unexpected deadline")
  | None =>
      let r := storage_Exec ctx reply
                 (DeleteFromSentNotificationsOlderThan (retentionCutoff now)) st in
      match snd r with
      | inr err => (fst r, Wrap (Some err) "failed to delete old data from sent_notifications")
      | inl _ => (fst r, None)
      end
  end.

(** [deleteOldSentAnnouncements]. *)
Definition deleteOldSentAnnouncements (ctx : Context) (now : Z) (reply : storeReply)
    (st : Store) : Store * option error :=
  match ctxErr now ctx with
  | Some e => (st, Wrap (Some e) "unexpected deadline")
  | None =>
      let r := storage_Exec ctx reply
                 (DeleteFromSentAnnouncementsOlderThan (retentionCutoff now)) st in
      match snd r with
      | inr err => (fst r, Wrap (Some err) "failed to delete old data from sent_announcements")
      | inl _ => (fst r, None)
      end
  end.

End Ledger.

(* ------------------------------------------------------------------ *)
(** ** The retention sweeper loops *)
(* ------------------------------------------------------------------ *)

Module Sweeper.
Import Ledger.

(** [rand.Intn(n)] for [0 < n]: the generator's accepted draw reduced
    modulo [n]. *)
Definition rand_Intn (n : Z) (draw : Z) : Z := draw mod n.

(** [stdlibtime.Duration(1+rand.Intn(24)) * stdlibtime.Minute]. *)
Definition tickerInterval (draw : Z) : Z := (1 + rand_Intn 24 draw) * Minute.

(** [const deadline = 30 * stdlibtime.Second]. *)
Definition passDeadline : Z := 30 * Second.

(** [log.Error(err)]: a nil error is not logged. *)
Definition log_Error (err : option error) (log : list error) : list error :=
  match err with
  | None => log
  | Some e => log ++ [e]
  end.

(** State of one cleaner goroutine and of what it shares with its
    surroundings. *)
Record cleaner : Type := {
  store : Store;
  log : list error;
  owner : Context;        (* the [ctx] handed to the loop *)
  interval : Z;           (* period of the ticker, fixed when it is created *)
  tickPending : bool;     (* a tick waits in [ticker.C] (capacity 1) *)
  returned : bool         (* the loop has executed [return] *)
}.

(** What happens around and in the loop. *)
Inductive event : Type :=
| TickFires                         (* the ticker's timer elapses *)
| OwnerCancels                      (* the owning context is cancelled, while
                                       it has no error yet *)
| Select (now : Z) (pickTick : bool) (reply : storeReply).
    (* the loop reaches its [select] at [now]; [pickTick] resolves the
       choice when both cases are ready; [reply] is the store's answer
       should a statement be sent *)

(** The body of [case <-ticker.C]. *)
Definition tickCase (pass : Context -> Z -> storeReply -> Store -> Store * option error)
    (label : string) (now : Z) (reply : storeReply) (c : cleaner) : cleaner :=
  let reqCtx := WithTimeout now (owner c) passDeadline in
  let r := pass reqCtx now reply (store c) in
  {| store := fst r;
     log := log_Error (Wrap (snd r) label) (log c);
     owner := owner c;
     interval := interval c;
     tickPending := false;
     returned := false |}.

(** The body of [case <-ctx.Done()]. *)
Definition doneCase (c : cleaner) : cleaner :=
  {| store := store c; log := log c; owner := owner c; interval := interval c;
     tickPending := tickPending c; returned := true |}.

Definition cleanerStep (pass : Context -> Z -> storeReply -> Store -> Store * option error)
    (label : string) (c : cleaner) (ev : event) : cleaner :=
  match ev with
  | TickFires =>
      if returned c then c   (* [defer ticker.Stop()] *)
      else {| store := store c; log := log c; owner := owner c; interval := interval c;
              tickPending := true; returned := false |}
  | OwnerCancels =>
      {| store := store c; log := log c;
         owner := mkContext true (deadline (owner c)) (userIDValue (owner c));
         interval := interval c; tickPending := tickPending c; returned := returned c |}
  | Select now pickTick reply =>
      if returned c then c
      else
        match tickPending c, ctxErr now (owner c) with
        | false, None => c                                   (* select blocks *)
        | true, None => tickCase pass label now reply c
        | false, Some _ => doneCase c
        | true, Some _ =>
            if pickTick then tickCase pass label now reply c else doneCase c
        end
  end.

Definition cleanerRun (pass : Context -> Z -> storeReply -> Store -> Store * option error)
    (label : string) (c : cleaner) (evs : list event) : cleaner :=
  fold_left (cleanerStep pass label) evs c.

(** The state in which a loop starts: the ticker has just been created. *)
Definition cleanerStart (ctx : Context) (draw : Z) (st : Store) (lg : list error) : cleaner :=
  {| store := st; log := lg; owner := ctx; interval := tickerInterval draw;
     tickPending := false; returned := false |}.

Definition startOldSentNotificationsCleaner (ctx : Context) (draw : Z) (st : Store)
    (lg : list error) (evs : list event) : cleaner :=
  cleanerRun deleteOldSentNotifications "failed to deleteOldSentNotifications"
    (cleanerStart ctx draw st lg) evs.

Definition startOldSentAnnouncementsCleaner (ctx : Context) (draw : Z) (st : Store)
    (lg : list error) (evs : list event) : cleaner :=
  cleanerRun deleteOldSentAnnouncements "failed to deleteOldSentAnnouncements"
    (cleanerStart ctx draw st lg) evs.

(** The two loops differ in the table they prune. *)
Inductive table : Type := SentNotifications | SentAnnouncements.

Definition passOf (t : table) : Context -> Z -> storeReply -> Store -> Store * option error :=
  match t with
  | SentNotifications => deleteOldSentNotifications
  | SentAnnouncements => deleteOldSentAnnouncements
  end.

Definition labelOf (t : table) : string :=
  match t with
  | SentNotifications => "failed to deleteOldSentNotifications"
  | SentAnnouncements => "failed to deleteOldSentAnnouncements"
  end.

Definition pruneStatementOf (t : table) (cutoff : Z) : statement :=
  match t with
  | SentNotifications => DeleteFromSentNotificationsOlderThan cutoff
  | SentAnnouncements => DeleteFromSentAnnouncementsOlderThan cutoff
  end.

Definition pruneFailureOf (t : table) : string :=
  match t with
  | SentNotifications => "failed to delete old data from sent_notifications"
  | SentAnnouncements => "failed to delete old data from sent_announcements"
  end.

(** The cleaner of a table, from its start. *)
Definition startCleaner (t : table) : Context -> Z -> Store -> list error -> list event -> cleaner :=
  match t with
  | SentNotifications => startOldSentNotificationsCleaner
  | SentAnnouncements => startOldSentAnnouncementsCleaner
  end.

End Sweeper.

(* ------------------------------------------------------------------ *)
(** ** Concurrent fan-out *)
(* ------------------------------------------------------------------ *)

Module Fanout.

(** The goroutines of one [runConcurrently] call, seen from its wait group
    and its error channel. *)
Record group : Type := {
  waiting : list nat;              (* indices whose goroutine has not called [wg.Done] *)
  errChan : list (option error);   (* buffered channel, oldest first *)
  started : list nat               (* indices for which [run] was invoked, in order *)
}.

Section RunConcurrently.

Context {ARG : Type}.
(** The branch body. *)
Variable run : Context -> ARG -> option error.
(** The rendering of an argument by the verb [%#v]. *)
Variable render : ARG -> string.
(** The scheduler: which of the waiting goroutines runs at each step. *)
Variable sched : nat -> nat.

(** [errors.Wrapf(run(ctx, args[ix]), "failed to run:%#v", args[ix])]. *)
Definition branchResult (ctx : Context) (a : ARG) : option error :=
  Wrap (run ctx a) ("failed to run:" ++ render a).

(** One goroutine runs its body: it calls [run], sends the wrapped result on
    the channel (a send on a full channel would block) and calls [wg.Done].
    [None] when that goroutine cannot proceed. *)
Definition goroutine (ctx : Context) (args : list ARG) (capacity : nat) (k : nat)
    (g : group) : option group :=
  match waiting g !! k with
  | None => None
  | Some ix =>
      match args !! ix with
      | None => None
      | Some a =>
          if (length (errChan g) <? capacity)%nat
          then Some {| waiting := delete k (waiting g);
                       errChan := errChan g ++ [branchResult ctx a];
                       started := started g ++ [ix] |}
          else None
      end
  end.

(** The goroutines run one after the other in the order the scheduler
    picks, for at most [n] steps starting at step [i]. *)
Fixpoint goroutines (ctx : Context) (args : list ARG) (capacity : nat) (n i : nat)
    (g : group) : group :=
  match n with
  | O => g
  | S n' =>
      match waiting g with
      | [] => g
      | _ :: _ =>
          match goroutine ctx args capacity (sched i mod length (waiting g)) g with
          | None => g
          | Some g' => goroutines ctx args capacity n' (S i) g'
          end
      end
  end.

(** [runConcurrently(ctx, run, args)] called at instant [now]: the returned
    error and the indices of the branches that were started. *)
Definition runConcurrently (ctx : Context) (now : Z) (args : list ARG)
    : outcome (option error * list nat) :=
  match ctxErr now ctx with
  | Some e => Returned (Wrap (Some e) "unexpected deadline", [])
  | None =>
      if (length args =? 0)%nat then Returned (None, [])
      else
        let g0 := {| waiting := seq 0 (length args); errChan := []; started := [] |} in
        let g := goroutines ctx args (length args) (length args) 0 g0 in
        match waiting g with
        | _ :: _ => Blocked                    (* [wg.Wait()] never returns *)
        | [] =>
            Returned (Wrap (ErrorOrNil (Append (errChan g))) "at least one execution failed",
                      started g)
        end
  end.

(** What the goroutine of index [ix] sends on the channel. *)
Definition sentBy (ctx : Context) (args : list ARG) (ix : nat) : option error :=
  args !! ix ≫= branchResult ctx.

(** What holds of the group between two goroutine steps: every index is
    either still waiting or has been started, exactly once, and the channel
    holds the results of the started ones in the order they were sent. *)
Record consistent (ctx : Context) (args : list ARG) (g : group) : Prop := {
  every_branch_once : started g ++ waiting g ≡ₚ seq 0 (length args);
  channel_holds_results : errChan g = map (sentBy ctx args) (started g)
}.

(** The failures of the branches, as the goroutines wrap them. *)
Definition branchFailures (ctx : Context) (args : list ARG) : list error :=
  omap (branchResult ctx) args.

End RunConcurrently.

End Fanout.

(* ------------------------------------------------------------------ *)
(** ** The health probe *)
(* ------------------------------------------------------------------ *)

Module Health.
Import Ledger.

Record topic : Type := { Name : string }.

(** [cfg.MessageBroker]. *)
Record messageBrokerConfig : Type := { Topics : list topic }.

(** The collaborators of the probe. *)
Record collaborators : Type := {
  (** [db.Ping(ctx)]. *)
  ping : Context -> option error;
  (** [json.MarshalContext(ctx, ts{TS: now})]. *)
  marshalTS : Context -> Z -> string + error;
  (** The value the broker delivers on the responder channel for a message
      (key, topic, value); it delivers exactly one. *)
  sendMessage : Context -> string -> string -> string -> option error
}.

(** [CheckHealth]; [now] is what [time.Now()] returns. *)
Definition CheckHealth (env : collaborators) (mb : messageBrokerConfig)
    (ctx : Context) (now : Z) (trace : list call) : list call * outcome (option error) :=
  let trace1 := trace ++ [PingCall ctx] in
  match ping env ctx with
  | Some err => (trace1, Returned (Wrap (Some err) "[health-check] failed to ping DB"))
  | None =>
      match marshalTS env ctx now with
      | inr err => (trace1, Returned (Wrap (Some err) "[health-check] failed to marshal"))
      | inl bytes =>
          match Topics mb !! 0%nat with
          | None => (trace1, Panicked)                (* Topics[0]: index out of range *)
          | Some t =>
              (trace1 ++ [SendMessageCall ctx (Name t) (Name t) bytes],
               Returned (Wrap (sendMessage env ctx (Name t) (Name t) bytes)
                           "[health-check] failed to send health check message to broker"))
          end
      end
  end.

(** The contexts under which the probe called its collaborators. *)
Definition callContext (c : call) : Context :=
  match c with
  | ExecCall ctx _ => ctx
  | PingCall ctx => ctx
  | SendMessageCall ctx _ _ _ => ctx
  end.

End Health.

(* ------------------------------------------------------------------ *)
(** ** The news read path *)
(* ------------------------------------------------------------------ *)

Module News.

(** The fields of [PersonalNews] that [GetNews] reads or writes, and the
    identifier of the article. *)
Record PersonalNews : Type := {
  Viewed : option bool;                      (* *bool *)
  CreatedAt : option Z;                      (* *time.Time *)
  UpdatedAt : option Z;
  NotificationChannels : option (list string);
  ID : string;
  ImageURL : string
}.

(** [int64(x)] for an [x] of type [uint64]. *)
Definition int64OfUint64 (x : Z) : Z :=
  if x <? 2 ^ 63 then x else x - 2 ^ 64.

(** The arguments bound to the query. *)
Record queryArgs : Type := {
  argUserID : string;
  argLanguage : string;
  argType : string;
  argLimit : Z;
  argOffset : Z
}.

(** The elements on which the loop body of [GetNews] dereferences only
    non-nil pointers. *)
Definition dereferencable (createdAfter : option Z) (elem : PersonalNews) : Prop :=
  Viewed elem = Some false -> is_Some (CreatedAt elem) /\ is_Some createdAfter.

Section GetNews.

(** [storage.Select[PersonalNews]]: the rows as a possibly nil slice, or an
    error. *)
Variable storage_Select : Context -> queryArgs -> option (list PersonalNews) + error.
(** [pictureClient.DownloadURL]. *)
Variable DownloadURL : string -> string.

(** The body of the loop over the result for one element. *)
Definition visit (createdAfter : option Z) (elem : PersonalNews) : outcome PersonalNews :=
  let finish (viewed : option bool) :=
    Returned {| Viewed := viewed;
                CreatedAt := CreatedAt elem;
                UpdatedAt := None;
                NotificationChannels := None;
                ID := ID elem;
                ImageURL := DownloadURL (ImageURL elem) |} in
  match Viewed elem with
  | Some false =>
      match CreatedAt elem, createdAfter with
      | Some created, Some cutoff =>
          if created <? cutoff then finish (Some true) else finish (Viewed elem)
      | _, _ => Panicked                      (* nil pointer dereference *)
      end
  | _ => finish (Viewed elem)
  end.

Fixpoint visitAll (createdAfter : option Z) (result : list PersonalNews)
    : outcome (list PersonalNews) :=
  match result with
  | [] => Returned []
  | elem :: rest =>
      match visit createdAfter elem with
      | Returned elem' =>
          match visitAll createdAfter rest with
          | Returned rest' => Returned (elem' :: rest')
          | Panicked => Panicked
          | Blocked => Blocked
          end
      | Panicked => Panicked
      | Blocked => Blocked
      end
  end.

(** [GetNews]: the returned slice ([None] is the nil slice) and error. *)
Definition GetNews (ctx : Context) (now : Z) (newsType language : string)
    (limit offset : Z) (createdAfter : option Z)
    : outcome (option (list PersonalNews) * option error) :=
  match ctxErr now ctx with
  | Some e => Returned (None, Wrap (Some e) "get news failed because context failed")
  | None =>
      let args := {| argUserID := requestingUserID ctx; argLanguage := language;
                     argType := newsType; argLimit := int64OfUint64 limit;
                     argOffset := int64OfUint64 offset |} in
      match storage_Select ctx args with
      | inr err => Returned (None, Wrap (Some err) "failed to get news for args")
      | inl None => Returned (Some [], None)
      | inl (Some result) =>
          match visitAll createdAfter result with
          | Returned items => Returned (Some items, None)
          | Panicked => Panicked
          | Blocked => Blocked
          end
      end
  end.

End GetNews.

End News.

(* ------------------------------------------------------------------ *)
(** ** Sample data *)
(* ------------------------------------------------------------------ *)

Module Samples.
Import Ledger.

(** The same badge notification for two users. *)
Definition forAlice : SN.sentNotification :=
  {| SN.SentAt := 90 * Hour; SN.Language := "en"; SN.UserID := "alice";
     SN.Uniqueness := "badge:gold"; SN.NotificationType := "badge_unlocked";
     SN.NotificationChannel := "push"; SN.NotificationChannelValue := "t1" |}.

Definition forBob : SN.sentNotification :=
  {| SN.SentAt := 91 * Hour; SN.Language := "en"; SN.UserID := "bob";
     SN.Uniqueness := "badge:gold"; SN.NotificationType := "badge_unlocked";
     SN.NotificationChannel := "push"; SN.NotificationChannelValue := "t1" |}.

(** One broadcast, recorded once per recipient that is served. *)
Definition newsFirst : SA.sentAnnouncement :=
  {| SA.SentAt := 90 * Hour; SA.Language := "en"; SA.Uniqueness := "news:42";
     SA.NotificationType := "news_added"; SA.NotificationChannel := "push";
     SA.NotificationChannelValue := "news_en" |}.

Definition newsSecond : SA.sentAnnouncement :=
  {| SA.SentAt := 92 * Hour; SA.Language := "en"; SA.Uniqueness := "news:42";
     SA.NotificationType := "news_added"; SA.NotificationChannel := "push";
     SA.NotificationChannelValue := "news_en" |}.

Definition emptyStore : Store :=
  {| db := {| sent_notifications := ∅; sent_announcements := ∅ |}; calls := [] |}.

Definition oldKey : notificationKey :=
  ("alice", "day-off:3", "days_off_started", "push", "t1")%string.
Definition recentKey : notificationKey :=
  ("alice", "badge:gold", "badge_unlocked", "push", "t1")%string.
Definition edgeKey : announcementKey :=
  ("news:41", "news_added", "push", "news_en")%string.
Definition staleKey : announcementKey :=
  ("news:7", "news_added", "push", "news_en")%string.

(** A ledger holding a row older than the retention window, a recent one,
    and an announcement sent exactly at the cutoff of a pass at 100h. *)
Definition agedStore : Store :=
  {| db := {| sent_notifications :=
                <[oldKey := (10 * Hour, "en"%string)]>
                  (<[recentKey := (90 * Hour, "en"%string)]> ∅);
              sent_announcements :=
                <[edgeKey := (76 * Hour, "en"%string)]>
                  (<[staleKey := (76 * Hour - 1, "en"%string)]> ∅) |};
     calls := [] |}.

Definition promptReply (now : Z) : storeReply :=
  {| completesAt := now + Second; fault := None |}.

Definition cancelledCtx : Context := mkContext true None None.

(** Collaborators of the health probe that all answer, and a broker
    configuration with one topic. *)
Definition reachable : Health.collaborators :=
  {| Health.ping := fun _ => None;
     Health.marshalTS := fun _ _ => inl "{}"%string;
     Health.sendMessage := fun _ _ _ _ => None |}.

Definition oneTopic : Health.messageBrokerConfig :=
  {| Health.Topics := [ {| Health.Name := "health-check" |} ] |}.

(** The store answers the ping but the broker does not acknowledge. *)
Definition brokerDown : Health.collaborators :=
  {| Health.ping := fun _ => None;
     Health.marshalTS := fun _ _ => inl "{}"%string;
     Health.sendMessage := fun _ _ _ _ => Some (External "broker down") |}.

(** Three articles: one not viewed and older than the cutoff 50, one not
    viewed and newer, one viewed. *)
Definition unseenOld : News.PersonalNews :=
  {| News.Viewed := Some false; News.CreatedAt := Some 10; News.UpdatedAt := Some 11;
     News.NotificationChannels := Some ["push"%string]; News.ID := "n1";
     News.ImageURL := "a.png" |}.
Definition unseenNew : News.PersonalNews :=
  {| News.Viewed := Some false; News.CreatedAt := Some 60; News.UpdatedAt := None;
     News.NotificationChannels := None; News.ID := "n2"; News.ImageURL := "b.png" |}.
Definition seen : News.PersonalNews :=
  {| News.Viewed := Some true; News.CreatedAt := Some 20; News.UpdatedAt := None;
     News.NotificationChannels := None; News.ID := "n3"; News.ImageURL := "c.png" |}.

Definition threeRows (_ : Context) (_ : News.queryArgs)
    : option (list News.PersonalNews) + error :=
  inl (Some [unseenOld; unseenNew; seen]).

Definition cdn (path : string) : string := ("https://cdn/" ++ path)%string.

(** A store that refuses the call. *)
Definition failingReply (now : Z) : storeReply :=
  {| completesAt := now + Second; fault := Some (External "connection refused") |}.

(** A store reply that arrives only after a minute. *)
Definition slowReply (now : Z) : storeReply :=
  {| completesAt := now + Minute; fault := None |}.

(** A loop that is waiting with a tick pending. *)
Definition tickedCleaner (ctx : Context) : Sweeper.cleaner :=
  {| Sweeper.store := agedStore; Sweeper.log := []; Sweeper.owner := ctx;
     Sweeper.interval := Sweeper.tickerInterval 5; Sweeper.tickPending := true;
     Sweeper.returned := false |}.

(** A branch body that fails on odd arguments, and a scheduler that does
    not run the goroutines in the order of the arguments. *)
Definition oddFails (_ : Context) (a : nat) : option error :=
  if Nat.even a then None else Some (External "odd").
Definition decimal (_ : nat) : string := "n".
Definition strided (i : nat) : nat := (i * 7)%nat.

End Samples.

(* ------------------------------------------------------------------ *)
(** ** Shutdown *)
(* ------------------------------------------------------------------ *)

Module Shutdown.

(** The resources [closeAll] closes; each is given by the error its [Close]
    returns. *)
Inductive closer : Type :=
| MessageBrokerConsumer
| Database
| MessageBrokerProducer
| OtherCloser (i : nat).

(** The loop [for _, closeOther := range otherClosers]: every closer is
    called; a non-nil error is appended. *)
Fixpoint closeOthers (i : nat) (otherClosers : list (option error))
    (errs : list (option error)) (closed : list closer)
    : list (option error) * list closer :=
  match otherClosers with
  | [] => (errs, closed)
  | r :: rest =>
      closeOthers (S i) rest
        (match r with Some e => errs ++ [Some e] | None => errs end)
        (closed ++ [OtherCloser i])
  end.

(** The function returned by [closeAll(mbConsumer, mbProducer, db,
    otherClosers...)], when called: the closers called, in order, and the
    returned error. *)
Definition closeAll (mbConsumer mbProducer db : option error)
    (otherClosers : list (option error)) : list closer * option error :=
  let err1 := Wrap mbConsumer "closing message broker consumer connection failed" in
  let err2 := Wrap db "closing db connection failed" in
  let err3 := Wrap mbProducer "closing message broker producer connection failed" in
  let r := closeOthers 0 otherClosers [err1; err2; err3]
             [MessageBrokerConsumer; Database; MessageBrokerProducer] in
  (snd r, Wrap (ErrorOrNil (Append (fst r))) "failed to close resources").


End Shutdown.

(* ------------------------------------------------------------------ *)
(** ** Concurrent execution of functions *)
(* ------------------------------------------------------------------ *)

Module Execute.
Import Fanout.

Section ExecuteConcurrently.

(** The scheduler: which of the waiting goroutines runs at each step. *)
Variable sched : nat -> nat.

(** [errors.Wrapf(fs[ix](), "failed to run func with index [%v]", ix)]. *)
Definition funcResult (f : unit -> option error) (ix : nat) : option error :=
  Wrap (f tt) ("failed to run func with index [" ++ pretty ix ++ "]").

(** One goroutine of [executeConcurrently] runs its body. *)
Definition worker (fs : list (unit -> option error)) (capacity : nat) (k : nat)
    (g : group) : option group :=
  match waiting g !! k with
  | None => None
  | Some ix =>
      match fs !! ix with
      | None => None
      | Some f =>
          if (length (errChan g) <? capacity)%nat
          then Some {| waiting := delete k (waiting g);
                       errChan := errChan g ++ [funcResult f ix];
                       started := started g ++ [ix] |}
          else None
      end
  end.

Fixpoint workers (fs : list (unit -> option error)) (capacity : nat) (n i : nat)
    (g : group) : group :=
  match n with
  | O => g
  | S n' =>
      match waiting g with
      | [] => g
      | _ :: _ =>
          match worker fs capacity (sched i mod length (waiting g)) g with
          | None => g
          | Some g' => workers fs capacity n' (S i) g'
          end
      end
  end.

(** [executeConcurrently(fs...)]: the returned error and the indices of the
    functions that were called, in the order of the calls. *)
Definition executeConcurrently (fs : list (unit -> option error))
    : outcome (option error * list nat) :=
  if (length fs =? 0)%nat then Returned (None, [])
  else
    let g0 := {| waiting := seq 0 (length fs); errChan := []; started := [] |} in
    let g := workers fs (length fs) (length fs) 0 g0 in
    match waiting g with
    | _ :: _ => Blocked
    | [] =>
        Returned (Wrap (ErrorOrNil (Append (errChan g))) "at least one execution failed",
                  started g)
    end.

(** What the goroutine of index [ix] sends on the channel. *)
Definition funcSentBy (fs : list (unit -> option error)) (ix : nat) : option error :=
  fs !! ix ≫= (fun f => funcResult f ix).

(** What holds of the group between two goroutine steps. *)
Record funcsConsistent (fs : list (unit -> option error)) (g : group) : Prop := {
  every_func_once : started g ++ waiting g ≡ₚ seq 0 (length fs);
  channel_holds_func_results : errChan g = map (funcSentBy fs) (started g)
}.

(** The failures of the functions with their indices, as the goroutines wrap
    them. *)
Definition funcFailures (fs : list (unit -> option error)) : list error :=
  omap (funcSentBy fs) (seq 0 (length fs)).

End ExecuteConcurrently.

End Execute.

(* ------------------------------------------------------------------ *)
(** ** The other news read paths *)
(* ------------------------------------------------------------------ *)

Module NewsReads.
Import News.

(** The arguments [GetUnreadNewsCount] binds to its query; [countSince] is
    the possibly nil instant inside [createdAfter]. *)
Record countArgs : Type := {
  countUserID : string;
  countLanguage : string;
  countTypes : string * string;
  countSince : option Z
}.

Section Reads.

(** [storage.Get[UnreadNewsCount]]: the count of the returned row ([None]
    for a nil row) or an error. *)
Variable storage_GetCount : Context -> countArgs -> option Z + error.
(** The constants [RegularNewsType] and [FeaturedNewsType]. *)
Variables RegularNewsType FeaturedNewsType : string.

(** [GetUnreadNewsCount].  [createdAfter] is [None] for a nil pointer and
    [Some inner] otherwise, [inner] being the instant it wraps, itself
    possibly nil.  The result is the returned count pointer and error. *)
Definition GetUnreadNewsCount (ctx : Context) (now : Z) (language : string)
    (createdAfter : option (option Z)) : outcome (option Z * option error) :=
  match ctxErr now ctx with
  | Some e => Returned (None, Wrap (Some e) "context failed")
  | None =>
      match createdAfter with
      | None => Panicked                        (* createdAfter.Time on a nil pointer *)
      | Some inner =>
          let args := {| countUserID := requestingUserID ctx; countLanguage := language;
                         countTypes := (RegularNewsType, FeaturedNewsType);
                         countSince := inner |} in
          match storage_GetCount ctx args with
          | inr err => Returned (None, Wrap (Some err) "failed to get unread news count for params")
          | inl None => Panicked                 (* result.Count on a nil result *)
          | inl (Some count) => Returned (Some count, None)
          end
      end
  end.

(** The article type is left abstract. *)
Context {TaggedNews : Type}.

(** [storage.Get[TaggedNews]] for the arguments (language, newsID). *)
Variable storage_GetNews : Context -> string -> string -> option TaggedNews + error.

(** [getNewsByPK]. *)
Definition getNewsByPK (ctx : Context) (now : Z) (newsID language : string)
    : option TaggedNews * option error :=
  match ctxErr now ctx with
  | Some e => (None, Wrap (Some e) "context failed")
  | None =>
      match storage_GetNews ctx language newsID with
      | inr err => (None, Wrap (Some err) "failed to select news article by (newsID,language)")
      | inl result => (result, None)
      end
  end.

End Reads.

End NewsReads.

(* ------------------------------------------------------------------ *)
(** ** The two cleaners of a processor *)
(* ------------------------------------------------------------------ *)

Module Processor.
Import Ledger Sweeper.

(** The tables after the DELETE of table [t] with [cutoff]. *)
Definition prunedDB (t : table) (cutoff : Z) (d : DB) : DB :=
  fst (execStatement (pruneStatementOf t cutoff) d).

(** The store answers the pass of a tick at [now] made under [ctx]. *)
Definition passSucceeds (ctx : Context) (now : Z) (reply : storeReply) : bool :=
  match ctxErr now ctx, ctxErr (completesAt reply) ctx, fault reply with
  | None, None, None => true
  | _, _, _ => false
  end.

Definition setStore (s : Store) (c : cleaner) : cleaner :=
  {| store := s; log := log c; owner := owner c; interval := interval c;
     tickPending := tickPending c; returned := returned c |}.

(** The two loops [StartProcessor] starts with [go], on the one store and
    under the one context of the processor. *)
Record sweepers : Type := {
  shared : Store;
  notificationsLoop : cleaner;
  announcementsLoop : cleaner
}.


(** One event of one loop; the cancellation of the common context reaches
    both loops. *)
Definition sweepersStep (p : sweepers) (te : table * event) : sweepers :=
  match te with
  | (_, OwnerCancels) =>
      {| shared := shared p;
         notificationsLoop :=
           cleanerStep (passOf SentNotifications) (labelOf SentNotifications)
             (notificationsLoop p) OwnerCancels;
         announcementsLoop :=
           cleanerStep (passOf SentAnnouncements) (labelOf SentAnnouncements)
             (announcementsLoop p) OwnerCancels |}
  | (SentNotifications, ev) =>
      let c := cleanerStep (passOf SentNotifications) (labelOf SentNotifications)
                 (setStore (shared p) (notificationsLoop p)) ev in
      {| shared := store c; notificationsLoop := c;
         announcementsLoop := announcementsLoop p |}
  | (SentAnnouncements, ev) =>
      let c := cleanerStep (passOf SentAnnouncements) (labelOf SentAnnouncements)
                 (setStore (shared p) (announcementsLoop p)) ev in
      {| shared := store c; notificationsLoop := notificationsLoop p;
         announcementsLoop := c |}
  end.

(** [go prc.startOldSentNotificationsCleaner(ctx)] and
    [go prc.startOldSentAnnouncementsCleaner(ctx)], interleaved as [evs]
    says. *)
Definition startCleaners (ctx : Context) (draw1 draw2 : Z) (st : Store)
    (evs : list (table * event)) : sweepers :=
  fold_left sweepersStep evs
    {| shared := st;
       notificationsLoop := cleanerStart ctx draw1 st [];
       announcementsLoop := cleanerStart ctx draw2 st [] |}.

(** The events of [evs] that loop [t] sees. *)
Definition seenBy (t : table) (evs : list (table * event)) : list event :=
  omap (fun te : table * event =>
          match snd te, fst te, t with
          | OwnerCancels, _, _ => Some OwnerCancels
          | ev, SentNotifications, SentNotifications => Some ev
          | ev, SentAnnouncements, SentAnnouncements => Some ev
          | _, _, _ => None
          end) evs.

(** Two loop states agree on everything but the store. *)
Definition sameLoop (c1 c2 : cleaner) : Prop :=
  log c1 = log c2 /\ owner c1 = owner c2 /\ interval c1 = interval c2
  /\ tickPending c1 = tickPending c2 /\ returned c1 = returned c2.

(** Two databases agree on table [t]. *)
Definition sameTable (t : table) (d1 d2 : DB) : Prop :=
  match t with
  | SentNotifications => sent_notifications d1 = sent_notifications d2
  | SentAnnouncements => sent_announcements d1 = sent_announcements d2
  end.

(** The processor's two loops agree with two loops run on their own. *)
Definition agrees (p : sweepers) (n a : cleaner) : Prop :=
  sameLoop (notificationsLoop p) n /\ sameLoop (announcementsLoop p) a
  /\ sameTable SentNotifications (db (shared p)) (db (store n))
  /\ sameTable SentAnnouncements (db (shared p)) (db (store a)).

(** The tables of [d'] are those of [d] after table [t] lost some rows. *)
Definition shrunk (t : table) (d d' : DB) : Prop :=
  match t with
  | SentNotifications =>
      sent_notifications d' ⊆ sent_notifications d
      /\ sent_announcements d' = sent_announcements d
  | SentAnnouncements =>
      sent_announcements d' ⊆ sent_announcements d
      /\ sent_notifications d' = sent_notifications d
  end.

(** What a cleaner has done to the store since state [c0]. *)
Record since (t : table) (c0 c : cleaner) : Prop := {
  tables_shrunk : shrunk t (db (store c0)) (db (store c));
  only_prunes_sent :
    exists sent, calls (store c) = calls (store c0) ++ sent
                 /\ Forall (fun cl => exists reqCtx cutoff,
                              cl = ExecCall reqCtx (pruneStatementOf t cutoff)) sent;
  log_extended : exists added, log c = log c0 ++ added
}.


End Processor.

(* ------------------------------------------------------------------ *)
(** ** More sample data *)
(* ------------------------------------------------------------------ *)

Module MoreSamples.
Import Ledger.

Definition failsWith (msg : string) (_ : unit) : option error := Some (External msg).
Definition succeeds (_ : unit) : option error := None.

(** A notification recorded more than a day before 100h. *)
Definition staleForAlice : SN.sentNotification :=
  {| SN.SentAt := 10 * Hour; SN.Language := "en"; SN.UserID := "alice";
     SN.Uniqueness := "badge:gold"; SN.NotificationType := "badge_unlocked";
     SN.NotificationChannel := "push"; SN.NotificationChannelValue := "t1" |}.

Definition countIsSeven (_ : Context) (_ : NewsReads.countArgs) : option Z + error :=
  inl (Some 7).

Definition storeDown (_ : Context) (_ : NewsReads.countArgs) : option Z + error :=
  inr (External "store down").

End MoreSamples.

(* ================================================================== *)
(** * Properties *)
(* ================================================================== *)

(* ------------------------------------------------------------------ *)
(** ** Suppression predicates *)
(* ------------------------------------------------------------------ *)

Module SuppressionFacts.
Import Suppression.

Lemma lor_below_RuneSelf (x y : N) :
  (x < RuneSelf)%N -> (y < RuneSelf)%N -> (RuneSelf <=? N.lor x y)%N = false.
Proof.
  unfold RuneSelf. intros Hx Hy. apply N.leb_gt.
  assert (Hlog : forall z : N, (z < 128)%N -> (N.log2 z < 7)%N).
  { intros z Hz. destruct (N.eq_dec z 0%N) as [-> | Hnz]; [reflexivity |].
    apply N.log2_lt_pow2; [lia | exact Hz]. }
  destruct (N.eq_dec (N.lor x y) 0%N) as [-> | Hnz]; [lia |].
  change 128%N with (2 ^ 7)%N. apply N.log2_lt_pow2; [lia |].
  rewrite N.log2_lor. apply N.max_lub_lt; auto.
Qed.

(** The test of the byte loop accepts two bytes exactly when they agree
    after lowering the letters A-Z. *)
Lemma fold_step_lower (sr tr : N) :
  ((tr =? sr)%N
   || ((65 <=? (if (tr <? sr)%N then tr else sr))%N
       && ((if (tr <? sr)%N then tr else sr) <=? 90)%N
       && ((if (tr <? sr)%N then sr else tr)
           =? (if (tr <? sr)%N then tr else sr) + 97 - 65)%N))%bool = true
  <-> lowerByte sr = lowerByte tr.
Proof.
  unfold lowerByte.
  rewrite orb_true_iff, !andb_true_iff, N.eqb_eq, !N.leb_le, N.eqb_eq.
  destruct (N.ltb_spec tr sr);
    destruct (N.leb_spec 65 sr); destruct (N.leb_spec sr 90);
    destruct (N.leb_spec 65 tr); destruct (N.leb_spec tr 90); simpl; lia.
Qed.

Section Facts.

Variable hasUnicode : string -> string -> bool.

Lemma EqualFold_cons (a b : ascii) (s t : string) :
  EqualFold hasUnicode (String a s) (String b t) =
    if (RuneSelf <=? N.lor (byteOf a) (byteOf b))%N
    then hasUnicode (String a s) (String b t)
    else ((byteOf b =? byteOf a)%N
          || ((65 <=? (if (byteOf b <? byteOf a)%N then byteOf b else byteOf a))%N
              && ((if (byteOf b <? byteOf a)%N then byteOf b else byteOf a) <=? 90)%N
              && ((if (byteOf b <? byteOf a)%N then byteOf a else byteOf b)
                  =? (if (byteOf b <? byteOf a)%N then byteOf b else byteOf a) + 97 - 65)%N))%bool
         && EqualFold hasUnicode s t.
Proof.
  simpl. destruct (RuneSelf <=? N.lor (byteOf a) (byteOf b))%N; [reflexivity |].
  destruct (byteOf b =? byteOf a)%N; [reflexivity |]. simpl.
  match goal with |- (if ?c then _ else _) = _ => destruct c end; reflexivity.
Qed.

(** On ASCII strings [EqualFold] is equality up to the case of letters. *)
Lemma EqualFold_ascii (s : string) :
  forall t : string, isASCII s -> isASCII t ->
    (EqualFold hasUnicode s t = true <-> asciiLower s = asciiLower t).
Proof.
  induction s as [| a s IH]; intros [| b t] Hs Ht.
  - simpl. tauto.
  - simpl. split; discriminate.
  - simpl. split; discriminate.
  - unfold isASCII in Hs, Ht. simpl in Hs, Ht.
    apply Forall_cons in Hs as [Ha Hs]. apply Forall_cons in Ht as [Hb Ht].
    rewrite EqualFold_cons, (lor_below_RuneSelf _ _ Ha Hb), andb_true_iff.
    rewrite fold_step_lower, (IH t Hs Ht).
    unfold asciiLower. simpl. split.
    + intros [-> ->]. reflexivity.
    + intros H. injection H as H1 H2. auto.
Qed.

Lemma lowerByte_ascii (n m : N) :
  lowerByte n = lowerByte m -> (m < RuneSelf)%N -> (n < RuneSelf)%N.
Proof.
  unfold lowerByte, RuneSelf.
  destruct (N.leb_spec 65 n); destruct (N.leb_spec n 90);
    destruct (N.leb_spec 65 m); destruct (N.leb_spec m 90); simpl; lia.
Qed.

Lemma asciiLower_isASCII (s : string) :
  forall t : string, asciiLower s = asciiLower t -> isASCII t -> isASCII s.
Proof.
  unfold asciiLower, isASCII.
  induction s as [| a s IH]; intros [| b t] H Ht; simpl in *;
    try discriminate; [constructor |].
  injection H as H1 H2. apply Forall_cons in Ht as [Hb Ht].
  constructor; [eapply lowerByte_ascii; eauto | eapply IH; eauto].
Qed.

Lemma rangeEqualFold_true (names : list string) (name : string) :
  rangeEqualFold hasUnicode names name = true
  <-> exists l, l ∈ names /\ EqualFold hasUnicode l name = true.
Proof.
  induction names as [| l rest IH]; simpl.
  - split; [discriminate | intros (l & Hin & _); inversion Hin].
  - destruct (EqualFold hasUnicode l name) eqn:E.
    + split; [intros _; exists l; split; [left | exact E] | reflexivity].
    + rewrite IH. split.
      * intros (l' & Hin & H'). exists l'. split; [right; exact Hin | exact H'].
      * intros (l' & Hin & H'). apply elem_of_cons in Hin as [-> | Hin];
          [congruence | exists l'; auto].
Qed.

(** The length guard in front of each loop changes nothing. *)
Lemma guarded_range (names : list string) (name : string) :
  (if (length names =? 0)%nat then false else rangeEqualFold hasUnicode names name)
  = rangeEqualFold hasUnicode names name.
Proof. destruct names; reflexivity. Qed.

End Facts.

Import Folding.

(** *** The Unicode tail *)

Ltac compare_runes :=
  repeat match goal with
         | |- context [(?a <? ?b)%N] => destruct (N.ltb_spec a b)
         | |- context [(?a <=? ?b)%N] => destruct (N.leb_spec a b)
         end;
  simpl; try (intros; first [reflexivity | discriminate | lia]).

Lemma member_true (r : N) (class : list N) : member r class = true <-> r ∈ class.
Proof.
  unfold member. rewrite existsb_exists, list_elem_of_In. split.
  - intros (x & Hin & Heq). apply N.eqb_eq in Heq. subst. exact Hin.
  - intros Hin. exists r. split; [exact Hin | apply N.eqb_refl].
Qed.

Lemma distinct_NoDup (l : list N) : distinct l = true -> NoDup l.
Proof.
  induction l as [| x l IH]; simpl; [constructor |].
  rewrite andb_true_iff, negb_true_iff. intros [Hx Hl].
  constructor; [| auto]. intros Hin. apply member_true in Hin.
  unfold member in Hin. congruence.
Qed.

Lemma least_spec (l : list N) (m : N) :
  least l = Some m -> m ∈ l /\ forall x, x ∈ l -> (m <= x)%N.
Proof.
  destruct l as [| x rest]; simpl; [discriminate |]. intros [= <-].
  induction rest as [| y rest IH]; simpl.
  - split; [left |]. intros z Hz. apply list_elem_of_singleton in Hz. subst. lia.
  - destruct IH as [Hin Hle]. split.
    + destruct (N.min_spec y (fold_right N.min x rest)) as [[_ ->] | [_ ->]].
      * right. left.
      * apply elem_of_cons in Hin as [Hin | Hin]; [rewrite Hin; left | right; right; exact Hin].
    + intros z Hz. apply elem_of_cons in Hz as [-> | Hz].
      * assert (Hx : x ∈ x :: rest) by left. specialize (Hle x Hx). lia.
      * apply elem_of_cons in Hz as [-> | Hz]; [lia |].
        assert (Hz' : z ∈ x :: rest) by (right; exact Hz). specialize (Hle z Hz'). lia.
Qed.

Lemma least_None (l : list N) : least l = None -> l = [].
Proof. destruct l; [reflexivity | discriminate]. Qed.

Lemma elem_of_filter_ltb (r x : N) (l : list N) :
  x ∈ List.filter (N.ltb r) l <-> x ∈ l /\ (r < x)%N.
Proof. rewrite !list_elem_of_In, filter_In, N.ltb_lt. tauto. Qed.

(** Removing one more element makes a filtered list shorter. *)
Lemma filter_length_lt (P Q : N -> bool) (l : list N) (x : N) :
  (forall y, P y = true -> Q y = true) ->
  x ∈ l -> Q x = true -> P x = false ->
  (length (List.filter P l) < length (List.filter Q l))%nat.
Proof.
  intros Hsub Hin HQ HP.
  assert (Hle : forall l', (length (List.filter P l') <= length (List.filter Q l'))%nat).
  { induction l' as [| y l' IH]; simpl; [lia |].
    destruct (P y) eqn:EP; [rewrite (Hsub y EP); simpl; lia |].
    destruct (Q y); simpl; lia. }
  induction l as [| y l IH]; [inversion Hin |].
  apply elem_of_cons in Hin as [<- | Hin]; simpl.
  - rewrite HP, HQ. simpl. specialize (Hle l). lia.
  - specialize (IH Hin). destruct (P y) eqn:EP; [rewrite (Hsub y EP); simpl; lia |].
    destruct (Q y); simpl; lia.
Qed.

Lemma skip_length (n : nat) (s : string) :
  String.length (skip n s) = (String.length s - n)%nat.
Proof.
  revert s. induction n as [| n IH]; intros [| a s]; simpl; auto.
Qed.

Lemma Decode_width (a : ascii) (s : string) :
  (1 <= snd (DecodeRuneInString (String a s)))%nat.
Proof.
  unfold DecodeRuneInString.
  repeat match goal with
         | |- context [match ?x with _ => _ end] => destruct x; simpl; try lia
         end.
Qed.

Lemma Decode_ascii (a : ascii) (s : string) :
  (byteOf a < RuneSelf)%N -> DecodeRuneInString (String a s) = (byteOf a, 1%nat).
Proof.
  intros Ha. unfold DecodeRuneInString, first. unfold RuneSelf in Ha.
  destruct (N.ltb_spec (byteOf a) 128%N); [reflexivity | lia].
Qed.

Lemma runesFrom_enough (steps : nat) :
  forall s : string, (String.length s <= steps)%nat -> runesFrom steps s = rangeRunes s.
Proof.
  unfold rangeRunes.
  induction steps as [steps IH] using lt_wf_ind. intros s Hlen.
  destruct s as [| a s]; [destruct steps; reflexivity |].
  destruct steps as [| steps]; [simpl in Hlen; lia |].
  change (runesFrom (S steps) (String a s))
    with (fst (DecodeRuneInString (String a s))
            :: runesFrom steps (skip (snd (DecodeRuneInString (String a s))) (String a s))).
  change (runesFrom (String.length (String a s)) (String a s))
    with (fst (DecodeRuneInString (String a s))
            :: runesFrom (String.length s)
                 (skip (snd (DecodeRuneInString (String a s))) (String a s))).
  f_equal.
  pose proof (Decode_width a s) as Hw.
  pose proof (skip_length (snd (DecodeRuneInString (String a s))) (String a s)) as Hs.
  set (d := DecodeRuneInString (String a s)) in *.
  change (String.length (String a s)) with (S (String.length s)) in Hs, Hlen.
  rewrite (IH steps) by lia. rewrite (IH (String.length s)); [reflexivity | lia | lia].
Qed.

Lemma rangeRunes_cons (a : ascii) (s : string) :
  rangeRunes (String a s)
  = fst (DecodeRuneInString (String a s))
      :: rangeRunes (skip (snd (DecodeRuneInString (String a s))) (String a s)).
Proof.
  unfold rangeRunes at 1.
  change (runesFrom (String.length (String a s)) (String a s))
    with (fst (DecodeRuneInString (String a s))
            :: runesFrom (String.length s)
                 (skip (snd (DecodeRuneInString (String a s))) (String a s))).
  f_equal. apply runesFrom_enough.
  pose proof (Decode_width a s). rewrite skip_length.
  change (String.length (String a s)) with (S (String.length s)). lia.
Qed.

Lemma rangeRunes_ascii (a : ascii) (s : string) :
  (byteOf a < RuneSelf)%N -> rangeRunes (String a s) = byteOf a :: rangeRunes s.
Proof. intros Ha. rewrite rangeRunes_cons, (Decode_ascii a s Ha). reflexivity. Qed.

Lemma lor_RuneSelf (x y : N) :
  (RuneSelf <=? N.lor x y)%N = false <-> (x < RuneSelf)%N /\ (y < RuneSelf)%N.
Proof.
  split; [| intros [Hx Hy]; apply lor_below_RuneSelf; assumption].
  unfold RuneSelf. rewrite N.leb_gt. intros Hlt.
  assert (Hbits : forall z, (z < 128)%N <-> forall n, (7 <= n)%N -> N.testbit z n = false).
  { intros z. split.
    - intros Hz n Hn. destruct (N.eq_dec z 0%N) as [-> | Hnz]; [apply N.bits_0 |].
      apply N.bits_above_log2.
      assert (N.log2 z < 7)%N by (apply N.log2_lt_pow2; [lia | exact Hz]). lia.
    - intros Hz. destruct (N.lt_ge_cases z 128%N) as [? | Hge]; [assumption |].
      exfalso. assert (Hpos : (0 < z)%N) by lia.
      pose proof (N.bit_log2 z ltac:(lia)) as Hbit.
      rewrite Hz in Hbit; [discriminate |].
      change 7%N with (N.log2 128%N). apply N.log2_le_mono. exact Hge. }
  rewrite (Hbits (N.lor x y)) in Hlt. split; apply Hbits; intros n Hn;
    specialize (Hlt n Hn); rewrite N.lor_spec in Hlt;
    apply orb_false_iff in Hlt; tauto.
Qed.

Section Folding.

Variable orbits : list (list N).
Hypothesis Hwf : wellFormed orbits = true.

Lemma orbits_NoDup : NoDup (concat orbits).
Proof.
  apply distinct_NoDup. unfold wellFormed in Hwf.
  apply andb_true_iff in Hwf. tauto.
Qed.

Lemma orbitOf_refl (r : N) : r ∈ orbitOf orbits r.
Proof.
  unfold orbitOf. destruct (List.find (member r) orbits) as [class |] eqn:E.
  - apply find_some in E as [_ E]. apply member_true. exact E.
  - left.
Qed.

(** A code point listed in two classes of the table is listed in one class
    twice: the classes are the same. *)
Lemma class_unique (tbl : list (list N)) (c1 c2 : list N) (x : N) :
  NoDup (concat tbl) -> c1 ∈ tbl -> c2 ∈ tbl -> x ∈ c1 -> x ∈ c2 -> c1 = c2.
Proof.
  induction tbl as [| c tbl IH]; intros Hnd H1 H2 Hx1 Hx2; [inversion H1 |].
  simpl in Hnd. apply NoDup_app in Hnd as (_ & Hsep & Hnd).
  assert (Hin : forall c', c' ∈ tbl -> x ∈ c' -> x ∈ concat tbl)
    by (intros c' Hc' Hxc'; apply list_elem_of_In, in_concat; exists c';
        rewrite <- !list_elem_of_In; auto).
  apply elem_of_cons in H1 as [-> | H1]; apply elem_of_cons in H2 as [-> | H2].
  - reflexivity.
  - exfalso. apply (Hsep x Hx1). eauto.
  - exfalso. apply (Hsep x Hx2). eauto.
  - apply IH; assumption.
Qed.

Lemma orbitOf_same (r r' : N) : r' ∈ orbitOf orbits r -> orbitOf orbits r' = orbitOf orbits r.
Proof.
  unfold orbitOf. intros Hin.
  destruct (List.find (member r) orbits) as [class |] eqn:E.
  - apply find_some in E as [Hclass _]. apply list_elem_of_In in Hclass.
    destruct (List.find (member r') orbits) as [class' |] eqn:E'.
    + apply find_some in E' as [Hclass' Hmem]. apply list_elem_of_In in Hclass'.
      apply member_true in Hmem.
      exact (class_unique orbits class' class r' orbits_NoDup Hclass' Hclass Hmem Hin).
    + exfalso. pose proof (find_none _ _ E' class) as Hnone.
      rewrite <- list_elem_of_In in Hnone. specialize (Hnone Hclass).
      apply member_true in Hin. congruence.
  - apply list_elem_of_singleton in Hin. subst r'. rewrite E. reflexivity.
Qed.

Lemma sameFold_sym (a b : N) : sameFold orbits a b -> sameFold orbits b a.
Proof.
  unfold sameFold. intros H. rewrite (orbitOf_same a b H). apply orbitOf_refl.
Qed.

Lemma sameFold_ascii (a b : N) :
  (a < RuneSelf)%N -> (b < RuneSelf)%N ->
  (sameFold orbits a b <-> lowerByte a = lowerByte b).
Proof.
  unfold RuneSelf. intros Ha Hb.
  assert (Hin : forall x : N, (x < 128)%N -> In x asciiRunes).
  { intros x Hx. unfold asciiRunes. apply in_map_iff. exists (N.to_nat x).
    split; [apply N2Nat.id | apply in_seq; lia]. }
  unfold wellFormed in Hwf. apply andb_true_iff in Hwf as [_ Hagree].
  unfold asciiFoldsAgree in Hagree. rewrite forallb_forall in Hagree.
  specialize (Hagree a (Hin a Ha)). rewrite forallb_forall in Hagree.
  specialize (Hagree b (Hin b Hb)). apply eqb_prop in Hagree.
  unfold sameFold. rewrite <- member_true, Hagree. apply N.eqb_eq.
Qed.

(** [SimpleFold] steps to the next larger member of the class, and from the
    largest member to the smallest. *)
Lemma SimpleFold_next (r : N) :
  let class := orbitOf orbits r in
  SimpleFold orbits r ∈ class
  /\ ((exists x, x ∈ class /\ (r < x)%N) ->
        (r < SimpleFold orbits r)%N
        /\ forall x, x ∈ class -> (r < x)%N -> (SimpleFold orbits r <= x)%N)
  /\ ((forall x, x ∈ class -> (x <= r)%N) ->
        forall x, x ∈ class -> (SimpleFold orbits r <= x)%N).
Proof.
  intros class. unfold SimpleFold. fold class.
  destruct (least (List.filter (N.ltb r) class)) as [next |] eqn:E.
  - apply least_spec in E as [Hin Hle]. apply elem_of_filter_ltb in Hin as [Hin Hlt].
    split; [exact Hin |]. split.
    + intros _. split; [exact Hlt |]. intros x Hx Hrx. apply Hle.
      apply elem_of_filter_ltb. auto.
    + intros Hmax. specialize (Hmax next Hin). lia.
  - apply least_None in E.
    assert (Hmax : forall x, x ∈ class -> (x <= r)%N).
    { intros x Hx. destruct (N.le_gt_cases x r) as [? | Hgt]; [assumption |].
      assert (Hf : x ∈ List.filter (N.ltb r) class) by (apply elem_of_filter_ltb; auto).
      rewrite E in Hf. inversion Hf. }
    destruct (least class) as [smallest |] eqn:E'.
    + apply least_spec in E' as [Hin Hle]. split; [exact Hin |]. split.
      * intros (x & Hx & Hrx). specialize (Hmax x Hx). lia.
      * intros _. exact Hle.
    + apply least_None in E'. pose proof (orbitOf_refl r) as Hr. fold class in Hr.
      rewrite E' in Hr. inversion Hr.
Qed.

Lemma pending_decreases (sr r : N) :
  r ∈ orbitOf orbits sr -> r <> sr -> SimpleFold orbits r <> sr ->
  (length (List.filter (pending sr (SimpleFold orbits r)) (orbitOf orbits sr))
   < length (List.filter (pending sr r) (orbitOf orbits sr)))%nat.
Proof.
  intros Hr Hne Hne'.
  destruct (SimpleFold_next r) as (Hin & Hup & Hwrap).
  rewrite (orbitOf_same sr r Hr) in Hin, Hup, Hwrap.
  pose proof (orbitOf_refl sr) as Hsr.
  set (r' := SimpleFold orbits r) in *.
  assert (Hcase : ((r < r')%N /\ forall x, x ∈ orbitOf orbits sr -> (r < x)%N -> (r' <= x)%N)
                  \/ ((forall x, x ∈ orbitOf orbits sr -> (x <= r)%N)
                      /\ forall x, x ∈ orbitOf orbits sr -> (r' <= x)%N)).
  { destruct (least (List.filter (N.ltb r) (orbitOf orbits sr))) as [next |] eqn:E.
    - left. apply Hup. apply least_spec in E as [E _].
      apply elem_of_filter_ltb in E. eauto.
    - right. apply least_None in E.
      assert (Hmax : forall x, x ∈ orbitOf orbits sr -> (x <= r)%N).
      { intros x Hx. destruct (N.le_gt_cases x r) as [? | Hgt]; [assumption |].
        assert (Hf : x ∈ List.filter (N.ltb r) (orbitOf orbits sr))
          by (apply elem_of_filter_ltb; auto).
        rewrite E in Hf. inversion Hf. }
      split; [exact Hmax | apply Hwrap, Hmax]. }
  pose proof (Hsr) as Hsr'.
  apply (filter_length_lt _ _ _ r'); [| exact Hin | |]; unfold pending;
    (destruct Hcase as [[Hlt Hmin] | [Hmax Hmin]];
     [pose proof (Hmin sr Hsr) | pose proof (Hmin sr Hsr); pose proof (Hmax sr Hsr)]);
    try intros y; compare_runes.
Qed.

(** The loop over [SimpleFold] ends within the given number of iterations,
    on a member of the class of [sr]; it ends on [tr] when [tr] is a member
    above [sr]. *)
Lemma foldLoop_spec (sr tr : N) (steps : nat) :
  forall r : N,
    r ∈ orbitOf orbits sr ->
    r = sr \/ (length (List.filter (pending sr r) (orbitOf orbits sr)) <= steps)%nat ->
    let res := foldLoop orbits steps sr tr r in
    res ∈ orbitOf orbits sr
    /\ (res = sr \/ (tr <= res)%N)
    /\ (tr ∈ orbitOf orbits sr -> (sr < r <= tr)%N -> res = tr).
Proof.
  pose proof (orbitOf_refl sr) as Hsr.
  assert (Hpos : forall r, r <> sr ->
            (0 < length (List.filter (pending sr r) (orbitOf orbits sr)))%nat).
  { intros r Hne.
    assert (Hin : sr ∈ List.filter (pending sr r) (orbitOf orbits sr)).
    { apply list_elem_of_In, filter_In. split; [apply list_elem_of_In, Hsr |].
      unfold pending. compare_runes. }
    destruct (List.filter (pending sr r) (orbitOf orbits sr)); [inversion Hin | simpl; lia]. }
  induction steps as [| steps IH]; intros r Hr Hfuel; simpl.
  - destruct Hfuel as [-> | Hfuel].
    + split; [exact Hsr |]. split; [left; reflexivity | intros _ ?; lia].
    + destruct (N.eq_dec r sr) as [-> | Hne].
      * split; [exact Hsr |]. split; [left; reflexivity | intros _ ?; lia].
      * specialize (Hpos r Hne). lia.
  - destruct (N.eqb_spec r sr) as [-> | Hne]; simpl.
    { split; [exact Hsr |]. split; [left; reflexivity | intros _ ?; lia]. }
    destruct (N.ltb_spec r tr) as [Hlt | Hge].
    + destruct (SimpleFold_next r) as (Hin & Hup & _).
      rewrite (orbitOf_same sr r Hr) in Hin, Hup.
      assert (Hfuel' : SimpleFold orbits r = sr
                       \/ (length (List.filter (pending sr (SimpleFold orbits r))
                                     (orbitOf orbits sr)) <= steps)%nat).
      { destruct (N.eq_dec (SimpleFold orbits r) sr) as [? | Hne']; [left; assumption |].
        right. pose proof (pending_decreases sr r Hr Hne Hne').
        destruct Hfuel as [? | Hfuel]; [contradiction | lia]. }
      destruct (IH (SimpleFold orbits r) Hin Hfuel') as (H1 & H2 & H3).
      split; [exact H1 |]. split; [exact H2 |].
      intros Htr Hbetween. apply H3; [exact Htr |].
      destruct (Hup (ex_intro _ tr (conj Htr Hlt))) as [Hgt Hmin].
      specialize (Hmin tr Htr Hlt). lia.
    + split; [exact Hr |]. split; [right; exact Hge |]. intros _ ?. lia.
Qed.

Lemma runeMatch_spec (sr tr : N) : runeMatch orbits sr tr = true <-> sameFold orbits sr tr.
Proof.
  assert (Hgen : forall lo hi, (lo < hi)%N -> (RuneSelf <= hi)%N ->
            ((foldLoop orbits (length (orbitOf orbits lo)) lo hi (SimpleFold orbits lo)
               =? hi)%N = true <-> sameFold orbits lo hi)).
  { intros lo hi Hlt Hhi. unfold sameFold. rewrite N.eqb_eq.
    destruct (SimpleFold_next lo) as (Hin & Hup & _).
    assert (Hfuel : SimpleFold orbits lo = lo
                    \/ (length (List.filter (pending lo (SimpleFold orbits lo))
                                  (orbitOf orbits lo)) <= length (orbitOf orbits lo))%nat).
    { right. clear. induction (orbitOf orbits lo) as [| y l IH]; simpl; [lia |].
      destruct (pending lo (SimpleFold orbits lo) y); simpl; lia. }
    destruct (foldLoop_spec lo hi (length (orbitOf orbits lo)) (SimpleFold orbits lo)
                Hin Hfuel) as (H1 & _ & H3).
    split.
    - intros <-. exact H1.
    - intros Hhi'. apply H3; [exact Hhi' |].
      destruct (Hup (ex_intro _ hi (conj Hhi' Hlt))) as [Hgt Hmin].
      specialize (Hmin hi Hhi' Hlt). lia. }
  assert (Hascii : forall lo hi, (lo < hi)%N -> (hi < RuneSelf)%N ->
            (((65 <=? lo) && (lo <=? 90) && (hi =? lo + 97 - 65))%N%bool = true
             <-> sameFold orbits lo hi)).
  { intros lo hi Hlt Hhi. rewrite sameFold_ascii by (unfold RuneSelf in *; lia).
    rewrite !andb_true_iff, !N.leb_le, N.eqb_eq. unfold lowerByte, RuneSelf in *.
    destruct (N.leb_spec 65 lo); destruct (N.leb_spec lo 90);
      destruct (N.leb_spec 65 hi); destruct (N.leb_spec hi 90); simpl; lia. }
  unfold runeMatch. destruct (N.eqb_spec tr sr) as [-> | Hne].
  - split; [intros _; apply orbitOf_refl | reflexivity].
  - destruct (N.ltb_spec tr sr) as [Hlt | Hge].
    + destruct (N.ltb_spec sr RuneSelf) as [Hs | Hs].
      * rewrite (Hascii tr sr Hlt Hs). split; apply sameFold_sym.
      * rewrite (Hgen tr sr Hlt Hs). split; apply sameFold_sym.
    + assert (Hlt : (sr < tr)%N) by lia.
      destruct (N.ltb_spec tr RuneSelf) as [Hs | Hs].
      * apply (Hascii sr tr Hlt Hs).
      * apply (Hgen sr tr Hlt Hs).
Qed.

Lemma runeLoop_spec (srs : list N) :
  forall t : string,
    runeLoop orbits srs t = true <-> Forall2 (sameFold orbits) srs (rangeRunes t).
Proof.
  induction srs as [| sr srs IH]; intros [| b t].
  - simpl. split; [constructor | reflexivity].
  - rewrite rangeRunes_cons. simpl. split; [discriminate | intros H; inversion H].
  - simpl. split; [discriminate | intros H; inversion H].
  - rewrite rangeRunes_cons.
    change (runeLoop orbits (sr :: srs) (String b t))
      with (let d := if (byteOf b <? RuneSelf)%N then (byteOf b, 1%nat)
                     else DecodeRuneInString (String b t) in
            if runeMatch orbits sr (fst d)
            then runeLoop orbits srs (skip (snd d) (String b t)) else false).
    assert (Hd : (if (byteOf b <? RuneSelf)%N then (byteOf b, 1%nat)
                  else DecodeRuneInString (String b t))
                 = DecodeRuneInString (String b t)).
    { destruct (N.ltb_spec (byteOf b) RuneSelf) as [Hb | _]; [| reflexivity].
      symmetry. apply Decode_ascii, Hb. }
    rewrite Hd. cbv zeta.
    destruct (runeMatch orbits sr (fst (DecodeRuneInString (String b t)))) eqn:E.
    + rewrite IH. apply runeMatch_spec in E. rewrite Forall2_cons. tauto.
    + split; [discriminate |]. intros H. apply Forall2_cons in H as [Hm _].
      apply runeMatch_spec in Hm. rewrite Hm in E. discriminate.
Qed.

(** [strings.EqualFold], for all strings: equality up to case, rune by
    rune. *)
Lemma EqualFold_spec (s : string) :
  forall t : string,
    EqualFold (hasUnicode orbits) s t = true <-> caseInsensitiveMatch orbits s t.
Proof.
  unfold caseInsensitiveMatch.
  induction s as [| a s IH]; intros [| b t].
  - simpl. split; [constructor | reflexivity].
  - rewrite rangeRunes_cons. simpl. split; [discriminate | intros H; inversion H].
  - rewrite rangeRunes_cons. simpl. split; [discriminate | intros H; inversion H].
  - rewrite EqualFold_cons.
    destruct (RuneSelf <=? N.lor (byteOf a) (byteOf b))%N eqn:E.
    + unfold hasUnicode. apply runeLoop_spec.
    + apply lor_RuneSelf in E as [Ha Hb].
      rewrite (rangeRunes_ascii a s Ha), (rangeRunes_ascii b t Hb).
      rewrite andb_true_iff, fold_step_lower, (IH t), <- (sameFold_ascii _ _ Ha Hb).
      split.
      * intros [H1 H2]. constructor; assumption.
      * intros H. inversion H; subst. auto.
Qed.

Lemma caseInsensitiveMatch_refl (s : string) : caseInsensitiveMatch orbits s s.
Proof.
  unfold caseInsensitiveMatch. induction (rangeRunes s); constructor; auto.
  apply orbitOf_refl.
Qed.

Lemma caseInsensitiveMatch_sym (s t : string) :
  caseInsensitiveMatch orbits s t -> caseInsensitiveMatch orbits t s.
Proof.
  unfold caseInsensitiveMatch. intros H. induction H; constructor; auto.
  apply sameFold_sym. assumption.
Qed.

End Folding.

(** Go reads a byte that starts no UTF-8 sequence as the replacement
    character: two such bytes fold together although they differ. *)
Lemma undecodable_bytes_fold_together (orbits : list (list N)) :
  EqualFold (hasUnicode orbits) (String "255" EmptyString) (String "254" EmptyString) = true.
Proof. reflexivity. Qed.

(** C7. Each suppression predicate returns true exactly when some entry of
    its list matches the name case-insensitively, for every list and every
    name: the two strings, read as UTF-8 the way [strings.EqualFold] reads
    them, have as many runes and agree rune by rune up to Unicode's simple
    case folding.  The folding table of Go's package [unicode] is a
    parameter, assumed to list no code point twice and to pair the ASCII
    capitals with their small letters.  The match is reflexive and
    symmetric, so an entry always disables its own spelling; on ASCII
    entries and names it is equality up to the case of the letters A-Z.  An
    empty list disables nothing, the list ["Gold"] disables every spelling
    of "gold" that differs only in letter case, and it does not disable
    "Silver". *)
Theorem suppression_predicates_case_insensitive :
  forall (orbits : list (list N)) (cfg : config) (name : string),
    wellFormed orbits = true ->
    let lists := DisabledAchievementsNotifications cfg in
    (IsLevelNotificationDisabled (hasUnicode orbits) cfg name = true
       <-> exists l, l ∈ Levels lists /\ caseInsensitiveMatch orbits l name)
    /\ (IsBadgeNotificationDisabled (hasUnicode orbits) cfg name = true
       <-> exists l, l ∈ Badges lists /\ caseInsensitiveMatch orbits l name)
    /\ (IsRoleNotificationDisabled (hasUnicode orbits) cfg name = true
       <-> exists l, l ∈ Roles lists /\ caseInsensitiveMatch orbits l name)
    /\ (forall l, caseInsensitiveMatch orbits l l
                  /\ (caseInsensitiveMatch orbits l name ->
                      caseInsensitiveMatch orbits name l))
    /\ (forall l, isASCII l -> isASCII name ->
          (caseInsensitiveMatch orbits l name <-> asciiLower l = asciiLower name))
    /\ (name ∈ Levels lists -> IsLevelNotificationDisabled (hasUnicode orbits) cfg name = true)
    /\ (name ∈ Badges lists -> IsBadgeNotificationDisabled (hasUnicode orbits) cfg name = true)
    /\ (name ∈ Roles lists -> IsRoleNotificationDisabled (hasUnicode orbits) cfg name = true)
    /\ (Levels lists = [] -> IsLevelNotificationDisabled (hasUnicode orbits) cfg name = false)
    /\ (Badges lists = [] -> IsBadgeNotificationDisabled (hasUnicode orbits) cfg name = false)
    /\ (Roles lists = [] -> IsRoleNotificationDisabled (hasUnicode orbits) cfg name = false)
    /\ (asciiLower name = asciiLower "gold" ->
          IsBadgeNotificationDisabled (hasUnicode orbits) (withBadges ["Gold"%string]) name
          = true)
    /\ IsBadgeNotificationDisabled (hasUnicode orbits) (withBadges ["Gold"%string]) "Silver"
       = false.
Proof.
  intros orbits cfg name Hwf lists.
  assert (Hrange : forall names,
            rangeEqualFold (hasUnicode orbits) names name = true
            <-> exists l, l ∈ names /\ caseInsensitiveMatch orbits l name).
  { intros names. rewrite rangeEqualFold_true. split;
      intros (l & Hin & Hl); exists l; (split; [exact Hin |]);
      apply (EqualFold_spec orbits Hwf); exact Hl. }
  assert (Hown : forall names, name ∈ names ->
            rangeEqualFold (hasUnicode orbits) names name = true).
  { intros names Hin. apply Hrange. exists name. split; [exact Hin |].
    apply (caseInsensitiveMatch_refl orbits). }
  unfold IsLevelNotificationDisabled, IsBadgeNotificationDisabled, IsRoleNotificationDisabled.
  fold lists. rewrite !guarded_range.
  split; [apply Hrange |]. split; [apply Hrange |]. split; [apply Hrange |].
  split; [intros l; split;
            [apply (caseInsensitiveMatch_refl orbits)
            | apply (caseInsensitiveMatch_sym orbits Hwf)] |].
  split; [intros l Hl Hname; rewrite <- (EqualFold_spec orbits Hwf);
            apply EqualFold_ascii; assumption |].
  split; [apply Hown |]. split; [apply Hown |]. split; [apply Hown |].
  split; [intros ->; reflexivity |].
  split; [intros ->; reflexivity |].
  split; [intros ->; reflexivity |].
  split; [| reflexivity].
  intros Hlow. apply rangeEqualFold_true. exists "Gold"%string. split; [left |].
  assert (Hgold : isASCII "gold") by (repeat constructor).
  assert (HGold : isASCII "Gold") by (repeat constructor).
  apply EqualFold_ascii; [exact HGold | eapply asciiLower_isASCII; eauto |].
  rewrite Hlow. reflexivity.
Qed.

(** With a table that holds the ASCII letters, the Kelvin sign and E with
    acute: ["Gold"] suppresses "GOLD", the entry "Gold-é" suppresses its own
    spelling and "GOLD-É", and ["Kit"] suppresses the name written with the
    Kelvin sign. *)
Lemma suppression_predicates_case_insensitive_witness :
  wellFormed sampleOrbits = true
  /\ (asciiLower "GOLD" = asciiLower "gold"
      /\ IsBadgeNotificationDisabled (hasUnicode sampleOrbits) (withBadges ["Gold"%string])
           "GOLD" = true)
  /\ ("Gold-é"%string ∈ Roles (DisabledAchievementsNotifications (withRoles ["Gold-é"%string]))
      /\ IsRoleNotificationDisabled (hasUnicode sampleOrbits) (withRoles ["Gold-é"%string])
           "Gold-é" = true)
  /\ IsRoleNotificationDisabled (hasUnicode sampleOrbits) (withRoles ["Gold-é"%string])
       "GOLD-É" = true
  /\ IsRoleNotificationDisabled (hasUnicode sampleOrbits) (withRoles ["Kit"%string])
       "Kit" = true.
Proof.
  assert (Hwf : wellFormed sampleOrbits = true) by (vm_compute; reflexivity).
  split; [exact Hwf |].
  split; [split; [reflexivity |] | split; [split; [left |] | split]].
  - destruct (suppression_predicates_case_insensitive sampleOrbits
                (withBadges ["Gold"%string]) "GOLD" Hwf)
      as (_ & _ & _ & _ & _ & _ & _ & _ & _ & _ & _ & Hgold & _).
    apply Hgold. reflexivity.
  - destruct (suppression_predicates_case_insensitive sampleOrbits
                (withRoles ["Gold-é"%string]) "Gold-é" Hwf)
      as (_ & _ & _ & _ & _ & _ & _ & Hown & _).
    apply Hown. left.
  - destruct (suppression_predicates_case_insensitive sampleOrbits
                (withRoles ["Gold-é"%string]) "GOLD-É" Hwf)
      as (_ & _ & [_ Hrole] & _).
    apply Hrole. exists "Gold-é"%string. split; [left |].
    unfold caseInsensitiveMatch, sameFold. vm_compute. repeat constructor.
  - destruct (suppression_predicates_case_insensitive sampleOrbits
                (withRoles ["Kit"%string]) "Kit" Hwf)
      as (_ & _ & [_ Hrole] & _).
    apply Hrole. exists "Kit"%string. split; [left |].
    unfold caseInsensitiveMatch, sameFold. vm_compute. repeat constructor.
Defined.

End SuppressionFacts.

(* ------------------------------------------------------------------ *)
(** ** The ledger: retention, cancellation, scoping *)
(* ------------------------------------------------------------------ *)

Module LedgerFacts.
Import Ledger.

Section Tables.

Context {K : Type} `{Countable K}.

Lemma lookup_keepRecent (cutoff : Z) (t : gmap K rowData) (k : K) (row : rowData) :
  keepRecent cutoff t !! k = Some row <-> t !! k = Some row /\ cutoff <= fst row.
Proof.
  unfold keepRecent. rewrite map_lookup_filter_Some. simpl. split.
  - intros [Hk Hrow]. split; [exact Hk | lia].
  - intros [Hk Hrow]. split; [exact Hk | lia].
Qed.

Lemma keepRecent_drops (cutoff : Z) (t : gmap K rowData) (k : K) (row : rowData) :
  t !! k = Some row -> fst row < cutoff -> keepRecent cutoff t !! k = None.
Proof.
  intros Hk Hold. destruct (keepRecent cutoff t !! k) as [row' |] eqn:E; [| reflexivity].
  apply lookup_keepRecent in E as [Hk' Hrec]. rewrite Hk in Hk'.
  injection Hk' as <-. lia.
Qed.

Lemma keepRecent_idempotent (cutoff : Z) (t : gmap K rowData) :
  keepRecent cutoff (keepRecent cutoff t) = keepRecent cutoff t.
Proof.
  apply map_eq. intros k. apply option_eq. intros row.
  rewrite !lookup_keepRecent. tauto.
Qed.

End Tables.

Lemma storage_Exec_answered (ctx : Context) (reply : storeReply) (stmt : statement)
    (st : Store) :
  answered ctx reply ->
  storage_Exec ctx reply stmt st =
    ({| db := fst (execStatement stmt (db st)); calls := calls st ++ [ExecCall ctx stmt] |},
     snd (execStatement stmt (db st))).
Proof. intros [Hctx Hfault]. unfold storage_Exec. rewrite Hctx, Hfault. reflexivity. Qed.

(** C3. A prune pass that the store answers keeps exactly the rows whose
    sent_at is at or after now - 24h, unchanged, removes every row that is
    older, and leaves the other table alone; a second pass with the same
    cutoff affects zero rows and changes nothing. *)
Theorem prune_retention :
  forall (ctx : Context) (now : Z) (reply reply' : storeReply) (st : Store),
    ctxErr now ctx = None -> answered ctx reply -> answered ctx reply' ->
    let cutoff := now - 24 * Hour in
    let n1 := deleteOldSentNotifications ctx now reply st in
    let a1 := deleteOldSentAnnouncements ctx now reply st in
    (snd n1 = None
     /\ (forall k row, sent_notifications (db (fst n1)) !! k = Some row
            <-> sent_notifications (db st) !! k = Some row /\ cutoff <= fst row)
     /\ (forall k row, sent_notifications (db st) !! k = Some row -> fst row < cutoff ->
            sent_notifications (db (fst n1)) !! k = None)
     /\ sent_announcements (db (fst n1)) = sent_announcements (db st)
     /\ snd (execStatement (DeleteFromSentNotificationsOlderThan cutoff) (db (fst n1)))
         = inl 0%nat
     /\ db (fst (deleteOldSentNotifications ctx now reply' (fst n1))) = db (fst n1))
    /\ (snd a1 = None
     /\ (forall k row, sent_announcements (db (fst a1)) !! k = Some row
            <-> sent_announcements (db st) !! k = Some row /\ cutoff <= fst row)
     /\ (forall k row, sent_announcements (db st) !! k = Some row -> fst row < cutoff ->
            sent_announcements (db (fst a1)) !! k = None)
     /\ sent_notifications (db (fst a1)) = sent_notifications (db st)
     /\ snd (execStatement (DeleteFromSentAnnouncementsOlderThan cutoff) (db (fst a1)))
         = inl 0%nat
     /\ db (fst (deleteOldSentAnnouncements ctx now reply' (fst a1))) = db (fst a1)).
Proof.
  intros ctx now reply reply' st Hlive Hans Hans' cutoff n1 a1.
  assert (Hcut : retentionCutoff now = cutoff) by (unfold retentionCutoff, cutoff; lia).
  subst n1 a1. unfold deleteOldSentNotifications, deleteOldSentAnnouncements.
  rewrite Hlive, !storage_Exec_answered by assumption. rewrite Hcut. simpl.
  rewrite !keepRecent_idempotent, !Nat.sub_diag.
  split_and!; try reflexivity;
    try (intros k row; apply lookup_keepRecent);
    try (intros k row Hk Hold; eapply keepRecent_drops; eassumption).
Qed.

(** A pass at 100h over the sample ledger: the row sent at 10h goes, the row
    sent at 90h and the announcement sent exactly at the cutoff stay. *)
Lemma prune_retention_witness :
  let now := 100 * Hour in
  let reply := Samples.promptReply now in
  let n1 := deleteOldSentNotifications Background now reply Samples.agedStore in
  let a1 := deleteOldSentAnnouncements Background now reply Samples.agedStore in
  (ctxErr now Background = None /\ answered Background reply)
  /\ sent_notifications (db (fst n1)) !! Samples.oldKey = None
  /\ sent_notifications (db (fst n1)) !! Samples.recentKey = Some (90 * Hour, "en"%string)
  /\ sent_announcements (db (fst a1)) !! Samples.edgeKey = Some (76 * Hour, "en"%string)
  /\ sent_announcements (db (fst a1)) !! Samples.staleKey = None
  /\ db (fst (deleteOldSentNotifications Background now reply (fst n1))) = db (fst n1).
Proof.
  intros now reply n1 a1.
  assert (Hlive : ctxErr now Background = None) by reflexivity.
  assert (Hans : answered Background reply) by (split; reflexivity).
  pose proof (prune_retention Background now reply reply Samples.agedStore Hlive Hans Hans)
    as [(_ & Hkeep & Hdrop & _ & _ & Hagain) (_ & Hkeep' & Hdrop' & _)].
  split; [split; assumption |]. split_and!.
  - apply (Hdrop Samples.oldKey (10 * Hour, "en"%string)); [reflexivity | reflexivity].
  - apply Hkeep. split; [reflexivity | discriminate].
  - apply Hkeep'. split; [reflexivity | discriminate].
  - apply (Hdrop' Samples.staleKey (76 * Hour - 1, "en"%string)); reflexivity.
  - exact Hagain.
Defined.

Lemma prune_under_failed_context (ctx : Context) (now : Z) (reply : storeReply)
    (st : Store) (e : error) :
  ctxErr now ctx = Some e ->
  deleteOldSentNotifications ctx now reply st = (st, Some (Wrapped e "unexpected deadline"))
  /\ deleteOldSentAnnouncements ctx now reply st = (st, Some (Wrapped e "unexpected deadline")).
Proof.
  intros Herr. unfold deleteOldSentNotifications, deleteOldSentAnnouncements.
  rewrite Herr. split; reflexivity.
Qed.

(** C9. Under a context that has already failed, neither prune function
    sends its DELETE: the store and the record of calls are returned as they
    were, with the context's error wrapped. *)
Theorem prune_failed_context_untouched :
  forall (ctx : Context) (now : Z) (reply : storeReply) (st : Store) (e : error),
    ctxErr now ctx = Some e ->
    deleteOldSentNotifications ctx now reply st = (st, Some (Wrapped e "unexpected deadline"))
    /\ deleteOldSentAnnouncements ctx now reply st = (st, Some (Wrapped e "unexpected deadline")).
Proof.
  intros ctx now reply st e Herr. now apply prune_under_failed_context.
Qed.

Lemma prune_failed_context_untouched_witness :
  ctxErr (100 * Hour) Samples.cancelledCtx = Some Canceled
  /\ fst (deleteOldSentNotifications Samples.cancelledCtx (100 * Hour)
            (Samples.promptReply (100 * Hour)) Samples.agedStore) = Samples.agedStore
  /\ fst (deleteOldSentAnnouncements Samples.cancelledCtx (100 * Hour)
            (Samples.promptReply (100 * Hour)) Samples.agedStore) = Samples.agedStore.
Proof.
  assert (Herr : ctxErr (100 * Hour) Samples.cancelledCtx = Some Canceled) by reflexivity.
  destruct (prune_failed_context_untouched Samples.cancelledCtx (100 * Hour)
              (Samples.promptReply (100 * Hour)) Samples.agedStore Canceled Herr) as [Hn Ha].
  split; [exact Herr |]. rewrite Hn, Ha. split; reflexivity.
Defined.

Lemma insertSentNotification_answered (ctx : Context) (reply : storeReply)
    (sn : SN.sentNotification) (st : Store) :
  answered ctx reply ->
  sent_notifications (db st) !! notificationKeyOf sn = None ->
  snd (insertSentNotification ctx reply sn st) = None
  /\ sent_notifications (db (fst (insertSentNotification ctx reply sn st)))
     = <[notificationKeyOf sn := (SN.SentAt sn, SN.Language sn)]> (sent_notifications (db st))
  /\ sent_announcements (db (fst (insertSentNotification ctx reply sn st)))
     = sent_announcements (db st).
Proof.
  intros Hans Hfree. unfold insertSentNotification.
  rewrite storage_Exec_answered by exact Hans. unfold notificationKeyOf in *.
  simpl. rewrite Hfree. simpl. auto.
Qed.

Lemma deleteSentNotification_answered (ctx : Context) (reply : storeReply)
    (sn : SN.sentNotification) (st : Store) :
  answered ctx reply ->
  snd (deleteSentNotification ctx reply sn st) = None
  /\ sent_notifications (db (fst (deleteSentNotification ctx reply sn st)))
     = delete (notificationKeyOf sn) (sent_notifications (db st))
  /\ sent_announcements (db (fst (deleteSentNotification ctx reply sn st)))
     = sent_announcements (db st).
Proof.
  intros Hans. unfold deleteSentNotification.
  rewrite storage_Exec_answered by exact Hans. simpl. auto.
Qed.

Lemma insertSentAnnouncement_answered (ctx : Context) (reply : storeReply)
    (sa : SA.sentAnnouncement) (st : Store) :
  answered ctx reply ->
  match sent_announcements (db st) !! announcementKeyOf sa with
  | None =>
      snd (insertSentAnnouncement ctx reply sa st) = None
      /\ sent_announcements (db (fst (insertSentAnnouncement ctx reply sa st)))
         = <[announcementKeyOf sa := (SA.SentAt sa, SA.Language sa)]> (sent_announcements (db st))
  | Some _ =>
      snd (insertSentAnnouncement ctx reply sa st)
        = Some (Wrapped ErrDuplicate "failed to insert sent announcement")
      /\ db (fst (insertSentAnnouncement ctx reply sa st)) = db st
  end.
Proof.
  intros Hans. unfold insertSentAnnouncement.
  rewrite storage_Exec_answered by exact Hans. unfold announcementKeyOf.
  simpl. destruct (sent_announcements (db st) !! _); simpl; auto.
Qed.

Lemma deleteSentAnnouncement_answered (ctx : Context) (reply : storeReply)
    (sa : SA.sentAnnouncement) (st : Store) :
  answered ctx reply ->
  snd (deleteSentAnnouncement ctx reply sa st) = None
  /\ sent_announcements (db (fst (deleteSentAnnouncement ctx reply sa st)))
     = delete (announcementKeyOf sa) (sent_announcements (db st)).
Proof.
  intros Hans. unfold deleteSentAnnouncement.
  rewrite storage_Exec_answered by exact Hans. simpl. auto.
Qed.

(** Whatever the store answers, a statement for one user's notification
    leaves the rows of every other user as they are. *)
Lemma other_users_rows_untouched (ctx : Context) (reply : storeReply)
    (sn : SN.sentNotification) (st : Store) (u q ty ch v : string) :
  u <> SN.UserID sn ->
  sent_notifications (db (fst (insertSentNotification ctx reply sn st))) !! (u, q, ty, ch, v)
    = sent_notifications (db st) !! (u, q, ty, ch, v)
  /\ sent_notifications (db (fst (deleteSentNotification ctx reply sn st))) !! (u, q, ty, ch, v)
    = sent_notifications (db st) !! (u, q, ty, ch, v).
Proof.
  intros Hu. unfold insertSentNotification, deleteSentNotification, storage_Exec.
  destruct (ctxErr (completesAt reply) ctx); [split; reflexivity |].
  destruct (fault reply); [split; reflexivity |]. simpl. split.
  - destruct (sent_notifications (db st) !! _); simpl; [reflexivity |].
    apply lookup_insert_ne. congruence.
  - apply lookup_delete_ne. congruence.
Qed.

(** C6. Personal notifications are inserted and deleted under a key that
    contains the user id: records for two different users, equal in every
    other column or not, get two rows, deleting one leaves the other, and no
    statement for one user changes a row of another user.
    Announcements are inserted and deleted under a key without a user id:
    a second record with the same uniqueness, type, channel and channel value
    meets the row of the first (the insert is refused as a duplicate and the
    table keeps that single row), and one delete removes it. *)
Theorem ledger_scoping :
  forall (ctx : Context) (r1 r2 r3 : storeReply) (st : Store)
         (sn1 sn2 : SN.sentNotification) (sa1 sa2 : SA.sentAnnouncement),
    answered ctx r1 -> answered ctx r2 -> answered ctx r3 ->
    SN.UserID sn1 <> SN.UserID sn2 ->
    sent_notifications (db st) !! notificationKeyOf sn1 = None ->
    sent_notifications (db st) !! notificationKeyOf sn2 = None ->
    announcementKeyOf sa1 = announcementKeyOf sa2 ->
    sent_announcements (db st) !! announcementKeyOf sa1 = None ->
    let n1 := insertSentNotification ctx r1 sn1 st in
    let n2 := insertSentNotification ctx r2 sn2 (fst n1) in
    let n3 := deleteSentNotification ctx r3 sn1 (fst n2) in
    let a1 := insertSentAnnouncement ctx r1 sa1 st in
    let a2 := insertSentAnnouncement ctx r2 sa2 (fst a1) in
    let a3 := deleteSentAnnouncement ctx r3 sa2 (fst a2) in
    (snd n1 = None /\ snd n2 = None /\ snd n3 = None
     /\ sent_notifications (db (fst n2)) !! notificationKeyOf sn1
        = Some (SN.SentAt sn1, SN.Language sn1)
     /\ sent_notifications (db (fst n2)) !! notificationKeyOf sn2
        = Some (SN.SentAt sn2, SN.Language sn2)
     /\ size (sent_notifications (db (fst n2))) = S (S (size (sent_notifications (db st))))
     /\ sent_notifications (db (fst n3)) !! notificationKeyOf sn1 = None
     /\ sent_notifications (db (fst n3)) !! notificationKeyOf sn2
        = Some (SN.SentAt sn2, SN.Language sn2)
     /\ forall (r : storeReply) (s : Store) (u q ty ch v : string),
          u <> SN.UserID sn1 ->
          sent_notifications (db (fst (insertSentNotification ctx r sn1 s))) !! (u, q, ty, ch, v)
            = sent_notifications (db s) !! (u, q, ty, ch, v)
          /\ sent_notifications (db (fst (deleteSentNotification ctx r sn1 s))) !! (u, q, ty, ch, v)
            = sent_notifications (db s) !! (u, q, ty, ch, v))
    /\ (snd a1 = None
     /\ snd a2 = Some (Wrapped ErrDuplicate "failed to insert sent announcement")
     /\ snd a3 = None
     /\ db (fst a2) = db (fst a1)
     /\ sent_announcements (db (fst a2)) !! announcementKeyOf sa2
        = Some (SA.SentAt sa1, SA.Language sa1)
     /\ size (sent_announcements (db (fst a2))) = S (size (sent_announcements (db st)))
     /\ sent_announcements (db (fst a3)) !! announcementKeyOf sa1 = None
     /\ size (sent_announcements (db (fst a3))) = size (sent_announcements (db st))).
Proof.
  intros ctx r1 r2 r3 st sn1 sn2 sa1 sa2 H1 H2 H3 Huser Hn1 Hn2 Hkey Ha1
         n1 n2 n3 a1 a2 a3.
  assert (Hne : notificationKeyOf sn1 <> notificationKeyOf sn2)
    by (unfold notificationKeyOf; congruence).
  split.
  - destruct (insertSentNotification_answered ctx r1 sn1 st H1 Hn1) as (E1 & T1 & _).
    fold n1 in E1, T1.
    assert (Hn2' : sent_notifications (db (fst n1)) !! notificationKeyOf sn2 = None)
      by (rewrite T1, lookup_insert_ne by exact Hne; exact Hn2).
    destruct (insertSentNotification_answered ctx r2 sn2 (fst n1) H2 Hn2') as (E2 & T2 & _).
    fold n2 in E2, T2.
    destruct (deleteSentNotification_answered ctx r3 sn1 (fst n2) H3) as (E3 & T3 & _).
    fold n3 in E3, T3.
    split_and!; try assumption.
    + rewrite T2, lookup_insert_ne by congruence. rewrite T1. apply lookup_insert_eq.
    + rewrite T2. apply lookup_insert_eq.
    + rewrite T2, map_size_insert_None by exact Hn2'.
      rewrite T1, map_size_insert_None by exact Hn1. reflexivity.
    + rewrite T3. apply lookup_delete_eq.
    + rewrite T3, lookup_delete_ne by exact Hne. rewrite T2. apply lookup_insert_eq.
    + intros r s u q ty ch v Hu. apply other_users_rows_untouched. exact Hu.
  - pose proof (insertSentAnnouncement_answered ctx r1 sa1 st H1) as I1.
    rewrite Ha1 in I1. destruct I1 as (E1 & T1). fold a1 in E1, T1.
    assert (Hrow : sent_announcements (db (fst a1)) !! announcementKeyOf sa2
                   = Some (SA.SentAt sa1, SA.Language sa1))
      by (rewrite T1, <- Hkey; apply lookup_insert_eq).
    pose proof (insertSentAnnouncement_answered ctx r2 sa2 (fst a1) H2) as I2.
    rewrite Hrow in I2. destruct I2 as (E2 & T2). fold a2 in E2, T2.
    destruct (deleteSentAnnouncement_answered ctx r3 sa2 (fst a2) H3) as (E3 & T3).
    fold a3 in E3, T3.
    split_and!; try assumption.
    + rewrite T2. exact Hrow.
    + rewrite T2, T1. apply map_size_insert_None. exact Ha1.
    + rewrite T3, Hkey. apply lookup_delete_eq.
    + rewrite T3, T2, T1, <- Hkey, delete_insert_eq.
      rewrite delete_id by exact Ha1. reflexivity.
Qed.


Lemma ledger_scoping_witness :
  let ctx := Background in
  let r := Samples.promptReply 0 in
  let n2 := insertSentNotification ctx r Samples.forBob
              (fst (insertSentNotification ctx r Samples.forAlice Samples.emptyStore)) in
  let a2 := insertSentAnnouncement ctx r Samples.newsSecond
              (fst (insertSentAnnouncement ctx r Samples.newsFirst Samples.emptyStore)) in
  (answered ctx r
   /\ SN.UserID Samples.forAlice <> SN.UserID Samples.forBob
   /\ announcementKeyOf Samples.newsFirst = announcementKeyOf Samples.newsSecond)
  /\ size (sent_notifications (db (fst n2))) = 2%nat
  /\ size (sent_announcements (db (fst a2))) = 1%nat
  /\ snd a2 = Some (Wrapped ErrDuplicate "failed to insert sent announcement").
Proof.
  intros ctx r n2 a2.
  assert (Hans : answered ctx r) by (split; reflexivity).
  assert (Huser : SN.UserID Samples.forAlice <> SN.UserID Samples.forBob) by discriminate.
  assert (Hkey : announcementKeyOf Samples.newsFirst = announcementKeyOf Samples.newsSecond)
    by reflexivity.
  pose proof (ledger_scoping ctx r r r Samples.emptyStore Samples.forAlice Samples.forBob
                Samples.newsFirst Samples.newsSecond Hans Hans Hans Huser
                (lookup_empty _) (lookup_empty _) Hkey (lookup_empty _))
    as [(_ & _ & _ & _ & _ & Hsize & _) (_ & Hdup & _ & _ & _ & Hsize' & _)].
  split; [split_and!; assumption |]. split_and!.
  - exact Hsize.
  - exact Hsize'.
  - exact Hdup.
Defined.

End LedgerFacts.

(* ------------------------------------------------------------------ *)
(** ** The fan-out *)
(* ------------------------------------------------------------------ *)

Module FanoutFacts.
Import Fanout.

Section Facts.

Context {ARG : Type}.
Variable run : Context -> ARG -> option error.
Variable render : ARG -> string.
Variable sched : nat -> nat.
Variable ctx : Context.
Variable args : list ARG.

Abbreviation sentBy := (Fanout.sentBy run render ctx args).
Abbreviation consistent := (Fanout.consistent run render ctx args).

Lemma consistent_initially :
  consistent {| waiting := seq 0 (length args); errChan := []; started := [] |}.
Proof. split; reflexivity. Qed.

Lemma goroutine_proceeds (g : group) (k ix : nat) :
  consistent g -> waiting g !! k = Some ix ->
  exists g', goroutine run render ctx args (length args) k g = Some g'
             /\ consistent g'
             /\ length (waiting g') = pred (length (waiting g)).
Proof.
  intros [Hperm Hchan] Hk.
  assert (Hin : ix ∈ seq 0 (length args)).
  { rewrite <- Hperm. apply elem_of_app. right. eapply list_elem_of_lookup_2; eauto. }
  apply elem_of_seq in Hin as [_ Hlt]. simpl in Hlt.
  destruct (lookup_lt_is_Some_2 args ix Hlt) as [a Ha].
  assert (Hroom : (length (errChan g) <? length args)%nat = true).
  { apply Nat.ltb_lt. rewrite Hchan, length_map.
    apply Permutation_length in Hperm. rewrite length_app, length_seq in Hperm.
    apply lookup_lt_Some in Hk. lia. }
  exists {| waiting := delete k (waiting g);
            errChan := errChan g ++ [branchResult run render ctx a];
            started := started g ++ [ix] |}.
  split; [unfold goroutine; rewrite Hk, Ha, Hroom; reflexivity |].
  split; [split |]; simpl.
  - rewrite <- Hperm, <- app_assoc. simpl.
    apply Permutation_app_head. symmetry. apply delete_Permutation. exact Hk.
  - rewrite Hchan, map_app. simpl. f_equal. f_equal. unfold sentBy. rewrite Ha. reflexivity.
  - rewrite length_delete by eauto. lia.
Qed.

(** Every goroutine gets to run: once the scheduler has taken as many steps
    as there are goroutines waiting, none is left. *)
Lemma goroutines_all_done (n : nat) :
  forall (i : nat) (g : group),
    consistent g -> (length (waiting g) <= n)%nat ->
    waiting (goroutines run render sched ctx args (length args) n i g) = []
    /\ consistent (goroutines run render sched ctx args (length args) n i g).
Proof.
  induction n as [| n IH]; intros i g Hg Hlen; simpl.
  - split; [| exact Hg]. destruct (waiting g); [reflexivity | simpl in Hlen; lia].
  - destruct (waiting g) as [| w ws] eqn:Hw; [rewrite Hw; auto |].
    assert (Hpos : length (w :: ws) <> 0%nat) by (simpl; lia).
    pose proof (Nat.mod_upper_bound (sched i) (length (w :: ws)) Hpos) as Hk.
    rewrite <- Hw in Hk.
    destruct (lookup_lt_is_Some_2 (waiting g) _ Hk) as [ix Hix].
    destruct (goroutine_proceeds g _ ix Hg Hix) as (g' & Hstep & Hg' & Hlen').
    rewrite <- Hw, Hstep. apply IH; [exact Hg' |].
    rewrite Hlen', Hw. simpl in *. lia.
Qed.

Lemma sentBy_seq :
  omap sentBy (seq 0 (length args)) = branchFailures run render ctx args.
Proof.
  unfold branchFailures, sentBy. clear sched.
  assert (H : forall (l pre : list ARG),
             omap (fun ix => (pre ++ l) !! ix ≫= branchResult run render ctx)
                  (seq (length pre) (length l))
             = omap (branchResult run render ctx) l).
  { induction l as [| a l IH]; intros pre; [reflexivity |]. simpl.
    specialize (IH (pre ++ [a])). rewrite length_app, <- app_assoc in IH. simpl in IH.
    rewrite Nat.add_1_r in IH.
    rewrite list_lookup_middle by reflexivity. simpl.
    destruct (branchResult run render ctx a); [f_equal |]; exact IH. }
  exact (H args []).
Qed.

Lemma Append_sentBy (l : list nat) : Append (map sentBy l) = omap sentBy l.
Proof.
  unfold Append. induction l as [| ix l IH]; [reflexivity |]. simpl. rewrite IH.
  unfold sentBy at 1 3. destruct (args !! ix) as [a |]; [| reflexivity]. simpl.
  unfold branchResult. destruct (run ctx a); reflexivity.
Qed.

(** With a live context the call returns; every index was started exactly
    once and the collected errors are the branch failures, in the order in
    which the goroutines completed. *)
Lemma runConcurrently_returns (now : Z) :
  ctxErr now ctx = None -> args <> [] ->
  exists (collected : list error) (order : list nat),
    runConcurrently run render sched ctx now args
      = Returned (Wrap (ErrorOrNil collected) "at least one execution failed", order)
    /\ order ≡ₚ seq 0 (length args)
    /\ collected ≡ₚ branchFailures run render ctx args.
Proof.
  intros Hlive Hne. unfold runConcurrently. rewrite Hlive.
  destruct (Nat.eqb_spec (length args) 0) as [Hzero | _];
    [apply nil_length_inv in Hzero; contradiction |].
  destruct (goroutines_all_done (length args) 0 _ consistent_initially) as [Hdone [Hperm Hchan]].
  { simpl. rewrite length_seq. lia. }
  rewrite Hdone in *. rewrite app_nil_r in Hperm.
  eexists _, _. split; [reflexivity |]. split; [exact Hperm |].
  rewrite Hchan, Append_sentBy, <- sentBy_seq. apply omap_Permutation. exact Hperm.
Qed.

End Facts.

(** C1. With a live context and a non-empty argument list, the fan-out
    returns after every branch has been started exactly once, whatever the
    other branches return and in whatever order the scheduler runs them.  The
    returned error aggregates exactly the branch failures: each failure, as
    wrapped by its goroutine, is a member, nothing else is, and the result is
    nil exactly when no branch fails. *)
Theorem fanout_collects_every_failure :
  forall (ARG : Type) (run : Context -> ARG -> option error) (render : ARG -> string)
         (sched : nat -> nat) (ctx : Context) (now : Z) (args : list ARG),
    ctxErr now ctx = None -> args <> [] ->
    exists (res : option error) (order : list nat),
      runConcurrently run render sched ctx now args = Returned (res, order)
      /\ order ≡ₚ seq 0 (length args)
      /\ (forall a e, a ∈ args -> run ctx a = Some e ->
            exists agg, res = Some agg
                        /\ Wrapped e ("failed to run:" ++ render a) ∈ exposed agg)
      /\ (forall agg, res = Some agg ->
            exposed agg ≡ₚ branchFailures run render ctx args)
      /\ ((forall a, a ∈ args -> run ctx a = None) <-> res = None).
Proof.
  intros ARG run render sched ctx now args Hlive Hne.
  destruct (runConcurrently_returns run render sched ctx args now Hlive Hne)
    as (collected & order & Hret & Horder & Hcoll).
  exists (Wrap (ErrorOrNil collected) "at least one execution failed"), order.
  split; [exact Hret |]. split; [exact Horder |].
  assert (Hmem : forall a e, a ∈ args -> run ctx a = Some e ->
                   Wrapped e ("failed to run:" ++ render a) ∈ collected).
  { intros a e Ha Hrun. rewrite Hcoll. unfold branchFailures.
    apply list_elem_of_omap. exists a. split; [exact Ha |].
    unfold branchResult. rewrite Hrun. reflexivity. }
  split; [| split; [| split]].
  - intros a e Ha Hrun. specialize (Hmem a e Ha Hrun).
    destruct collected as [| c cs]; [inversion Hmem |].
    eexists. split; [reflexivity | exact Hmem].
  - intros agg Hagg. destruct collected as [| c cs]; [discriminate |].
    simpl in Hagg. injection Hagg as <-. exact Hcoll.
  - intros Hnone. destruct collected as [| c cs]; [reflexivity | exfalso].
    assert (Hc : c ∈ branchFailures run render ctx args) by (rewrite <- Hcoll; left).
    apply list_elem_of_omap in Hc as (a & Ha & Hres).
    unfold branchResult in Hres. rewrite (Hnone a Ha) in Hres. discriminate.
  - intros Hnil a Ha. destruct (run ctx a) as [e |] eqn:Hrun; [| reflexivity].
    specialize (Hmem a e Ha Hrun).
    destruct collected as [| c cs]; [inversion Hmem | discriminate].
Qed.

Lemma fanout_collects_every_failure_witness :
  (ctxErr 0 Background = None /\ [1; 2; 3]%nat <> [])
  /\ exists (res : option error) (order : list nat),
       runConcurrently Samples.oddFails Samples.decimal Samples.strided Background 0
         [1; 2; 3]%nat = Returned (res, order)
       /\ order ≡ₚ [0; 1; 2]%nat
       /\ exists agg, res = Some agg /\ Wrapped (External "odd") "failed to run:n" ∈ exposed agg.
Proof.
  assert (Hlive : ctxErr 0 Background = None) by reflexivity.
  assert (Hne : [1; 2; 3]%nat <> []) by discriminate.
  split; [split; assumption |].
  destruct (fanout_collects_every_failure nat Samples.oddFails Samples.decimal
              Samples.strided Background 0 [1; 2; 3]%nat Hlive Hne)
    as (res & order & Hret & Horder & Hmem & _).
  exists res, order. split; [exact Hret |]. split; [exact Horder |].
  apply (Hmem 3%nat (External "odd")); [| reflexivity].
  apply list_elem_of_In. simpl. auto.
Defined.

(** The same call, evaluated: the goroutines complete in the order 0, 2, 1 and
    both failures are in the aggregate. *)
Example fanout_sample_run :
  runConcurrently Samples.oddFails Samples.decimal Samples.strided Background 0 [1; 2; 3]%nat
  = Returned (Some (Wrapped (MultiError [Wrapped (External "odd") "failed to run:n";
                                         Wrapped (External "odd") "failed to run:n"])
                      "at least one execution failed"),
              [0; 2; 1]%nat).
Proof. vm_compute. reflexivity. Qed.

(** C2. Under a context that has already failed the fan-out returns the
    wrapped context error at once and no branch has been started, whatever
    the arguments and the scheduler. *)
Theorem fanout_failed_context_starts_nothing :
  forall (ARG : Type) (run : Context -> ARG -> option error) (render : ARG -> string)
         (sched : nat -> nat) (ctx : Context) (now : Z) (args : list ARG) (e : error),
    ctxErr now ctx = Some e ->
    runConcurrently run render sched ctx now args
      = Returned (Some (Wrapped e "unexpected deadline"), []).
Proof.
  intros ARG run render sched ctx now args e Herr.
  unfold runConcurrently. rewrite Herr. reflexivity.
Qed.


Lemma fanout_failed_context_starts_nothing_witness :
  ctxErr 0 Samples.cancelledCtx = Some Canceled
  /\ runConcurrently Samples.oddFails Samples.decimal Samples.strided Samples.cancelledCtx 0
       [1; 2; 3]%nat = Returned (Some (Wrapped Canceled "unexpected deadline"), []).
Proof.
  assert (Herr : ctxErr 0 Samples.cancelledCtx = Some Canceled) by reflexivity.
  split; [exact Herr |].
  exact (fanout_failed_context_starts_nothing nat Samples.oddFails Samples.decimal
           Samples.strided Samples.cancelledCtx 0 [1; 2; 3]%nat Canceled Herr).
Defined.

End FanoutFacts.

(* ------------------------------------------------------------------ *)
(** ** The retention sweeper *)
(* ------------------------------------------------------------------ *)

Module SweeperFacts.
Import Ledger Sweeper.


Lemma ctxErr_live_not_cancelled (now : Z) (ctx : Context) :
  ctxErr now ctx = None -> cancelled ctx = false.
Proof. unfold ctxErr. destruct (cancelled ctx); [discriminate | reflexivity]. Qed.

Lemma WithTimeout_live (now d : Z) (parent : Context) :
  0 < d -> ctxErr now parent = None -> ctxErr now (WithTimeout now parent d) = None.
Proof.
  unfold ctxErr, WithTimeout, deadlinePassed, earliest. simpl. intros Hd.
  destruct (cancelled parent); [discriminate |].
  destruct (deadline parent) as [p |].
  - destruct (Z.leb_spec p now); [discriminate |]. intros _.
    destruct (Z.leb_spec (Z.min p (now + d)) now); [lia | reflexivity].
  - intros _. destruct (Z.leb_spec (now + d) now); [lia | reflexivity].
Qed.

Lemma WithTimeout_bounded (now d : Z) (parent : Context) :
  exists t, deadline (WithTimeout now parent d) = Some t /\ t <= now + d.
Proof.
  unfold WithTimeout, earliest. simpl. destruct (deadline parent) as [p |];
    eexists; split; try reflexivity; lia.
Qed.

Lemma WithTimeout_exceeded (now d t : Z) (parent : Context) :
  cancelled parent = false -> now + d <= t ->
  ctxErr t (WithTimeout now parent d) = Some DeadlineExceeded.
Proof.
  unfold ctxErr, WithTimeout, deadlinePassed, earliest. simpl. intros -> Hle.
  destruct (deadline parent) as [p |].
  - destruct (Z.leb_spec (Z.min p (now + d)) t); [reflexivity | lia].
  - destruct (Z.leb_spec (now + d) t); [reflexivity | lia].
Qed.


Lemma startCleaner_unfold (t : table) (ctx : Context) (draw : Z) (st : Store)
    (lg : list error) (evs : list event) :
  startCleaner t ctx draw st lg evs
  = cleanerRun (passOf t) (labelOf t) (cleanerStart ctx draw st lg) evs.
Proof. destruct t; reflexivity. Qed.

Section Loop.

Variable t : table.

Abbreviation step := (cleanerStep (passOf t) (labelOf t)).
Abbreviation run := (cleanerRun (passOf t) (labelOf t)).



(** A pass under a live request context sends exactly one statement, the
    DELETE of its table with the cutoff of the tick. *)
Lemma pass_live_context (ctx : Context) (now : Z) (reply : storeReply) (st : Store) :
  ctxErr now ctx = None ->
  calls (fst (passOf t ctx now reply st))
  = calls st ++ [ExecCall ctx (pruneStatementOf t (retentionCutoff now))].
Proof.
  intros Hlive. destruct t; simpl;
    unfold deleteOldSentNotifications, deleteOldSentAnnouncements, storage_Exec;
    rewrite Hlive;
    destruct (ctxErr (completesAt reply) ctx); simpl; try reflexivity;
    destruct (fault reply); reflexivity.
Qed.

(** A pass whose statement is still running when its context expires is
    aborted: the tables are as before and the deadline error is returned. *)
Lemma pass_deadline_exceeded (ctx : Context) (now : Z) (reply : storeReply) (st : Store) :
  ctxErr now ctx = None ->
  ctxErr (completesAt reply) ctx = Some DeadlineExceeded ->
  db (fst (passOf t ctx now reply st)) = db st
  /\ snd (passOf t ctx now reply st) = Some (Wrapped DeadlineExceeded (pruneFailureOf t)).
Proof.
  intros Hlive Hlate. destruct t; simpl;
    unfold deleteOldSentNotifications, deleteOldSentAnnouncements, storage_Exec;
    rewrite Hlive, Hlate; split; reflexivity.
Qed.





(** The tick case, spelled out for a loop that has not returned. *)
Lemma select_takes_tick (c : cleaner) (now : Z) (pick : bool) (reply : storeReply) :
  returned c = false -> tickPending c = true ->
  ctxErr now (owner c) = None \/ pick = true ->
  step c (Select now pick reply) = tickCase (passOf t) (labelOf t) now reply c.
Proof.
  intros Hret Htick Hcase. simpl. rewrite Hret, Htick.
  destruct (ctxErr now (owner c)); [| reflexivity].
  destruct Hcase as [Hc | ->]; [discriminate | reflexivity].
Qed.





End Loop.


Lemma WithTimeout_live_until (now d t : Z) (parent : Context) :
  ctxErr t parent = None -> t < now + d -> ctxErr t (WithTimeout now parent d) = None.
Proof.
  unfold ctxErr, WithTimeout, deadlinePassed, earliest. simpl.
  destruct (cancelled parent); [discriminate |].
  destruct (deadline parent) as [p |].
  - destruct (Z.leb_spec p t); [discriminate |]. intros _ Hlt.
    destruct (Z.leb_spec (Z.min p (now + d)) t); [lia | reflexivity].
  - intros _ Hlt. destruct (Z.leb_spec (now + d) t); [lia | reflexivity].
Qed.

(** A pass under a live context that the store answers executes its DELETE
    and returns nil. *)
Lemma pass_answered (t : table) (ctx : Context) (now : Z) (reply : storeReply) (st : Store) :
  ctxErr now ctx = None -> answered ctx reply ->
  snd (passOf t ctx now reply st) = None
  /\ db (fst (passOf t ctx now reply st))
     = fst (execStatement (pruneStatementOf t (retentionCutoff now)) (db st)).
Proof.
  intros Hlive Hans. destruct t; simpl;
    unfold deleteOldSentNotifications, deleteOldSentAnnouncements;
    rewrite Hlive, LedgerFacts.storage_Exec_answered by exact Hans; simpl; auto.
Qed.



(** C5 (as amended). Each cleanup pass sends its statement under a request
    context derived at the tick whose deadline is exactly 30 seconds after
    the tick, or the owning context's deadline where that is earlier.  A
    statement the store has not completed by then fails with the deadline
    error, which is logged, while the owning context and the loop are as
    before and the pass of the next tick runs under a fresh deadline of 30
    seconds; a statement the store completes before the deadline is not
    aborted.  The health probe derives no context: every call it makes is
    made under the context its caller passed. *)
Theorem pass_deadline_and_probe_context :
  forall (t : table),
    (forall (c : cleaner) (now : Z) (pick : bool) (reply : storeReply),
       let c' := cleanerStep (passOf t) (labelOf t) c (Select now pick reply) in
       let reqCtx := WithTimeout now (owner c) passDeadline in
       returned c = false -> tickPending c = true -> ctxErr now (owner c) = None ->
       calls (store c')
         = calls (store c) ++ [ExecCall reqCtx (pruneStatementOf t (retentionCutoff now))]
       /\ deadline reqCtx
          = Some (match deadline (owner c) with
                  | None => now + 30 * Second
                  | Some p => Z.min p (now + 30 * Second)
                  end)
       /\ (now + 30 * Second <= completesAt reply ->
             log c' = log c ++ [Wrapped (Wrapped DeadlineExceeded (pruneFailureOf t))
                                  (labelOf t)]
             /\ owner c' = owner c
             /\ returned c' = false
             /\ forall now' pick' reply',
                  ctxErr now' (owner c) = None ->
                  exists sent,
                    calls (store (cleanerRun (passOf t) (labelOf t) c'
                                    [TickFires; Select now' pick' reply']))
                    = calls (store c')
                      ++ [ExecCall sent (pruneStatementOf t (retentionCutoff now'))]
                    /\ deadline sent
                       = Some (match deadline (owner c) with
                               | None => now' + 30 * Second
                               | Some p => Z.min p (now' + 30 * Second)
                               end))
       /\ (completesAt reply < now + 30 * Second ->
           ctxErr (completesAt reply) (owner c) = None -> fault reply = None ->
             snd (passOf t reqCtx now reply (store c)) = None
             /\ log c' = log c
             /\ returned c' = false))
    /\ (forall (env : Health.collaborators) (mb : Health.messageBrokerConfig)
               (ctx : Context) (now : Z) (trace : list call),
          exists made,
            fst (Health.CheckHealth env mb ctx now trace) = trace ++ made
            /\ Forall (fun c => Health.callContext c = ctx) made).
Proof.
  intros t. split.
  - intros c now pick reply c' reqCtx Hret Htick Hlive. subst c'.
    rewrite (select_takes_tick t c now pick reply Hret Htick (or_introl Hlive)).
    assert (Hreq : ctxErr now reqCtx = None)
      by (apply WithTimeout_live; [reflexivity | exact Hlive]).
    split; [| split; [| split]].
    + unfold tickCase. simpl. apply pass_live_context. exact Hreq.
    + unfold reqCtx, WithTimeout, earliest, passDeadline. simpl.
      destruct (deadline (owner c)); reflexivity.
    + intros Hlate.
      assert (Hexp : ctxErr (completesAt reply) reqCtx = Some DeadlineExceeded)
        by (apply WithTimeout_exceeded;
            [eapply ctxErr_live_not_cancelled; eauto | exact Hlate]).
      destruct (pass_deadline_exceeded t reqCtx now reply (store c) Hreq Hexp) as [_ Herr].
      split; [unfold tickCase; simpl; fold reqCtx; rewrite Herr; reflexivity |].
      split; [reflexivity |]. split; [reflexivity |].
      intros now' pick' reply' Hlive'.
      exists (WithTimeout now' (owner c) passDeadline).
      change (cleanerRun (passOf t) (labelOf t) (tickCase (passOf t) (labelOf t) now reply c)
                [TickFires; Select now' pick' reply'])
        with (cleanerStep (passOf t) (labelOf t)
                (cleanerStep (passOf t) (labelOf t)
                   (tickCase (passOf t) (labelOf t) now reply c) TickFires)
                (Select now' pick' reply')).
      simpl. rewrite Hlive'. simpl. split.
      * apply pass_live_context. apply WithTimeout_live; [reflexivity | exact Hlive'].
      * unfold earliest, passDeadline. destruct (deadline (owner c)); reflexivity.
    + intros Hearly Hown Hfault.
      assert (Hans : answered reqCtx reply).
      { split; [| exact Hfault]. apply WithTimeout_live_until; [exact Hown |].
        unfold passDeadline. exact Hearly. }
      destruct (pass_answered t reqCtx now reply (store c) Hreq Hans) as [Hnil _].
      unfold tickCase. simpl. fold reqCtx. rewrite Hnil. auto.
  - intros env mb ctx now trace. unfold Health.CheckHealth.
    destruct (Health.ping env ctx); [| destruct (Health.marshalTS env ctx now);
      [destruct (Health.Topics mb !! 0%nat) |]]; simpl.
    + exists [PingCall ctx]. split; [reflexivity | repeat constructor].
    + exists [PingCall ctx; SendMessageCall ctx (Health.Name t0) (Health.Name t0) s].
      split; [rewrite <- app_assoc; reflexivity | repeat constructor].
    + exists [PingCall ctx]. split; [reflexivity | repeat constructor].
    + exists [PingCall ctx]. split; [reflexivity | repeat constructor].
Qed.

(** A pass at 100h against a store that needs a minute: the statement is
    sent under a context expiring at 100h + 30s and fails with the deadline
    error; against a store that needs a second it returns nil and nothing
    is logged. *)
Lemma pass_deadline_and_probe_context_witness :
  let now := 100 * Hour in
  let c := Samples.tickedCleaner Background in
  let slow := cleanerStep (passOf SentNotifications) (labelOf SentNotifications) c
                (Select now false (Samples.slowReply now)) in
  let quick := cleanerStep (passOf SentNotifications) (labelOf SentNotifications) c
                 (Select now false (Samples.promptReply now)) in
  (returned c = false /\ tickPending c = true /\ ctxErr now (owner c) = None
   /\ now + 30 * Second <= completesAt (Samples.slowReply now)
   /\ completesAt (Samples.promptReply now) < now + 30 * Second
   /\ ctxErr (completesAt (Samples.promptReply now)) (owner c) = None
   /\ fault (Samples.promptReply now) = None)
  /\ returned slow = false
  /\ log slow = [Wrapped (Wrapped DeadlineExceeded
                            "failed to delete old data from sent_notifications")
                   "failed to deleteOldSentNotifications"]
  /\ log quick = [].
Proof.
  intros now c slow quick.
  assert (H1 : returned c = false) by reflexivity.
  assert (H2 : tickPending c = true) by reflexivity.
  assert (H3 : ctxErr now (owner c) = None) by reflexivity.
  assert (H4 : now + 30 * Second <= completesAt (Samples.slowReply now))
    by (vm_compute; discriminate).
  assert (H5 : completesAt (Samples.promptReply now) < now + 30 * Second)
    by (vm_compute; reflexivity).
  assert (H6 : ctxErr (completesAt (Samples.promptReply now)) (owner c) = None)
    by reflexivity.
  assert (H7 : fault (Samples.promptReply now) = None) by reflexivity.
  destruct (pass_deadline_and_probe_context SentNotifications) as [Hpass _].
  destruct (Hpass c now false (Samples.slowReply now) H1 H2 H3) as (_ & _ & Hlate & _).
  destruct (Hlate H4) as (Hlog & _ & Hret & _).
  destruct (Hpass c now false (Samples.promptReply now) H1 H2 H3) as (_ & _ & _ & Hearly).
  destruct (Hearly H5 H6 H7) as (_ & Hlog' & _).
  split; [split_and!; assumption |]. split_and!; assumption.
Defined.

(** C5 (as stated) fails for the health probe: called under the background
    context with collaborators that answer, it succeeds and both of its
    calls are made under a context without any deadline. *)
Lemma health_probe_runs_without_deadline :
  snd (Health.CheckHealth Samples.reachable Samples.oneTopic Background 0 [])
    = Returned None
  /\ map Health.callContext
         (fst (Health.CheckHealth Samples.reachable Samples.oneTopic Background 0 []))
     = [Background; Background]
  /\ deadline Background = None
  /\ ~ (forall (env : Health.collaborators) (mb : Health.messageBrokerConfig)
               (ctx : Context) (now : Z) (c : call),
          c ∈ fst (Health.CheckHealth env mb ctx now []) ->
          exists d, deadline (Health.callContext c) = Some d /\ d <= now + 30 * Second).
Proof.
  split_and!; try reflexivity.
  intros Hbounded.
  destruct (Hbounded Samples.reachable Samples.oneTopic Background 0 (PingCall Background))
    as (d & Hd & _); [left | discriminate].
Qed.

End SweeperFacts.

(* ------------------------------------------------------------------ *)
(** ** The health probe *)
(* ------------------------------------------------------------------ *)

Module HealthFacts.
Import Ledger Health.

(** C8. The probe returns an error when the store ping fails, returns an
    error when the broker does not acknowledge the synthetic message, and
    returns nil exactly when the ping succeeds and the message is built,
    addressed to the first topic and acknowledged by the broker. *)
Theorem health_probe_needs_both_checks :
  forall (env : collaborators) (mb : messageBrokerConfig) (ctx : Context) (now : Z)
         (trace : list call),
    let r := snd (CheckHealth env mb ctx now trace) in
    (forall e, ping env ctx = Some e ->
       r = Returned (Some (Wrapped e "[health-check] failed to ping DB")))
    /\ (forall bytes t e,
         ping env ctx = None -> marshalTS env ctx now = inl bytes ->
         Topics mb !! 0%nat = Some t ->
         sendMessage env ctx (Name t) (Name t) bytes = Some e ->
         r = Returned (Some (Wrapped e
               "[health-check] failed to send health check message to broker")))
    /\ (r = Returned None
        <-> ping env ctx = None
            /\ exists bytes t,
                 marshalTS env ctx now = inl bytes
                 /\ Topics mb !! 0%nat = Some t
                 /\ sendMessage env ctx (Name t) (Name t) bytes = None).
Proof.
  intros env mb ctx now trace r. subst r. unfold CheckHealth. split_and!.
  - intros e ->. reflexivity.
  - intros bytes t e -> -> -> ->. reflexivity.
  - destruct (ping env ctx) as [e |] eqn:Hping; simpl.
    { split; [discriminate | intros [Hp _]; discriminate]. }
    destruct (marshalTS env ctx now) as [bytes | e] eqn:Hm; simpl.
    2: { split; [discriminate | intros (_ & b & t & Hb & _); discriminate]. }
    destruct (Topics mb !! 0%nat) as [t |] eqn:Ht; simpl.
    2: { split; [discriminate | intros (_ & b & t & _ & Hb & _); discriminate]. }
    destruct (sendMessage env ctx (Name t) (Name t) bytes) as [e |] eqn:Hs; simpl.
    + split; [discriminate |]. intros (_ & b & t' & Hb & Ht' & Hs').
      injection Hb as <-. injection Ht' as <-. congruence.
    + split; [| reflexivity]. intros _. split; [reflexivity |]. eauto.
Qed.

Lemma health_probe_needs_both_checks_witness :
  (ping Samples.brokerDown Background = None
   /\ marshalTS Samples.brokerDown Background 0 = inl "{}"%string
   /\ Topics Samples.oneTopic !! 0%nat = Some {| Name := "health-check" |}
   /\ sendMessage Samples.brokerDown Background "health-check" "health-check" "{}"
      = Some (External "broker down"))
  /\ snd (CheckHealth Samples.brokerDown Samples.oneTopic Background 0 [])
     = Returned (Some (Wrapped (External "broker down")
                   "[health-check] failed to send health check message to broker"))
  /\ snd (CheckHealth Samples.reachable Samples.oneTopic Background 0 []) = Returned None.
Proof.
  assert (H1 : ping Samples.brokerDown Background = None) by reflexivity.
  assert (H2 : marshalTS Samples.brokerDown Background 0 = inl "{}"%string) by reflexivity.
  assert (H3 : Topics Samples.oneTopic !! 0%nat = Some {| Name := "health-check" |})
    by reflexivity.
  assert (H4 : sendMessage Samples.brokerDown Background "health-check" "health-check" "{}"
               = Some (External "broker down")) by reflexivity.
  split; [split_and!; assumption |]. split.
  - destruct (health_probe_needs_both_checks Samples.brokerDown Samples.oneTopic
                Background 0 []) as (_ & Hsend & _).
    exact (Hsend _ _ _ H1 H2 H3 H4).
  - destruct (health_probe_needs_both_checks Samples.reachable Samples.oneTopic
                Background 0 []) as (_ & _ & Hiff).
    apply Hiff. split; [reflexivity |].
    exists "{}"%string, {| Name := "health-check" |}. split_and!; reflexivity.
Defined.

End HealthFacts.

(* ------------------------------------------------------------------ *)
(** ** The news read path *)
(* ------------------------------------------------------------------ *)

Module NewsFacts.
Import News.

Section Facts.

Variable storage_Select : Context -> queryArgs -> option (list PersonalNews) + error.
Variable DownloadURL : string -> string.

Lemma visit_returns (createdAfter : option Z) (elem : PersonalNews) :
  dereferencable createdAfter elem ->
  exists item, visit DownloadURL createdAfter elem = Returned item
               /\ ID item = ID elem
               /\ (forall created cutoff,
                     Viewed elem = Some false -> CreatedAt elem = Some created ->
                     createdAfter = Some cutoff -> created < cutoff ->
                     Viewed item = Some true)
               /\ (Viewed elem <> Some false -> Viewed item = Viewed elem)
               /\ (forall created cutoff,
                     CreatedAt elem = Some created -> createdAfter = Some cutoff ->
                     cutoff <= created -> Viewed item = Viewed elem).
Proof.
  intros Hok. unfold visit, dereferencable in *.
  destruct (Viewed elem) as [[|] |] eqn:Hv.
  - eexists. split; [reflexivity |]. simpl. split_and!; auto; discriminate.
  - destruct (Hok eq_refl) as [[created Hc] [cutoff Ha]]. rewrite Hc, Ha.
    destruct (Z.ltb_spec created cutoff); eexists; (split; [reflexivity |]); simpl;
      split_and!; auto; try congruence.
    + intros c k Hc' Hk Hle. injection Hc' as <-. injection Hk as <-. lia.
    + intros c k _ Hc' Hk Hlt. injection Hc' as <-. injection Hk as <-. lia.
  - eexists. split; [reflexivity |]. simpl. split_and!; auto; discriminate.
Qed.

Lemma visitAll_returns (createdAfter : option Z) (rows : list PersonalNews) :
  Forall (dereferencable createdAfter) rows ->
  exists items, visitAll DownloadURL createdAfter rows = Returned items
                /\ Forall2 (fun elem item => visit DownloadURL createdAfter elem = Returned item)
                     rows items.
Proof.
  induction rows as [| elem rows IH]; intros Hok.
  - exists []. split; [reflexivity | constructor].
  - apply Forall_cons in Hok as [Hhd Htl].
    destruct (visit_returns createdAfter elem Hhd) as (item & Hitem & _).
    destruct (IH Htl) as (items & Hitems & Hall).
    exists (item :: items). simpl. rewrite Hitem, Hitems.
    split; [reflexivity | constructor; assumption].
Qed.

Lemma visit_returned_inv (createdAfter : option Z) (elem item : PersonalNews) :
  visit DownloadURL createdAfter elem = Returned item -> dereferencable createdAfter elem.
Proof.
  unfold visit, dereferencable. intros Hvisit Hv. rewrite Hv in Hvisit.
  destruct (CreatedAt elem), createdAfter; try discriminate. split; eexists; reflexivity.
Qed.

Lemma visitAll_returned_inv (createdAfter : option Z) (rows : list PersonalNews) :
  forall items, visitAll DownloadURL createdAfter rows = Returned items ->
                Forall (dereferencable createdAfter) rows.
Proof.
  induction rows as [| elem rows IH]; intros items Hall; [constructor |].
  simpl in Hall.
  destruct (visit DownloadURL createdAfter elem) as [item | |] eqn:Hvisit; try discriminate.
  destruct (visitAll DownloadURL createdAfter rows) as [rest | |] eqn:Hrest; try discriminate.
  constructor; [eapply visit_returned_inv; eauto | eapply IH; eauto].
Qed.

End Facts.

(** C10. Whenever [GetNews] returns items, it returns one per row of the
    store, in order and without error; an item whose row is not viewed
    (Viewed present and false) and was created strictly before the cutoff
    reports Viewed as true, and every other item reports the Viewed of its
    row.  It does return whenever the context is live and no nil pointer is
    dereferenced on a row.  When the store yields no rows, as a nil or as an
    empty slice, the result is an empty non-nil list and no error. *)
Theorem get_news_marks_older_items_viewed :
  forall (storage_Select : Context -> queryArgs -> option (list PersonalNews) + error)
         (DownloadURL : string -> string)
         (ctx : Context) (now : Z) (newsType language : string) (limit offset : Z)
         (createdAfter : option Z) (rows : option (list PersonalNews)),
    ctxErr now ctx = None ->
    storage_Select ctx {| argUserID := requestingUserID ctx; argLanguage := language;
                          argType := newsType; argLimit := int64OfUint64 limit;
                          argOffset := int64OfUint64 offset |} = inl rows ->
    let result := GetNews storage_Select DownloadURL ctx now newsType language limit offset
                    createdAfter in
    (forall items err,
       result = Returned (Some items, err) ->
       err = None
       /\ length items = length (default [] rows)
       /\ forall i row, default [] rows !! i = Some row ->
            exists item,
              items !! i = Some item
              /\ ID item = ID row
              /\ (forall created cutoff,
                    Viewed row = Some false -> CreatedAt row = Some created ->
                    createdAfter = Some cutoff -> created < cutoff ->
                    Viewed item = Some true)
              /\ (Viewed row <> Some false -> Viewed item = Viewed row)
              /\ (forall created cutoff,
                    CreatedAt row = Some created -> createdAfter = Some cutoff ->
                    cutoff <= created -> Viewed item = Viewed row))
    /\ (Forall (dereferencable createdAfter) (default [] rows) ->
        exists items, result = Returned (Some items, None))
    /\ (default [] rows = [] -> result = Returned (Some [], None)).
Proof.
  intros storage_Select DownloadURL ctx now newsType language limit offset createdAfter
         rows Hlive Hsel result.
  subst result. unfold GetNews. rewrite Hlive, Hsel. split_and!.
  - intros items err Hres. destruct rows as [rows |]; simpl in *.
    + destruct (visitAll DownloadURL createdAfter rows) as [items' | |] eqn:Hitems;
        try discriminate.
      injection Hres as <- <-.
      pose proof (visitAll_returned_inv DownloadURL createdAfter rows _ Hitems) as Hok.
      destruct (visitAll_returns DownloadURL createdAfter rows Hok) as (items & Hitems' & Hall).
      rewrite Hitems in Hitems'. injection Hitems' as <-.
      split; [reflexivity |]. split; [symmetry; eapply Forall2_length; eauto |].
      intros i row Hrow.
      destruct (Forall2_lookup_l _ _ _ _ _ Hall Hrow) as (item & Hitem & Hvisit).
      exists item. split; [exact Hitem |].
      rewrite Forall_lookup in Hok.
      destruct (visit_returns DownloadURL createdAfter row (Hok i row Hrow))
        as (item' & Hvisit' & Hprops).
      rewrite Hvisit in Hvisit'. injection Hvisit' as <-. exact Hprops.
    + injection Hres as <- <-. split; [reflexivity |]. split; [reflexivity |].
      intros i row Hrow. rewrite lookup_nil in Hrow. discriminate.
  - intros Hok. destruct rows as [rows |]; simpl in *; [| eauto].
    destruct (visitAll_returns DownloadURL createdAfter rows Hok) as (items & Hitems & _).
    rewrite Hitems. eauto.
  - destruct rows as [rows |]; simpl; [intros ->; reflexivity | reflexivity].
Qed.

Lemma get_news_marks_older_items_viewed_witness :
  let result := GetNews Samples.threeRows Samples.cdn Background 0 "regular" "en" 10 0
                  (Some 50) in
  (ctxErr 0 Background = None
   /\ Forall (dereferencable (Some 50)) [Samples.unseenOld; Samples.unseenNew; Samples.seen])
  /\ exists items,
       result = Returned (Some items, None)
       /\ Viewed <$> items = [Some true; Some false; Some true].
Proof.
  intros result.
  assert (Hlive : ctxErr 0 Background = None) by reflexivity.
  assert (Hok : Forall (dereferencable (Some 50))
                  [Samples.unseenOld; Samples.unseenNew; Samples.seen])
    by (repeat (constructor; [intros _; split; eexists; reflexivity |]); constructor).
  split; [split; assumption |].
  destruct (get_news_marks_older_items_viewed Samples.threeRows Samples.cdn Background 0
              "regular" "en" 10 0 (Some 50)
              (Some [Samples.unseenOld; Samples.unseenNew; Samples.seen])
              Hlive eq_refl) as (_ & Hreturns & _).
  destruct (Hreturns Hok) as (items & Hres).
  exists items. split; [exact Hres |].
  subst result. vm_compute in Hres. injection Hres as <-. reflexivity.
Defined.

End NewsFacts.

(* ------------------------------------------------------------------ *)
(** ** Shutdown *)
(* ------------------------------------------------------------------ *)

Module ShutdownFacts.
Import Shutdown.

Lemma Append_app (xs ys : list (option error)) : Append (xs ++ ys) = Append xs ++ Append ys.
Proof. unfold Append. apply flat_map_app. Qed.

Lemma appendOne_Wrap (r : option error) (msg : string) :
  appendOne (Wrap r msg) = match r with Some e => [Wrapped e msg] | None => [] end.
Proof. destruct r; reflexivity. Qed.

Lemma closeOthers_spec (os : list (option error)) :
  forall (i : nat) (errs : list (option error)) (closed : list closer),
    Append (fst (closeOthers i os errs closed)) = Append errs ++ Append os
    /\ snd (closeOthers i os errs closed) = closed ++ map OtherCloser (seq i (length os)).
Proof.
  induction os as [| o os IH]; intros i errs closed; simpl.
  - rewrite !app_nil_r. auto.
  - destruct (IH (S i) (match o with Some e => errs ++ [Some e] | None => errs end)
                (closed ++ [OtherCloser i])) as [Herrs Hclosed].
    rewrite Herrs, Hclosed, <- app_assoc. split; [| reflexivity].
    change (Append (o :: os)) with (appendOne o ++ Append os).
    destruct o as [e |]; [| reflexivity].
    rewrite Append_app, <- app_assoc. f_equal. f_equal.
    unfold Append. simpl. apply app_nil_r.
Qed.


Lemma exposed_ErrorOrNil (collected : list error) (msg : string) (agg : error) :
  Wrap (ErrorOrNil collected) msg = Some agg -> exposed agg = collected /\ collected <> [].
Proof.
  destruct collected as [| c cs]; [discriminate |]. simpl. intros H.
  injection H as <-. split; [reflexivity | discriminate].
Qed.

(** The collected errors of [closeAll], in the order of the calls. *)
Lemma closeAll_collected (c p d : option error) (os : list (option error)) :
  snd (closeAll c p d os)
  = Wrap (ErrorOrNil
            (Append [Wrap c "closing message broker consumer connection failed";
                     Wrap d "closing db connection failed";
                     Wrap p "closing message broker producer connection failed"]
             ++ Append os)) "failed to close resources".
Proof.
  unfold closeAll. simpl.
  destruct (closeOthers_spec os 0
              [Wrap c "closing message broker consumer connection failed";
               Wrap d "closing db connection failed";
               Wrap p "closing message broker producer connection failed"]
              [MessageBrokerConsumer; Database; MessageBrokerProducer]) as [-> _].
  reflexivity.
Qed.

(** X1. [closeAll] calls every closer, in the order consumer, database,
    producer, then the others, whatever the earlier ones return.  Each
    failure of the three connections is a member of the returned aggregate,
    wrapped with its own message; a failure of another closer is a member as
    it is (unless it is itself an aggregate, which is spliced in); the
    members are in the order of the calls. *)
Theorem closeAll_closes_everything_and_reports :
  forall (c p d : option error) (os : list (option error)),
    let r := closeAll c p d os in
    fst r = [MessageBrokerConsumer; Database; MessageBrokerProducer]
            ++ map OtherCloser (seq 0 (length os))
    /\ (forall e, c = Some e -> exists agg, snd r = Some agg
           /\ Wrapped e "closing message broker consumer connection failed" ∈ exposed agg)
    /\ (forall e, d = Some e -> exists agg, snd r = Some agg
           /\ Wrapped e "closing db connection failed" ∈ exposed agg)
    /\ (forall e, p = Some e -> exists agg, snd r = Some agg
           /\ Wrapped e "closing message broker producer connection failed" ∈ exposed agg)
    /\ (forall e, Some e ∈ os -> (forall es, e <> MultiError es) ->
           exists agg, snd r = Some agg /\ e ∈ exposed agg)
    /\ (forall e es, Some (MultiError es) ∈ os -> e ∈ es ->
           exists agg, snd r = Some agg /\ e ∈ exposed agg)
    /\ (forall agg, snd r = Some agg ->
           exposed agg
           = Append [Wrap c "closing message broker consumer connection failed";
                     Wrap d "closing db connection failed";
                     Wrap p "closing message broker producer connection failed"]
             ++ Append os).
Proof.
  intros c p d os r. subst r.
  assert (Hin : forall e, e ∈ Append [Wrap c "closing message broker consumer connection failed";
                                       Wrap d "closing db connection failed";
                                       Wrap p "closing message broker producer connection failed"]
                               ++ Append os ->
                exists agg, snd (closeAll c p d os) = Some agg /\ e ∈ exposed agg).
  { intros e He. rewrite closeAll_collected.
    destruct (Append _ ++ Append os) as [| x xs] eqn:E; [inversion He |].
    eexists. split; [reflexivity | exact He]. }
  assert (Hos : forall o e, o ∈ os -> e ∈ appendOne o -> e ∈ Append os).
  { intros o e Ho He. unfold Append. apply list_elem_of_In, in_flat_map.
    exists o. split; apply list_elem_of_In; assumption. }
  split_and!.
  - unfold closeAll. simpl. destruct (closeOthers_spec os 0
      [Wrap c "closing message broker consumer connection failed";
       Wrap d "closing db connection failed";
       Wrap p "closing message broker producer connection failed"]
      [MessageBrokerConsumer; Database; MessageBrokerProducer]) as [_ ->]. reflexivity.
  - intros e ->. apply Hin. apply elem_of_app. left. simpl. left.
  - intros e ->. apply Hin. apply elem_of_app. left. unfold Append. simpl.
    rewrite appendOne_Wrap. apply elem_of_app. right. left.
  - intros e ->. apply Hin. apply elem_of_app. left. unfold Append. simpl.
    rewrite !appendOne_Wrap. apply elem_of_app. right. apply elem_of_app. right. left.
  - intros e He Hnot. apply Hin. apply elem_of_app. right. apply (Hos (Some e)); [exact He |].
    destruct e; simpl; try left. exfalso. eapply Hnot. reflexivity.
  - intros e es Hes He. apply Hin. apply elem_of_app. right.
    apply (Hos (Some (MultiError es))); assumption.
  - intros agg Hagg. rewrite closeAll_collected in Hagg.
    apply exposed_ErrorOrNil in Hagg as [Hagg _]. exact Hagg.
Qed.

Lemma closeAll_closes_everything_and_reports_witness :
  let r := closeAll None None (Some (External "db busy"))
             [None; Some (External "push client")] in
  (Some (External "db busy") = Some (External "db busy")
   /\ Some (External "push client") ∈ [None; Some (External "push client")])
  /\ fst r = [MessageBrokerConsumer; Database; MessageBrokerProducer;
              OtherCloser 0; OtherCloser 1]
  /\ exists agg, snd r = Some agg
       /\ Wrapped (External "db busy") "closing db connection failed" ∈ exposed agg.
Proof.
  intros r.
  assert (H1 : Some (External "db busy") = Some (External "db busy")) by reflexivity.
  assert (H2 : Some (External "push client") ∈ [None; Some (External "push client")])
    by (right; left).
  destruct (closeAll_closes_everything_and_reports None None (Some (External "db busy"))
              [None; Some (External "push client")]) as (Hcalls & _ & Hdb & _).
  split; [split; assumption |]. split; [exact Hcalls |]. exact (Hdb _ H1).
Defined.



End ShutdownFacts.

(* ------------------------------------------------------------------ *)
(** ** Concurrent execution of functions, and more on the fan-out *)
(* ------------------------------------------------------------------ *)

Module ExecuteFacts.
Import Fanout Execute.

Lemma list_ascii_of_string_append (s t : string) :
  list_ascii_of_string (s ++ t) = list_ascii_of_string s ++ list_ascii_of_string t.
Proof. induction s as [| a s IH]; [reflexivity |]. simpl. rewrite IH. reflexivity. Qed.

Lemma append_inv_tail (t s1 s2 : string) : (s1 ++ t = s2 ++ t)%string -> s1 = s2.
Proof.
  intros H. apply (f_equal list_ascii_of_string) in H.
  rewrite !list_ascii_of_string_append in H. apply app_inv_tail in H.
  apply (f_equal string_of_list_ascii) in H.
  rewrite !string_of_list_ascii_of_string in H. exact H.
Qed.

(** The message of a failure determines the index of the function. *)
Lemma index_message_inj (i j : nat) :
  ("failed to run func with index [" ++ pretty i ++ "]")%string
  = ("failed to run func with index [" ++ pretty j ++ "]")%string -> i = j.
Proof.
  intros H. apply String.app_inj in H. apply append_inv_tail in H.
  apply (inj pretty) in H. exact H.
Qed.

Section Facts.

Variable sched : nat -> nat.
Variable fs : list (unit -> option error).

Lemma funcs_consistent_initially :
  funcsConsistent fs {| waiting := seq 0 (length fs); errChan := []; started := [] |}.
Proof. split; reflexivity. Qed.

Lemma worker_proceeds (g : group) (k ix : nat) :
  funcsConsistent fs g -> waiting g !! k = Some ix ->
  exists g', worker fs (length fs) k g = Some g'
             /\ funcsConsistent fs g'
             /\ length (waiting g') = pred (length (waiting g)).
Proof.
  intros [Hperm Hchan] Hk.
  assert (Hin : ix ∈ seq 0 (length fs)).
  { rewrite <- Hperm. apply elem_of_app. right. eapply list_elem_of_lookup_2; eauto. }
  apply elem_of_seq in Hin as [_ Hlt]. simpl in Hlt.
  destruct (lookup_lt_is_Some_2 fs ix Hlt) as [f Hf].
  assert (Hroom : (length (errChan g) <? length fs)%nat = true).
  { apply Nat.ltb_lt. rewrite Hchan, length_map.
    apply Permutation_length in Hperm. rewrite length_app, length_seq in Hperm.
    apply lookup_lt_Some in Hk. lia. }
  exists {| waiting := delete k (waiting g);
            errChan := errChan g ++ [funcResult f ix];
            started := started g ++ [ix] |}.
  split; [unfold worker; rewrite Hk, Hf, Hroom; reflexivity |].
  split; [split |]; simpl.
  - rewrite <- Hperm, <- app_assoc. simpl.
    apply Permutation_app_head. symmetry. apply delete_Permutation. exact Hk.
  - rewrite Hchan, map_app. simpl. f_equal. f_equal. unfold funcSentBy.
    rewrite Hf. reflexivity.
  - rewrite length_delete by eauto. lia.
Qed.

Lemma workers_all_done (n : nat) :
  forall (i : nat) (g : group),
    funcsConsistent fs g -> (length (waiting g) <= n)%nat ->
    waiting (workers sched fs (length fs) n i g) = []
    /\ funcsConsistent fs (workers sched fs (length fs) n i g).
Proof.
  induction n as [| n IH]; intros i g Hg Hlen; simpl.
  - split; [| exact Hg]. destruct (waiting g); [reflexivity | simpl in Hlen; lia].
  - destruct (waiting g) as [| w ws] eqn:Hw; [rewrite Hw; auto |].
    assert (Hpos : length (w :: ws) <> 0%nat) by (simpl; lia).
    pose proof (Nat.mod_upper_bound (sched i) (length (w :: ws)) Hpos) as Hk.
    rewrite <- Hw in Hk.
    destruct (lookup_lt_is_Some_2 (waiting g) _ Hk) as [ix Hix].
    destruct (worker_proceeds g _ ix Hg Hix) as (g' & Hstep & Hg' & Hlen').
    rewrite <- Hw, Hstep. apply IH; [exact Hg' |].
    rewrite Hlen', Hw. simpl in *. lia.
Qed.

Lemma Append_funcSentBy (l : list nat) :
  Append (map (funcSentBy fs) l) = omap (funcSentBy fs) l.
Proof.
  unfold Append. induction l as [| ix l IH]; [reflexivity |]. simpl. rewrite IH.
  unfold funcSentBy at 1 3. destruct (fs !! ix) as [f |]; [| reflexivity]. simpl.
  unfold funcResult. destruct (f tt); reflexivity.
Qed.

Lemma executeConcurrently_returns :
  exists (collected : list error) (order : list nat),
    executeConcurrently sched fs
      = Returned (Wrap (ErrorOrNil collected) "at least one execution failed", order)
    /\ order ≡ₚ seq 0 (length fs)
    /\ collected ≡ₚ funcFailures fs.
Proof.
  unfold executeConcurrently.
  destruct (Nat.eqb_spec (length fs) 0) as [Hzero | _].
  - exists [], []. unfold funcFailures. rewrite Hzero. auto.
  - destruct (workers_all_done (length fs) 0 _ funcs_consistent_initially)
      as [Hdone [Hperm Hchan]].
    { simpl. rewrite length_seq. lia. }
    rewrite Hdone in *. rewrite app_nil_r in Hperm.
    eexists _, _. split; [reflexivity |]. split; [exact Hperm |].
    rewrite Hchan, Append_funcSentBy. unfold funcFailures.
    apply omap_Permutation. exact Hperm.
Qed.

Lemma funcFailures_member (e : error) (msg : string) :
  Wrapped e msg ∈ funcFailures fs
  <-> exists ix f, fs !! ix = Some f /\ f tt = Some e
                   /\ msg = ("failed to run func with index [" ++ pretty ix ++ "]")%string.
Proof.
  unfold funcFailures. rewrite list_elem_of_omap. split.
  - intros (ix & _ & Hsent). unfold funcSentBy in Hsent.
    destruct (fs !! ix) as [f |] eqn:Hf; [| discriminate]. simpl in Hsent.
    unfold funcResult in Hsent. destruct (f tt) as [e' |] eqn:He; [| discriminate].
    simpl in Hsent. injection Hsent as <- <-. eauto.
  - intros (ix & f & Hf & He & ->). exists ix. split.
    + apply elem_of_seq. apply lookup_lt_Some in Hf. lia.
    + unfold funcSentBy. rewrite Hf. simpl. unfold funcResult. rewrite He. reflexivity.
Qed.

End Facts.

(** X3. [executeConcurrently] has no context guard: for every list of
    functions and every scheduler it returns after each function has been
    called exactly once; the aggregate's members are exactly the wrapped
    failures, and the result is nil exactly when no function fails (so also
    for the empty list). *)
Theorem executeConcurrently_calls_all_and_aggregates :
  forall (sched : nat -> nat) (fs : list (unit -> option error)),
    exists (res : option error) (order : list nat),
      executeConcurrently sched fs = Returned (res, order)
      /\ order ≡ₚ seq 0 (length fs)
      /\ (forall agg, res = Some agg -> exposed agg ≡ₚ funcFailures fs)
      /\ (res = None <-> forall f, f ∈ fs -> f tt = None).
Proof.
  intros sched fs.
  destruct (executeConcurrently_returns sched fs) as (collected & order & Hret & Horder & Hcoll).
  exists (Wrap (ErrorOrNil collected) "at least one execution failed"), order.
  split; [exact Hret |]. split; [exact Horder |]. split.
  - intros agg Hagg. destruct collected as [| c cs]; [discriminate |].
    simpl in Hagg. injection Hagg as <-. exact Hcoll.
  - split.
    + intros Hnil f Hf. destruct (f tt) as [e |] eqn:He; [exfalso | reflexivity].
      apply list_elem_of_lookup in Hf as [ix Hix].
      assert (Hin : Wrapped e ("failed to run func with index [" ++ pretty ix ++ "]")
                      ∈ collected)
        by (rewrite Hcoll; apply funcFailures_member; eauto).
      destruct collected; [inversion Hin | discriminate].
    + intros Hnone. destruct collected as [| c cs]; [reflexivity | exfalso].
      assert (Hc : c ∈ funcFailures fs) by (rewrite <- Hcoll; left).
      unfold funcFailures in Hc. apply list_elem_of_omap in Hc as (ix & _ & Hsent).
      unfold funcSentBy in Hsent. destruct (fs !! ix) as [f |] eqn:Hf; [| discriminate].
      simpl in Hsent. unfold funcResult in Hsent.
      rewrite (Hnone f) in Hsent by (eapply list_elem_of_lookup_2; eauto). discriminate.
Qed.

Lemma executeConcurrently_calls_all_and_aggregates_witness :
  let fs := [MoreSamples.succeeds; MoreSamples.failsWith "disk"; MoreSamples.succeeds] in
  exists (res : option error) (order : list nat),
    executeConcurrently Samples.strided fs = Returned (res, order)
    /\ order ≡ₚ [0; 1; 2]%nat /\ res <> None.
Proof.
  intros fs.
  destruct (executeConcurrently_calls_all_and_aggregates Samples.strided fs)
    as (res & order & Hret & Horder & _ & Hnil).
  exists res, order. split; [exact Hret |]. split; [exact Horder |].
  intros Hres. pose proof (proj1 Hnil Hres) as Hall.
  specialize (Hall (MoreSamples.failsWith "disk") ltac:(right; left)). discriminate.
Defined.

(** X4. Every member of the aggregate of [executeConcurrently] names the
    index of the function that failed: the error [e] wrapped with the message
    for index [ix] is a member exactly when [fs[ix]] returned [e]. *)
Theorem executeConcurrently_failure_names_its_index :
  forall (sched : nat -> nat) (fs : list (unit -> option error)) (res : option error)
         (order : list nat) (agg : error) (ix : nat) (e : error),
    executeConcurrently sched fs = Returned (res, order) ->
    res = Some agg ->
    (Wrapped e ("failed to run func with index [" ++ pretty ix ++ "]") ∈ exposed agg
     <-> exists f, fs !! ix = Some f /\ f tt = Some e).
Proof.
  intros sched fs res order agg ix e Hret Hres.
  destruct (executeConcurrently_returns sched fs) as (collected & order' & Hret' & _ & Hcoll).
  rewrite Hret in Hret'. injection Hret' as Hres' _. subst res.
  destruct collected as [| c cs]; [discriminate |]. simpl in Hres'. injection Hres' as ->.
  simpl. rewrite Hcoll, funcFailures_member. split.
  - intros (jx & f & Hf & He & Hmsg). apply index_message_inj in Hmsg. subst jx. eauto.
  - intros (f & Hf & He). eauto.
Qed.

Lemma executeConcurrently_failure_names_its_index_witness :
  let fs := [MoreSamples.succeeds; MoreSamples.failsWith "disk"; MoreSamples.succeeds] in
  let agg := Wrapped (MultiError [Wrapped (External "disk")
                                    "failed to run func with index [1]"])
               "at least one execution failed" in
  (executeConcurrently Samples.strided fs = Returned (Some agg, [0; 2; 1]%nat)
   /\ Some agg = Some agg)
  /\ exists f, fs !! 1%nat = Some f /\ f tt = Some (External "disk").
Proof.
  intros fs agg.
  assert (H1 : executeConcurrently Samples.strided fs = Returned (Some agg, [0; 2; 1]%nat))
    by (vm_compute; reflexivity).
  split; [split; [exact H1 | reflexivity] |].
  apply (executeConcurrently_failure_names_its_index Samples.strided fs (Some agg)
           [0; 2; 1]%nat agg 1%nat (External "disk") H1 eq_refl).
  simpl. left.
Defined.

End ExecuteFacts.

Module FanoutMore.
Import Fanout.

Section Progress.

Context {ARG : Type}.
Variable run : Context -> ARG -> option error.
Variable render : ARG -> string.
Variable sched : nat -> nat.
Variable ctx : Context.
Variable args : list ARG.

Lemma goroutines_progress (n : nat) :
  forall (i : nat) (g : group),
    consistent run render ctx args g -> (n <= length (waiting g))%nat ->
    length (waiting (goroutines run render sched ctx args (length args) n i g))
      = (length (waiting g) - n)%nat
    /\ consistent run render ctx args
         (goroutines run render sched ctx args (length args) n i g).
Proof.
  induction n as [| n IH]; intros i g Hg Hlen; simpl.
  - split; [lia | exact Hg].
  - destruct (waiting g) as [| w ws] eqn:Hw; [simpl in Hlen; lia |].
    assert (Hpos : length (w :: ws) <> 0%nat) by (simpl; lia).
    pose proof (Nat.mod_upper_bound (sched i) (length (w :: ws)) Hpos) as Hk.
    rewrite <- Hw in Hk.
    destruct (lookup_lt_is_Some_2 (waiting g) _ Hk) as [ix Hix].
    destruct (FanoutFacts.goroutine_proceeds run render ctx args g _ ix Hg Hix)
      as (g' & Hstep & Hg' & Hlen').
    rewrite <- Hw, Hstep.
    destruct (IH (S i) g' Hg') as [Hcount Hcons].
    { rewrite Hlen', Hw. simpl in *. lia. }
    split; [| exact Hcons]. rewrite Hcount, Hlen', Hw. simpl. lia.
Qed.

End Progress.

(** X5. After any number [n] of scheduler steps up to the number of
    arguments, exactly [n] branches have been started, no branch twice, [n]
    results are in the error channel, which therefore never exceeds its
    capacity [len(args)], and [len(args) - n] goroutines still wait. *)
Theorem fanout_progress_invariant :
  forall (ARG : Type) (run : Context -> ARG -> option error) (render : ARG -> string)
         (sched : nat -> nat) (ctx : Context) (args : list ARG) (n : nat),
    (n <= length args)%nat ->
    let g := goroutines run render sched ctx args (length args) n 0
               {| waiting := seq 0 (length args); errChan := []; started := [] |} in
    length (started g) = n
    /\ NoDup (started g)
    /\ length (errChan g) = n
    /\ (length (errChan g) <= length args)%nat
    /\ length (waiting g) = (length args - n)%nat
    /\ (forall ix, ix ∈ started g -> ix ∉ waiting g).
Proof.
  intros ARG run render sched ctx args n Hn g.
  destruct (goroutines_progress run render sched ctx args n 0
              {| waiting := seq 0 (length args); errChan := []; started := [] |}
              (FanoutFacts.consistent_initially run render ctx args)) as [Hcount [Hperm Hchan]].
  { simpl. rewrite length_seq. exact Hn. }
  fold g in Hcount, Hperm, Hchan. simpl in Hcount. rewrite length_seq in Hcount.
  assert (Hlen : (length (started g) + length (waiting g) = length args)%nat).
  { apply Permutation_length in Hperm. rewrite length_app, length_seq in Hperm. exact Hperm. }
  assert (Hnodup : NoDup (started g ++ waiting g)) by (rewrite Hperm; apply NoDup_seq).
  apply NoDup_app in Hnodup as (Hnd & Hdisj & _).
  split_and!; try assumption; try lia.
  - rewrite Hchan, length_map. lia.
  - rewrite Hchan, length_map. lia.
Qed.

Lemma fanout_progress_invariant_witness :
  let g := goroutines Samples.oddFails Samples.decimal Samples.strided Background
             [1; 2; 3]%nat 3 2 0
             {| waiting := seq 0 3; errChan := []; started := [] |} in
  (2 <= length [1; 2; 3]%nat)%nat
  /\ length (started g) = 2%nat /\ length (waiting g) = 1%nat.
Proof.
  intros g.
  assert (H : (2 <= length [1; 2; 3]%nat)%nat) by (simpl; lia).
  destruct (fanout_progress_invariant nat Samples.oddFails Samples.decimal Samples.strided
              Background [1; 2; 3]%nat 2 H) as (Hs & _ & _ & _ & Hw & _).
  split; [exact H |]. split; [exact Hs | exact Hw].
Defined.



End FanoutMore.

(* ------------------------------------------------------------------ *)
(** ** More on the ledger *)
(* ------------------------------------------------------------------ *)

Module LedgerMore.
Import Ledger.

Lemma DB_eq (d1 d2 : DB) :
  sent_notifications d1 = sent_notifications d2 ->
  sent_announcements d1 = sent_announcements d2 -> d1 = d2.
Proof. destruct d1, d2. simpl. intros -> ->. reflexivity. Qed.

(** What [storage.Exec] does to the tables: the statement's effect when the
    store answers, nothing otherwise. *)
Lemma storage_Exec_db (ctx : Context) (reply : storeReply) (stmt : statement) (st : Store) :
  db (fst (storage_Exec ctx reply stmt st)) = fst (execStatement stmt (db st))
  \/ db (fst (storage_Exec ctx reply stmt st)) = db st.
Proof.
  unfold storage_Exec. destruct (ctxErr (completesAt reply) ctx); [right; reflexivity |].
  destruct (fault reply); [right; reflexivity | left; reflexivity].
Qed.

Lemma storage_Exec_unanswered (ctx : Context) (reply : storeReply) (stmt : statement)
    (st : Store) :
  ~ answered ctx reply ->
  db (fst (storage_Exec ctx reply stmt st)) = db st
  /\ exists e, snd (storage_Exec ctx reply stmt st) = inr e.
Proof.
  unfold answered, storage_Exec. intros Hno.
  destruct (ctxErr (completesAt reply) ctx) as [e |]; [eauto |].
  destruct (fault reply) as [e |]; [eauto |]. exfalso. auto.
Qed.

Section Tables.

Context {K : Type} `{Countable K}.

Lemma keepRecent_compose (c1 c2 : Z) (t : gmap K rowData) :
  c1 <= c2 -> keepRecent c2 (keepRecent c1 t) = keepRecent c2 t.
Proof.
  intros Hle. apply map_eq. intros k. apply option_eq. intros row.
  rewrite !LedgerFacts.lookup_keepRecent. split; [tauto |]. intros [Hk Hc]. split_and!; auto. lia.
Qed.

Lemma keepRecent_subseteq (c : Z) (t : gmap K rowData) : keepRecent c t ⊆ t.
Proof. unfold keepRecent. apply map_filter_subseteq. Qed.

End Tables.

(** X7. Compensation: when the store answers, inserting a record whose key
    is free and then deleting the same record both succeed and leave the
    tables exactly as they were before the insert, for notifications and for
    announcements. *)
Theorem insert_then_delete_restores_ledger :
  forall (ctx : Context) (r1 r2 : storeReply) (st : Store)
         (sn : SN.sentNotification) (sa : SA.sentAnnouncement),
    answered ctx r1 -> answered ctx r2 ->
    (sent_notifications (db st) !! notificationKeyOf sn = None ->
       snd (insertSentNotification ctx r1 sn st) = None
       /\ snd (deleteSentNotification ctx r2 sn (fst (insertSentNotification ctx r1 sn st)))
          = None
       /\ db (fst (deleteSentNotification ctx r2 sn
                     (fst (insertSentNotification ctx r1 sn st)))) = db st)
    /\ (sent_announcements (db st) !! announcementKeyOf sa = None ->
       snd (insertSentAnnouncement ctx r1 sa st) = None
       /\ snd (deleteSentAnnouncement ctx r2 sa (fst (insertSentAnnouncement ctx r1 sa st)))
          = None
       /\ db (fst (deleteSentAnnouncement ctx r2 sa
                     (fst (insertSentAnnouncement ctx r1 sa st)))) = db st).
Proof.
  intros ctx r1 r2 st sn sa H1 H2. split; intros Hfree.
  - unfold insertSentNotification, deleteSentNotification.
    rewrite !LedgerFacts.storage_Exec_answered by assumption.
    unfold notificationKeyOf in Hfree. simpl. rewrite Hfree. simpl.
    split_and!; try reflexivity. apply DB_eq; simpl; [| reflexivity].
    rewrite delete_insert_eq. apply delete_id. exact Hfree.
  - unfold insertSentAnnouncement, deleteSentAnnouncement.
    rewrite !LedgerFacts.storage_Exec_answered by assumption.
    unfold announcementKeyOf in Hfree. simpl. rewrite Hfree. simpl.
    split_and!; try reflexivity. apply DB_eq; simpl; [reflexivity |].
    rewrite delete_insert_eq. apply delete_id. exact Hfree.
Qed.

Lemma insert_then_delete_restores_ledger_witness :
  let r := Samples.promptReply 0 in
  (answered Background r
   /\ sent_notifications (db Samples.agedStore) !! notificationKeyOf Samples.forBob = None)
  /\ db (fst (deleteSentNotification Background r Samples.forBob
                (fst (insertSentNotification Background r Samples.forBob Samples.agedStore))))
     = db Samples.agedStore.
Proof.
  intros r.
  assert (Hans : answered Background r) by (split; reflexivity).
  assert (Hfree : sent_notifications (db Samples.agedStore)
                    !! notificationKeyOf Samples.forBob = None) by reflexivity.
  split; [split; assumption |].
  destruct (insert_then_delete_restores_ledger Background r r Samples.agedStore
              Samples.forBob Samples.newsFirst Hans Hans) as [Hn _].
  destruct (Hn Hfree) as (_ & _ & Hdb). exact Hdb.
Defined.

(** X8. An insert for a key that already has a row never changes the
    tables and always returns an error, whatever the store answers; when the
    store answers the error is the duplicate-key error, so the row keeps the
    sent_at and language of the first insert. *)
Theorem insert_on_existing_key_is_refused :
  forall (ctx : Context) (reply : storeReply) (st : Store)
         (sn : SN.sentNotification) (sa : SA.sentAnnouncement) (row : rowData),
    (sent_notifications (db st) !! notificationKeyOf sn = Some row ->
       db (fst (insertSentNotification ctx reply sn st)) = db st
       /\ snd (insertSentNotification ctx reply sn st) <> None
       /\ (answered ctx reply ->
             snd (insertSentNotification ctx reply sn st)
             = Some (Wrapped ErrDuplicate "failed to insert sent notification")))
    /\ (sent_announcements (db st) !! announcementKeyOf sa = Some row ->
       db (fst (insertSentAnnouncement ctx reply sa st)) = db st
       /\ snd (insertSentAnnouncement ctx reply sa st) <> None
       /\ (answered ctx reply ->
             snd (insertSentAnnouncement ctx reply sa st)
             = Some (Wrapped ErrDuplicate "failed to insert sent announcement"))).
Proof.
  intros ctx reply st sn sa row. split; intros Hrow.
  - unfold insertSentNotification, storage_Exec, answered.
    unfold notificationKeyOf in Hrow.
    destruct (ctxErr (completesAt reply) ctx) as [e |]; simpl.
    { split_and!; [reflexivity | discriminate | intros [? _]; discriminate]. }
    destruct (fault reply) as [e |]; simpl.
    { split_and!; [reflexivity | discriminate | intros [_ ?]; discriminate]. }
    rewrite Hrow. simpl. split_and!; [reflexivity | discriminate | reflexivity].
  - unfold insertSentAnnouncement, storage_Exec, answered.
    unfold announcementKeyOf in Hrow.
    destruct (ctxErr (completesAt reply) ctx) as [e |]; simpl.
    { split_and!; [reflexivity | discriminate | intros [? _]; discriminate]. }
    destruct (fault reply) as [e |]; simpl.
    { split_and!; [reflexivity | discriminate | intros [_ ?]; discriminate]. }
    rewrite Hrow. simpl. split_and!; [reflexivity | discriminate | reflexivity].
Qed.

Lemma insert_on_existing_key_is_refused_witness :
  sent_notifications (db Samples.agedStore) !! notificationKeyOf Samples.forAlice
    = Some (90 * Hour, "en"%string)
  /\ db (fst (insertSentNotification Background (Samples.promptReply 0) Samples.forAlice
                Samples.agedStore)) = db Samples.agedStore.
Proof.
  assert (Hrow : sent_notifications (db Samples.agedStore) !! notificationKeyOf Samples.forAlice
                 = Some (90 * Hour, "en"%string)) by reflexivity.
  split; [exact Hrow |].
  destruct (insert_on_existing_key_is_refused Background (Samples.promptReply 0)
              Samples.agedStore Samples.forAlice Samples.newsFirst (90 * Hour, "en"%string))
    as [Hn _].
  destruct (Hn Hrow) as (Hdb & _). exact Hdb.
Defined.

(** X9. A delete whose key has no row succeeds and changes nothing, and
    deleting the same record twice leaves the tables as after the first
    delete, for notifications and for announcements. *)
Theorem delete_is_idempotent :
  forall (ctx : Context) (r1 r2 : storeReply) (st : Store)
         (sn : SN.sentNotification) (sa : SA.sentAnnouncement),
    answered ctx r1 -> answered ctx r2 ->
    (sent_notifications (db st) !! notificationKeyOf sn = None ->
       snd (deleteSentNotification ctx r1 sn st) = None
       /\ db (fst (deleteSentNotification ctx r1 sn st)) = db st)
    /\ (sent_announcements (db st) !! announcementKeyOf sa = None ->
       snd (deleteSentAnnouncement ctx r1 sa st) = None
       /\ db (fst (deleteSentAnnouncement ctx r1 sa st)) = db st)
    /\ db (fst (deleteSentNotification ctx r2 sn (fst (deleteSentNotification ctx r1 sn st))))
       = db (fst (deleteSentNotification ctx r1 sn st))
    /\ db (fst (deleteSentAnnouncement ctx r2 sa (fst (deleteSentAnnouncement ctx r1 sa st))))
       = db (fst (deleteSentAnnouncement ctx r1 sa st)).
Proof.
  intros ctx r1 r2 st sn sa H1 H2.
  unfold deleteSentNotification, deleteSentAnnouncement.
  rewrite !LedgerFacts.storage_Exec_answered by assumption. simpl. split_and!.
  - intros Hfree. split; [reflexivity |]. apply DB_eq; simpl; [| reflexivity].
    apply delete_id. exact Hfree.
  - intros Hfree. split; [reflexivity |]. apply DB_eq; simpl; [reflexivity |].
    apply delete_id. exact Hfree.
  - apply DB_eq; simpl; [| reflexivity]. apply delete_id, lookup_delete_eq.
  - apply DB_eq; simpl; [reflexivity |]. apply delete_id, lookup_delete_eq.
Qed.

Lemma delete_is_idempotent_witness :
  let r := Samples.promptReply 0 in
  (answered Background r
   /\ sent_notifications (db Samples.agedStore) !! notificationKeyOf Samples.forBob = None)
  /\ db (fst (deleteSentNotification Background r Samples.forBob Samples.agedStore))
     = db Samples.agedStore.
Proof.
  intros r.
  assert (Hans : answered Background r) by (split; reflexivity).
  assert (Hfree : sent_notifications (db Samples.agedStore)
                    !! notificationKeyOf Samples.forBob = None) by reflexivity.
  split; [split; assumption |].
  destruct (delete_is_idempotent Background r r Samples.agedStore Samples.forBob
              Samples.newsFirst Hans Hans) as (Hn & _).
  destruct (Hn Hfree) as [_ Hdb]. exact Hdb.
Defined.

Ltac by_store_cases ctx reply :=
  unfold answered, storage_Exec;
  destruct (ctxErr (completesAt reply) ctx); simpl;
  [| destruct (fault reply); simpl].



(** X11. Pruning only removes rows, whatever the store answers; and two
    successful passes, the second not earlier than the first, leave the same
    tables as the second pass alone. *)
Theorem prune_passes_compose :
  forall (ctx : Context) (now1 now2 : Z) (r1 r2 : storeReply) (st : Store),
    (sent_notifications (db (fst (deleteOldSentNotifications ctx now1 r1 st)))
       ⊆ sent_notifications (db st)
     /\ sent_announcements (db (fst (deleteOldSentAnnouncements ctx now1 r1 st)))
       ⊆ sent_announcements (db st))
    /\ (now1 <= now2 -> ctxErr now1 ctx = None -> ctxErr now2 ctx = None ->
        answered ctx r1 -> answered ctx r2 ->
        db (fst (deleteOldSentNotifications ctx now2 r2
                   (fst (deleteOldSentNotifications ctx now1 r1 st))))
          = db (fst (deleteOldSentNotifications ctx now2 r2 st))
        /\ db (fst (deleteOldSentAnnouncements ctx now2 r2
                      (fst (deleteOldSentAnnouncements ctx now1 r1 st))))
          = db (fst (deleteOldSentAnnouncements ctx now2 r2 st))).
Proof.
  intros ctx now1 now2 r1 r2 st. split; [split |].
  - unfold deleteOldSentNotifications. destruct (ctxErr now1 ctx); simpl; [reflexivity |].
    by_store_cases ctx r1; try reflexivity. apply keepRecent_subseteq.
  - unfold deleteOldSentAnnouncements. destruct (ctxErr now1 ctx); simpl; [reflexivity |].
    by_store_cases ctx r1; try reflexivity. apply keepRecent_subseteq.
  - intros Hle Hl1 Hl2 Ha1 Ha2.
    unfold deleteOldSentNotifications, deleteOldSentAnnouncements.
    rewrite Hl1, Hl2, !LedgerFacts.storage_Exec_answered by assumption. simpl.
    split; apply DB_eq; simpl; try reflexivity;
      apply keepRecent_compose; unfold retentionCutoff; lia.
Qed.

Lemma prune_passes_compose_witness :
  let r := Samples.promptReply (101 * Hour) in
  (100 * Hour <= 101 * Hour /\ ctxErr (100 * Hour) Background = None
   /\ ctxErr (101 * Hour) Background = None /\ answered Background r)
  /\ db (fst (deleteOldSentNotifications Background (101 * Hour) r
                (fst (deleteOldSentNotifications Background (100 * Hour) r Samples.agedStore))))
     = db (fst (deleteOldSentNotifications Background (101 * Hour) r Samples.agedStore)).
Proof.
  intros r.
  assert (H1 : 100 * Hour <= 101 * Hour) by (vm_compute; discriminate).
  assert (H2 : ctxErr (100 * Hour) Background = None) by reflexivity.
  assert (H3 : ctxErr (101 * Hour) Background = None) by reflexivity.
  assert (H4 : answered Background r) by (split; reflexivity).
  split; [split_and!; assumption |].
  destruct (prune_passes_compose Background (100 * Hour) (101 * Hour) r r Samples.agedStore)
    as [_ Hcomp].
  destruct (Hcomp H1 H2 H3 H4 H4) as [Hn _]. exact Hn.
Defined.

(** X12. The ledger forgets after the retention window: while a row older
    than now - 24h is in the table an insert for its key is refused; after a
    successful prune pass at [now] the same insert succeeds and records the
    new sent_at and language. *)
Theorem pruned_key_can_be_inserted_again :
  forall (ctx : Context) (now : Z) (r1 r2 r3 : storeReply) (st : Store)
         (sn : SN.sentNotification) (sa : SA.sentAnnouncement) (row : rowData),
    ctxErr now ctx = None -> answered ctx r1 -> answered ctx r2 -> answered ctx r3 ->
    fst row < now - 24 * Hour ->
    (sent_notifications (db st) !! notificationKeyOf sn = Some row ->
       let pruned := fst (deleteOldSentNotifications ctx now r2 st) in
       snd (insertSentNotification ctx r1 sn st) <> None
       /\ snd (insertSentNotification ctx r3 sn pruned) = None
       /\ sent_notifications (db (fst (insertSentNotification ctx r3 sn pruned)))
            !! notificationKeyOf sn = Some (SN.SentAt sn, SN.Language sn))
    /\ (sent_announcements (db st) !! announcementKeyOf sa = Some row ->
       let pruned := fst (deleteOldSentAnnouncements ctx now r2 st) in
       snd (insertSentAnnouncement ctx r1 sa st) <> None
       /\ snd (insertSentAnnouncement ctx r3 sa pruned) = None
       /\ sent_announcements (db (fst (insertSentAnnouncement ctx r3 sa pruned)))
            !! announcementKeyOf sa = Some (SA.SentAt sa, SA.Language sa)).
Proof.
  intros ctx now r1 r2 r3 st sn sa row Hlive H1 H2 H3 Hold.
  assert (Hcut : fst row < retentionCutoff now) by (unfold retentionCutoff; lia).
  split; intros Hrow pruned; subst pruned.
  - unfold insertSentNotification, deleteOldSentNotifications.
    rewrite Hlive, !LedgerFacts.storage_Exec_answered by assumption.
    unfold notificationKeyOf in *. simpl. rewrite Hrow. simpl.
    rewrite (LedgerFacts.keepRecent_drops _ _ _ _ Hrow Hcut). simpl.
    split_and!; [discriminate | reflexivity | apply lookup_insert_eq].
  - unfold insertSentAnnouncement, deleteOldSentAnnouncements.
    rewrite Hlive, !LedgerFacts.storage_Exec_answered by assumption.
    unfold announcementKeyOf in *. simpl. rewrite Hrow. simpl.
    rewrite (LedgerFacts.keepRecent_drops _ _ _ _ Hrow Hcut). simpl.
    split_and!; [discriminate | reflexivity | apply lookup_insert_eq].
Qed.

Lemma pruned_key_can_be_inserted_again_witness :
  let now := 100 * Hour in
  let r := Samples.promptReply now in
  let old := MoreSamples.staleForAlice in
  let st := fst (insertSentNotification Background r old Samples.emptyStore) in
  (ctxErr now Background = None /\ answered Background r
   /\ fst (10 * Hour, "en"%string) < now - 24 * Hour
   /\ sent_notifications (db st) !! notificationKeyOf Samples.forAlice
      = Some (10 * Hour, "en"%string))
  /\ snd (insertSentNotification Background r Samples.forAlice st) <> None
  /\ snd (insertSentNotification Background r Samples.forAlice
            (fst (deleteOldSentNotifications Background now r st))) = None.
Proof.
  intros now r old st.
  assert (H1 : ctxErr now Background = None) by reflexivity.
  assert (H2 : answered Background r) by (split; reflexivity).
  assert (H3 : fst (10 * Hour, "en"%string) < now - 24 * Hour) by (vm_compute; reflexivity).
  assert (H4 : sent_notifications (db st) !! notificationKeyOf Samples.forAlice
               = Some (10 * Hour, "en"%string)) by reflexivity.
  split; [split_and!; assumption |].
  destruct (pruned_key_can_be_inserted_again Background now r r r st Samples.forAlice
              Samples.newsFirst (10 * Hour, "en"%string) H1 H2 H2 H2 H3) as [Hn _].
  destruct (Hn H4) as (Hrefused & Hagain & _). split; assumption.
Defined.

(** X13. The two tables are independent: no operation on personal
    notifications (insert, delete, prune) changes sent_announcements and no
    operation on announcements changes sent_notifications, whatever the
    context and the store's answer. *)
Theorem tables_are_independent :
  forall (ctx : Context) (now : Z) (reply : storeReply) (st : Store)
         (sn : SN.sentNotification) (sa : SA.sentAnnouncement),
    sent_announcements (db (fst (insertSentNotification ctx reply sn st)))
      = sent_announcements (db st)
    /\ sent_announcements (db (fst (deleteSentNotification ctx reply sn st)))
      = sent_announcements (db st)
    /\ sent_announcements (db (fst (deleteOldSentNotifications ctx now reply st)))
      = sent_announcements (db st)
    /\ sent_notifications (db (fst (insertSentAnnouncement ctx reply sa st)))
      = sent_notifications (db st)
    /\ sent_notifications (db (fst (deleteSentAnnouncement ctx reply sa st)))
      = sent_notifications (db st)
    /\ sent_notifications (db (fst (deleteOldSentAnnouncements ctx now reply st)))
      = sent_notifications (db st).
Proof.
  intros ctx now reply st sn sa.
  unfold insertSentNotification, deleteSentNotification, deleteOldSentNotifications,
    insertSentAnnouncement, deleteSentAnnouncement, deleteOldSentAnnouncements.
  destruct (ctxErr now ctx); by_store_cases ctx reply; split_and!; try reflexivity;
    try (destruct (sent_notifications (db st) !! _); reflexivity);
    try (destruct (sent_announcements (db st) !! _); reflexivity).
Qed.

Lemma tables_are_independent_witness :
  sent_announcements
    (db (fst (deleteOldSentNotifications Background (100 * Hour)
                (Samples.promptReply (100 * Hour)) Samples.agedStore)))
  = sent_announcements (db Samples.agedStore).
Proof.
  destruct (tables_are_independent Background (100 * Hour) (Samples.promptReply (100 * Hour))
              Samples.agedStore Samples.forAlice Samples.newsFirst) as (_ & _ & H & _).
  exact H.
Defined.

End LedgerMore.

(* ------------------------------------------------------------------ *)
(** ** More on the cleaners *)
(* ------------------------------------------------------------------ *)

Module SweeperMore.
Import Ledger Sweeper Processor.

Lemma shrunk_refl (t : table) (d : DB) : shrunk t d d.
Proof. destruct t; split; reflexivity. Qed.

Lemma shrunk_trans (t : table) (d1 d2 d3 : DB) :
  shrunk t d1 d2 -> shrunk t d2 d3 -> shrunk t d1 d3.
Proof.
  destruct t; intros [H1 H1'] [H2 H2']; split;
    try (etransitivity; eassumption); congruence.
Qed.

Lemma pass_shape (t : table) (ctx : Context) (now : Z) (reply : storeReply) (st : Store) :
  db (fst (passOf t ctx now reply st))
    = (if passSucceeds ctx now reply then prunedDB t (retentionCutoff now) (db st)
       else db st)
  /\ (calls (fst (passOf t ctx now reply st)) = calls st
      \/ calls (fst (passOf t ctx now reply st))
         = calls st ++ [ExecCall ctx (pruneStatementOf t (retentionCutoff now))])
  /\ forall st', snd (passOf t ctx now reply st') = snd (passOf t ctx now reply st).
Proof.
  unfold passSucceeds, prunedDB.
  destruct t; simpl; unfold deleteOldSentNotifications, deleteOldSentAnnouncements,
    storage_Exec;
    destruct (ctxErr now ctx); simpl; auto;
    destruct (ctxErr (completesAt reply) ctx); simpl; auto;
    destruct (fault reply); simpl; auto.
Qed.

Lemma prunedDB_shrunk (t : table) (cutoff : Z) (d : DB) : shrunk t d (prunedDB t cutoff d).
Proof.
  destruct t; unfold prunedDB; simpl; split; try reflexivity;
    apply LedgerMore.keepRecent_subseteq.
Qed.

Lemma since_same (t : table) (c c' : cleaner) :
  store c' = store c -> log c' = log c -> since t c c'.
Proof.
  intros Hs Hl. split; rewrite ?Hs, ?Hl;
    [apply shrunk_refl | exists []; rewrite app_nil_r; auto
    | exists []; rewrite app_nil_r; reflexivity].
Qed.

Lemma since_refl (t : table) (c : cleaner) : since t c c.
Proof. apply since_same; reflexivity. Qed.

Lemma since_trans (t : table) (c1 c2 c3 : cleaner) :
  since t c1 c2 -> since t c2 c3 -> since t c1 c3.
Proof.
  intros [T1 (s1 & C1 & F1) (a1 & L1)] [T2 (s2 & C2 & F2) (a2 & L2)]. split.
  - eapply shrunk_trans; eauto.
  - exists (s1 ++ s2). rewrite C2, C1, app_assoc. split; [reflexivity |].
    apply Forall_app; auto.
  - exists (a1 ++ a2). rewrite L2, L1, app_assoc. reflexivity.
Qed.

Lemma tickCase_since (t : table) (now : Z) (reply : storeReply) (c : cleaner) :
  since t c (tickCase (passOf t) (labelOf t) now reply c).
Proof.
  destruct (pass_shape t (WithTimeout now (owner c) passDeadline) now reply (store c))
    as (Hdb & Hcalls & _).
  split; unfold tickCase; simpl.
  - rewrite Hdb. destruct (passSucceeds _ now reply);
      [apply prunedDB_shrunk | apply shrunk_refl].
  - destruct Hcalls as [-> | ->].
    + exists []. rewrite app_nil_r. auto.
    + eexists. split; [reflexivity |]. constructor; [eauto | constructor].
  - unfold log_Error. destruct (Wrap _ (labelOf t)); [eauto |].
    exists []. rewrite app_nil_r. reflexivity.
Qed.

Lemma step_since (t : table) (c : cleaner) (ev : event) :
  since t c (cleanerStep (passOf t) (labelOf t) c ev).
Proof.
  destruct ev as [| | now pick reply]; simpl.
  - destruct (returned c); apply since_same; reflexivity.
  - apply since_same; reflexivity.
  - destruct (returned c); [apply since_refl |].
    destruct (tickPending c), (ctxErr now (owner c)); try destruct pick;
      try apply tickCase_since; apply since_same; reflexivity.
Qed.

Lemma run_since (t : table) (evs : list event) :
  forall c : cleaner, since t c (cleanerRun (passOf t) (labelOf t) c evs).
Proof.
  induction evs as [| ev evs IH]; intros c; [apply since_refl |].
  simpl. eapply since_trans; [apply step_since |].
  apply (IH (cleanerStep (passOf t) (labelOf t) c ev)).
Qed.

(** X14. Whatever happens, a cleaner only ever prunes its own table: after
    any sequence of events the table of the loop holds a subset of its
    initial rows, the other table is unchanged, every statement the loop has
    sent is the DELETE-older-than of its table, and the log has only grown. *)
Theorem cleaner_only_prunes_its_table :
  forall (t : table) (ctx : Context) (draw : Z) (st : Store) (lg : list error)
         (evs : list event),
    let c := startCleaner t ctx draw st lg evs in
    match t with
    | SentNotifications =>
        sent_notifications (db (store c)) ⊆ sent_notifications (db st)
        /\ sent_announcements (db (store c)) = sent_announcements (db st)
    | SentAnnouncements =>
        sent_announcements (db (store c)) ⊆ sent_announcements (db st)
        /\ sent_notifications (db (store c)) = sent_notifications (db st)
    end
    /\ (exists sent, calls (store c) = calls st ++ sent
                     /\ Forall (fun cl => exists reqCtx cutoff,
                                  cl = ExecCall reqCtx (pruneStatementOf t cutoff)) sent)
    /\ (exists added, log c = lg ++ added).
Proof.
  intros t ctx draw st lg evs c. subst c. rewrite SweeperFacts.startCleaner_unfold.
  destruct (run_since t evs (cleanerStart ctx draw st lg)) as [Hshrunk Hcalls Hlog].
  split; [exact Hshrunk | split; [exact Hcalls | exact Hlog]].
Qed.

Lemma cleaner_only_prunes_its_table_witness :
  let evs := [TickFires; Select (100 * Hour) true (Samples.promptReply (100 * Hour))] in
  let c := startCleaner SentNotifications Background 5 Samples.agedStore [] evs in
  sent_notifications (db (store c)) ⊆ sent_notifications (db Samples.agedStore)
  /\ sent_announcements (db (store c)) = sent_announcements (db Samples.agedStore)
  /\ sent_notifications (db (store c)) !! Samples.oldKey = None.
Proof.
  intros evs c.
  destruct (cleaner_only_prunes_its_table SentNotifications Background 5 Samples.agedStore []
              evs) as ([Hsub Hother] & _).
  split; [exact Hsub |]. split; [exact Hother | reflexivity].
Defined.

Lemma step_not_returned (t : table) (c : cleaner) (ev : event) :
  ev <> OwnerCancels -> cancelled (owner c) = false -> deadline (owner c) = None ->
  returned c = false ->
  let c' := cleanerStep (passOf t) (labelOf t) c ev in
  owner c' = owner c /\ returned c' = false.
Proof.
  intros Hev Hc Hd Hret.
  assert (Hlive : forall now, ctxErr now (owner c) = None)
    by (intros now; unfold ctxErr; rewrite Hc, Hd; reflexivity).
  destruct ev as [| | now pick reply]; simpl; [| congruence |]; rewrite Hret; auto.
  rewrite Hlive. destruct (tickPending c); simpl; auto.
Qed.

(** X15. A cleaner runs until its context ends: started under a context that
    is not cancelled and has no deadline, the loop has not returned after any
    sequence of events in which the owner does not cancel. *)
Theorem cleaner_runs_until_cancelled :
  forall (t : table) (ctx : Context) (draw : Z) (st : Store) (lg : list error)
         (evs : list event),
    cancelled ctx = false -> deadline ctx = None -> OwnerCancels ∉ evs ->
    returned (startCleaner t ctx draw st lg evs) = false.
Proof.
  intros t ctx draw st lg evs Hc Hd Hno. rewrite SweeperFacts.startCleaner_unfold.
  assert (H : forall c, owner c = ctx -> returned c = false ->
                        returned (cleanerRun (passOf t) (labelOf t) c evs) = false).
  { induction evs as [| ev evs IH]; intros c Ho Hret; [exact Hret |].
    simpl. apply not_elem_of_cons in Hno as [Hev Hno].
    destruct (step_not_returned t c ev) as [Ho' Hret']; try congruence.
    apply (IH Hno); congruence. }
  apply H; reflexivity.
Qed.

Lemma cleaner_runs_until_cancelled_witness :
  let evs := [TickFires; Select (100 * Hour) true (Samples.promptReply (100 * Hour));
              Select (101 * Hour) false (Samples.failingReply (101 * Hour)); TickFires] in
  (cancelled Background = false /\ deadline Background = None /\ OwnerCancels ∉ evs)
  /\ returned (startCleaner SentAnnouncements Background 3 Samples.agedStore [] evs) = false.
Proof.
  intros evs.
  assert (H1 : cancelled Background = false) by reflexivity.
  assert (H2 : deadline Background = None) by reflexivity.
  assert (H3 : OwnerCancels ∉ evs).
  { intros Hin. repeat (apply elem_of_cons in Hin as [Hin | Hin]; [discriminate |]).
    inversion Hin. }
  split; [split_and!; assumption |].
  exact (cleaner_runs_until_cancelled SentAnnouncements Background 3 Samples.agedStore []
           evs H1 H2 H3).
Defined.

End SweeperMore.

(* ------------------------------------------------------------------ *)
(** ** The two cleaners of a processor *)
(* ------------------------------------------------------------------ *)

Module ProcessorFacts.
Import Ledger Sweeper Processor.

Lemma sameLoop_setStore (s : Store) (c : cleaner) : sameLoop (setStore s c) c.
Proof. repeat split. Qed.

Lemma sameLoop_trans (c1 c2 c3 : cleaner) : sameLoop c1 c2 -> sameLoop c2 c3 -> sameLoop c1 c3.
Proof.
  unfold sameLoop. intros (?&?&?&?&?) (?&?&?&?&?). repeat split; congruence.
Qed.

Lemma prunedDB_sameTable (t : table) (cutoff : Z) (d1 d2 : DB) :
  sameTable t d1 d2 -> sameTable t (prunedDB t cutoff d1) (prunedDB t cutoff d2).
Proof. destruct t; unfold prunedDB; simpl; intros ->; reflexivity. Qed.

(** A step of the loop of table [t] sees of the store only table [t]. *)
Lemma step_simulation (t : table) (c1 c2 : cleaner) (ev : event) :
  sameLoop c1 c2 -> sameTable t (db (store c1)) (db (store c2)) ->
  sameLoop (cleanerStep (passOf t) (labelOf t) c1 ev)
           (cleanerStep (passOf t) (labelOf t) c2 ev)
  /\ sameTable t (db (store (cleanerStep (passOf t) (labelOf t) c1 ev)))
                 (db (store (cleanerStep (passOf t) (labelOf t) c2 ev))).
Proof.
  intros (Hl & Ho & Hi & Htp & Hr) Htab.
  assert (Hsame : sameLoop c1 c2) by (repeat split; assumption).
  destruct ev as [| | now pick reply]; simpl.
  - rewrite Hr. destruct (returned c2); simpl; (split; [| exact Htab]);
      [exact Hsame | repeat split; simpl; assumption].
  - split; [repeat split; simpl; congruence | exact Htab].
  - rewrite Hr, Htp, Ho. destruct (returned c2); [split; [exact Hsame | exact Htab] |].
    assert (Htick : sameLoop (tickCase (passOf t) (labelOf t) now reply c1)
                             (tickCase (passOf t) (labelOf t) now reply c2)
                    /\ sameTable t
                         (db (store (tickCase (passOf t) (labelOf t) now reply c1)))
                         (db (store (tickCase (passOf t) (labelOf t) now reply c2)))).
    { unfold tickCase. simpl. rewrite Ho.
      destruct (SweeperMore.pass_shape t (WithTimeout now (owner c2) passDeadline) now reply
                  (store c1)) as (Hdb1 & _ & Herr).
      destruct (SweeperMore.pass_shape t (WithTimeout now (owner c2) passDeadline) now reply
                  (store c2)) as (Hdb2 & _ & _).
      rewrite (Herr (store c2)), Hdb1, Hdb2, Hl.
      split; [repeat split; simpl; assumption |].
      destruct (passSucceeds _ now reply); [apply prunedDB_sameTable |]; exact Htab. }
    assert (Hdone : sameLoop (doneCase c1) (doneCase c2)
                    /\ sameTable t (db (store (doneCase c1))) (db (store (doneCase c2))))
      by (split; [repeat split; simpl; assumption | exact Htab]).
    destruct (tickPending c2), (ctxErr now (owner c2)); try destruct pick; auto.
Qed.

(** A step of the loop of one table leaves the other table as it is. *)
Lemma step_other_table (t : table) (c : cleaner) (ev : event) :
  match t with
  | SentNotifications =>
      sent_announcements (db (store (cleanerStep (passOf t) (labelOf t) c ev)))
      = sent_announcements (db (store c))
  | SentAnnouncements =>
      sent_notifications (db (store (cleanerStep (passOf t) (labelOf t) c ev)))
      = sent_notifications (db (store c))
  end.
Proof.
  destruct (SweeperMore.step_since t c ev) as [Hshrunk _ _].
  destruct t; destruct Hshrunk as [_ Heq]; exact Heq.
Qed.

Lemma seenBy_cons (t t' : table) (ev : event) (evs : list (table * event)) :
  seenBy t ((t', ev) :: evs)
  = match ev with
    | OwnerCancels => OwnerCancels :: seenBy t evs
    | _ => match t', t with
           | SentNotifications, SentNotifications | SentAnnouncements, SentAnnouncements =>
               ev :: seenBy t evs
           | _, _ => seenBy t evs
           end
    end.
Proof. destruct ev, t', t; reflexivity. Qed.

Lemma sweepers_agree (evs : list (table * event)) :
  forall (p : sweepers) (n a : cleaner),
    agrees p n a ->
    agrees (fold_left sweepersStep evs p)
      (cleanerRun (passOf SentNotifications) (labelOf SentNotifications) n
         (seenBy SentNotifications evs))
      (cleanerRun (passOf SentAnnouncements) (labelOf SentAnnouncements) a
         (seenBy SentAnnouncements evs)).
Proof.
  induction evs as [| [t ev] evs IH]; intros p n a Hagree; [exact Hagree |].
  destruct Hagree as (Hn & Ha & Htn & Hta).
  change (fold_left sweepersStep ((t, ev) :: evs) p)
    with (fold_left sweepersStep evs (sweepersStep p (t, ev))).
  rewrite !seenBy_cons.
  destruct ev as [| | now pick reply].
  - (* a tick of one ticker *)
    destruct t; simpl; apply IH; unfold agrees; simpl.
    + destruct (step_simulation SentNotifications
                  (setStore (shared p) (notificationsLoop p)) n TickFires)
        as [Hl Ht]; [eapply sameLoop_trans; [apply sameLoop_setStore | exact Hn] | exact Htn |].
      pose proof (step_other_table SentNotifications
                    (setStore (shared p) (notificationsLoop p)) TickFires) as Hother.
      simpl in Hother. split_and!; [exact Hl | exact Ha | exact Ht |].
      simpl in *. congruence.
    + destruct (step_simulation SentAnnouncements
                  (setStore (shared p) (announcementsLoop p)) a TickFires)
        as [Hl Ht]; [eapply sameLoop_trans; [apply sameLoop_setStore | exact Ha] | exact Hta |].
      pose proof (step_other_table SentAnnouncements
                    (setStore (shared p) (announcementsLoop p)) TickFires) as Hother.
      simpl in Hother. split_and!; [exact Hn | exact Hl | | exact Ht].
      simpl in *. congruence.
  - (* the common context is cancelled *)
    assert (Hstep : sweepersStep p (t, OwnerCancels)
                    = {| shared := shared p;
                         notificationsLoop :=
                           cleanerStep (passOf SentNotifications) (labelOf SentNotifications)
                             (notificationsLoop p) OwnerCancels;
                         announcementsLoop :=
                           cleanerStep (passOf SentAnnouncements) (labelOf SentAnnouncements)
                             (announcementsLoop p) OwnerCancels |})
      by (destruct t; reflexivity).
    rewrite Hstep. simpl cleanerRun. apply IH. unfold agrees. simpl.
    destruct Hn as (?&Hon&?&?&?). destruct Ha as (?&Hoa&?&?&?).
    split_and!; try (repeat split; simpl; congruence); assumption.
  - (* one loop reaches its select *)
    destruct t; simpl; apply IH; unfold agrees.
    + destruct (step_simulation SentNotifications
                  (setStore (shared p) (notificationsLoop p)) n (Select now pick reply))
        as [Hl Ht]; [eapply sameLoop_trans; [apply sameLoop_setStore | exact Hn] | exact Htn |].
      pose proof (step_other_table SentNotifications
                    (setStore (shared p) (notificationsLoop p)) (Select now pick reply))
        as Hother.
      split_and!; [exact Hl | exact Ha | exact Ht |].
      unfold sameTable in *. simpl in Hother. cbn [shared]. rewrite Hother. exact Hta.
    + destruct (step_simulation SentAnnouncements
                  (setStore (shared p) (announcementsLoop p)) a (Select now pick reply))
        as [Hl Ht]; [eapply sameLoop_trans; [apply sameLoop_setStore | exact Ha] | exact Hta |].
      pose proof (step_other_table SentAnnouncements
                    (setStore (shared p) (announcementsLoop p)) (Select now pick reply))
        as Hother.
      split_and!; [exact Hn | exact Hl | | exact Ht].
      unfold sameTable in *. simpl in Hother. cbn [shared]. rewrite Hother. exact Htn.
Qed.

(** X16. The two cleaners of a processor do not interfere although they
    share the store: under every interleaving, the sent_notifications table,
    the log and the state of the notifications loop are those of that loop
    run alone on the events it sees (its own ticks and selects, and the
    cancellation of the common context), and likewise for announcements. *)
Theorem cleaners_do_not_interfere :
  forall (ctx : Context) (draw1 draw2 : Z) (st : Store) (evs : list (table * event)),
    let p := startCleaners ctx draw1 draw2 st evs in
    let n := startOldSentNotificationsCleaner ctx draw1 st []
               (seenBy SentNotifications evs) in
    let a := startOldSentAnnouncementsCleaner ctx draw2 st []
               (seenBy SentAnnouncements evs) in
    sent_notifications (db (shared p)) = sent_notifications (db (store n))
    /\ sent_announcements (db (shared p)) = sent_announcements (db (store a))
    /\ log (notificationsLoop p) = log n
    /\ returned (notificationsLoop p) = returned n
    /\ log (announcementsLoop p) = log a
    /\ returned (announcementsLoop p) = returned a.
Proof.
  intros ctx draw1 draw2 st evs p n a. subst p n a.
  unfold startCleaners, startOldSentNotificationsCleaner, startOldSentAnnouncementsCleaner.
  destruct (sweepers_agree evs
              {| shared := st;
                 notificationsLoop := cleanerStart ctx draw1 st [];
                 announcementsLoop := cleanerStart ctx draw2 st [] |}
              (cleanerStart ctx draw1 st []) (cleanerStart ctx draw2 st []))
    as ((Hln & _ & _ & _ & Hrn) & (Hla & _ & _ & _ & Hra) & Htn & Hta).
  { repeat split. }
  split_and!; assumption.
Qed.

Lemma cleaners_do_not_interfere_witness :
  let now := 100 * Hour in
  let evs := [(SentNotifications, TickFires); (SentAnnouncements, TickFires);
              (SentAnnouncements, Select now true (Samples.failingReply now));
              (SentNotifications, Select now true (Samples.promptReply now))] in
  let p := startCleaners Background 5 7 Samples.agedStore evs in
  sent_notifications (db (shared p))
  = sent_notifications
      (db (store (startOldSentNotificationsCleaner Background 5 Samples.agedStore []
                    [TickFires; Select now true (Samples.promptReply now)])))
  /\ sent_notifications (db (shared p)) !! Samples.oldKey = None
  /\ sent_announcements (db (shared p)) !! Samples.staleKey
     = Some (76 * Hour - 1, "en"%string).
Proof.
  intros now evs p.
  destruct (cleaners_do_not_interfere Background 5 7 Samples.agedStore evs) as (Hn & _).
  split; [exact Hn |]. split; reflexivity.
Defined.







End ProcessorFacts.

(* ------------------------------------------------------------------ *)
(** ** More on the health probe and the suppression lists *)
(* ------------------------------------------------------------------ *)

Module HealthMore.
Import Ledger Health.

(** X18. The probe pings the store first and exactly once; it contacts the
    broker at most once, only after the ping and the encoding succeeded, and
    then with the first topic's name as key and as topic.  It panics exactly
    when the ping and the encoding succeed and no topic is configured. *)
Theorem health_probe_call_order :
  forall (env : collaborators) (mb : messageBrokerConfig) (ctx : Context) (now : Z),
    let r := CheckHealth env mb ctx now [] in
    (fst r = [PingCall ctx]
     \/ exists t bytes,
          fst r = [PingCall ctx; SendMessageCall ctx (Name t) (Name t) bytes]
          /\ Topics mb !! 0%nat = Some t
          /\ ping env ctx = None
          /\ marshalTS env ctx now = inl bytes)
    /\ (ping env ctx <> None -> fst r = [PingCall ctx])
    /\ (snd r = Panicked
        <-> ping env ctx = None
            /\ (exists bytes, marshalTS env ctx now = inl bytes)
            /\ Topics mb = []).
Proof.
  intros env mb ctx now r. subst r. unfold CheckHealth.
  destruct (ping env ctx) as [e |] eqn:Hping; simpl.
  { split_and!; [left; reflexivity | reflexivity |].
    split; [discriminate | intros [? _]; discriminate]. }
  destruct (marshalTS env ctx now) as [bytes | e] eqn:Hm; simpl.
  2: { split_and!; [left; reflexivity | congruence |].
       split; [discriminate | intros (_ & [b Hb] & _); discriminate]. }
  destruct (Topics mb) as [| t ts] eqn:Ht; simpl.
  - split_and!; [left; reflexivity | congruence |]. split; eauto.
  - split_and!; [right; exists t, bytes; auto | congruence |].
    split; [discriminate | intros (_ & _ & ?); discriminate].
Qed.

Lemma health_probe_call_order_witness :
  fst (CheckHealth Samples.reachable {| Topics := [] |} Background 0 []) = [PingCall Background]
  /\ snd (CheckHealth Samples.reachable {| Topics := [] |} Background 0 []) = Panicked.
Proof.
  destruct (health_probe_call_order Samples.reachable {| Topics := [] |} Background 0)
    as (Hcalls & _ & Hpanic).
  split; [reflexivity |]. apply Hpanic. split; [reflexivity |]. split; [| reflexivity].
  exists "{}"%string. reflexivity.
Defined.

End HealthMore.

Module SuppressionMore.
Import Suppression.

Section Facts.

Variable hasUnicode : string -> string -> bool.

Lemma range_monotone (l1 l2 : list string) (name : string) :
  (forall x, x ∈ l1 -> x ∈ l2) ->
  rangeEqualFold hasUnicode l1 name = true -> rangeEqualFold hasUnicode l2 name = true.
Proof.
  intros Hsub. rewrite !SuppressionFacts.rangeEqualFold_true.
  intros (l & Hin & Hl). exists l. auto.
Qed.

Lemma range_same_entries (l1 l2 : list string) (name : string) :
  (forall x, x ∈ l1 <-> x ∈ l2) ->
  rangeEqualFold hasUnicode l1 name = rangeEqualFold hasUnicode l2 name.
Proof.
  intros Hsame.
  destruct (rangeEqualFold hasUnicode l1 name) eqn:E1,
           (rangeEqualFold hasUnicode l2 name) eqn:E2; try reflexivity.
  - rewrite (range_monotone l1 l2 name) in E2; [discriminate | apply Hsame | exact E1].
  - rewrite (range_monotone l2 l1 name) in E1; [discriminate | apply Hsame | exact E2].
Qed.

Lemma range_ascii_case (l : list string) (n1 n2 : string) :
  Forall isASCII l -> isASCII n1 -> isASCII n2 -> asciiLower n1 = asciiLower n2 ->
  rangeEqualFold hasUnicode l n1 = rangeEqualFold hasUnicode l n2.
Proof.
  intros Hl H1 H2 Hlow. induction l as [| x l IH]; [reflexivity |].
  apply Forall_cons in Hl as [Hx Hl]. simpl.
  assert (Hfold : EqualFold hasUnicode x n1 = EqualFold hasUnicode x n2).
  { destruct (EqualFold hasUnicode x n1) eqn:E1, (EqualFold hasUnicode x n2) eqn:E2;
      try reflexivity.
    - apply SuppressionFacts.EqualFold_ascii in E1; [| assumption | assumption].
      rewrite Hlow in E1. apply (SuppressionFacts.EqualFold_ascii hasUnicode) in E1;
        [congruence | assumption | assumption].
    - apply SuppressionFacts.EqualFold_ascii in E2; [| assumption | assumption].
      rewrite <- Hlow in E2. apply (SuppressionFacts.EqualFold_ascii hasUnicode) in E2;
        [congruence | assumption | assumption]. }
  rewrite Hfold, (IH Hl). reflexivity.
Qed.

End Facts.

(** X19. The suppression predicates depend only on which names are listed:
    enlarging a list never re-enables a name it disabled, and two
    configurations whose lists have the same entries (in any order, with any
    repetition) disable the same names. *)
Theorem suppression_depends_on_entries_only :
  forall (hasUnicode : string -> string -> bool) (cfg1 cfg2 : config) (name : string),
    let d1 := DisabledAchievementsNotifications cfg1 in
    let d2 := DisabledAchievementsNotifications cfg2 in
    ((forall x, x ∈ Levels d1 -> x ∈ Levels d2) ->
       IsLevelNotificationDisabled hasUnicode cfg1 name = true ->
       IsLevelNotificationDisabled hasUnicode cfg2 name = true)
    /\ ((forall x, x ∈ Badges d1 -> x ∈ Badges d2) ->
       IsBadgeNotificationDisabled hasUnicode cfg1 name = true ->
       IsBadgeNotificationDisabled hasUnicode cfg2 name = true)
    /\ ((forall x, x ∈ Roles d1 -> x ∈ Roles d2) ->
       IsRoleNotificationDisabled hasUnicode cfg1 name = true ->
       IsRoleNotificationDisabled hasUnicode cfg2 name = true)
    /\ ((forall x, x ∈ Levels d1 <-> x ∈ Levels d2) ->
       IsLevelNotificationDisabled hasUnicode cfg1 name
       = IsLevelNotificationDisabled hasUnicode cfg2 name)
    /\ ((forall x, x ∈ Badges d1 <-> x ∈ Badges d2) ->
       IsBadgeNotificationDisabled hasUnicode cfg1 name
       = IsBadgeNotificationDisabled hasUnicode cfg2 name)
    /\ ((forall x, x ∈ Roles d1 <-> x ∈ Roles d2) ->
       IsRoleNotificationDisabled hasUnicode cfg1 name
       = IsRoleNotificationDisabled hasUnicode cfg2 name).
Proof.
  intros hasUnicode cfg1 cfg2 name d1 d2.
  unfold IsLevelNotificationDisabled, IsBadgeNotificationDisabled, IsRoleNotificationDisabled.
  fold d1 d2. rewrite !SuppressionFacts.guarded_range.
  split_and!; first [apply range_monotone | apply range_same_entries].
Qed.

Lemma suppression_depends_on_entries_only_witness :
  let strict := fun _ _ : string => false in
  (forall x, x ∈ ["Gold"%string; "Silver"%string]
             <-> x ∈ ["Silver"%string; "Gold"%string; "Silver"%string])
  /\ IsBadgeNotificationDisabled strict (withBadges ["Gold"%string; "Silver"%string]) "gold"
     = IsBadgeNotificationDisabled strict
         (withBadges ["Silver"%string; "Gold"%string; "Silver"%string]) "gold".
Proof.
  intros strict.
  assert (H : forall x, x ∈ ["Gold"%string; "Silver"%string]
                        <-> x ∈ ["Silver"%string; "Gold"%string; "Silver"%string]).
  { intros x. rewrite !elem_of_cons, elem_of_nil. tauto. }
  split; [exact H |].
  destruct (suppression_depends_on_entries_only strict
              (withBadges ["Gold"%string; "Silver"%string])
              (withBadges ["Silver"%string; "Gold"%string; "Silver"%string]) "gold")
    as (_ & _ & _ & _ & Hb & _).
  exact (Hb H).
Defined.

(** X20. On ASCII lists the predicates do not see the letter case of the
    name: two ASCII names that agree after lowering A-Z get the same answer
    from each predicate. *)
Theorem suppression_ignores_case_of_name :
  forall (hasUnicode : string -> string -> bool) (cfg : config) (n1 n2 : string),
    let d := DisabledAchievementsNotifications cfg in
    isASCII n1 -> isASCII n2 -> asciiLower n1 = asciiLower n2 ->
    (Forall isASCII (Levels d) ->
       IsLevelNotificationDisabled hasUnicode cfg n1
       = IsLevelNotificationDisabled hasUnicode cfg n2)
    /\ (Forall isASCII (Badges d) ->
       IsBadgeNotificationDisabled hasUnicode cfg n1
       = IsBadgeNotificationDisabled hasUnicode cfg n2)
    /\ (Forall isASCII (Roles d) ->
       IsRoleNotificationDisabled hasUnicode cfg n1
       = IsRoleNotificationDisabled hasUnicode cfg n2).
Proof.
  intros hasUnicode cfg n1 n2 d H1 H2 Hlow.
  unfold IsLevelNotificationDisabled, IsBadgeNotificationDisabled, IsRoleNotificationDisabled.
  fold d. rewrite !SuppressionFacts.guarded_range.
  split_and!; intros Hl; apply range_ascii_case; assumption.
Qed.

Lemma suppression_ignores_case_of_name_witness :
  let strict := fun _ _ : string => false in
  (isASCII "SILVER" /\ isASCII "silver" /\ asciiLower "SILVER" = asciiLower "silver"
   /\ Forall isASCII ["Gold"%string; "Silver"%string])
  /\ IsBadgeNotificationDisabled strict (withBadges ["Gold"%string; "Silver"%string]) "SILVER"
     = IsBadgeNotificationDisabled strict (withBadges ["Gold"%string; "Silver"%string]) "silver".
Proof.
  intros strict.
  assert (H1 : isASCII "SILVER") by (repeat constructor).
  assert (H2 : isASCII "silver") by (repeat constructor).
  assert (H3 : asciiLower "SILVER" = asciiLower "silver") by reflexivity.
  assert (H4 : Forall isASCII ["Gold"%string; "Silver"%string])
    by (repeat (constructor; [repeat constructor |]); constructor).
  split; [split_and!; assumption |].
  destruct (suppression_ignores_case_of_name strict
              (withBadges ["Gold"%string; "Silver"%string]) "SILVER" "silver" H1 H2 H3)
    as (_ & Hb & _).
  exact (Hb H4).
Defined.

End SuppressionMore.

(* ------------------------------------------------------------------ *)
(** ** More on the news read paths *)
(* ------------------------------------------------------------------ *)

Module NewsMore.
Import News NewsReads.

Section Facts.

Variable DownloadURL : string -> string.

Lemma visit_fields (createdAfter : option Z) (elem item : PersonalNews) :
  visit DownloadURL createdAfter elem = Returned item ->
  UpdatedAt item = None /\ NotificationChannels item = None
  /\ ImageURL item = DownloadURL (ImageURL elem)
  /\ CreatedAt item = CreatedAt elem /\ ID item = ID elem.
Proof.
  unfold visit. intros H.
  destruct (Viewed elem) as [[|] |]; try (injection H as <-; simpl; auto).
  destruct (CreatedAt elem), createdAfter; try discriminate.
  destruct (_ <? _); injection H as <-; simpl; auto.
Qed.

Lemma visitAll_never_blocks (createdAfter : option Z) (rows : list PersonalNews) :
  visitAll DownloadURL createdAfter rows <> Blocked.
Proof.
  induction rows as [| elem rows IH]; simpl; [discriminate |].
  assert (Hv : visit DownloadURL createdAfter elem <> Blocked).
  { unfold visit. destruct (Viewed elem) as [[|] |]; try discriminate.
    destruct (CreatedAt elem), createdAfter; try discriminate.
    destruct (_ <? _); discriminate. }
  destruct (visit DownloadURL createdAfter elem); try discriminate; [| congruence].
  destruct (visitAll DownloadURL createdAfter rows); try discriminate. congruence.
Qed.

Lemma visitAll_panicked_inv (createdAfter : option Z) (rows : list PersonalNews) :
  visitAll DownloadURL createdAfter rows = Panicked ->
  exists row, row ∈ rows /\ Viewed row = Some false
              /\ (CreatedAt row = None \/ createdAfter = None).
Proof.
  induction rows as [| elem rows IH]; simpl; [discriminate |].
  destruct (visit DownloadURL createdAfter elem) as [item | |] eqn:Hvisit.
  - destruct (visitAll DownloadURL createdAfter rows); try discriminate.
    intros _. destruct (IH eq_refl) as (row & Hin & Hrow). exists row. split; [right |]; auto.
  - intros _. exists elem. split; [left |]. unfold visit in Hvisit.
    destruct (Viewed elem) as [[|] |]; try discriminate. split; [reflexivity |].
    destruct (CreatedAt elem), createdAfter; auto.
    destruct (_ <? _); discriminate.
  - discriminate.
Qed.

Lemma visitAll_Forall2 (createdAfter : option Z) (rows : list PersonalNews) :
  forall items, visitAll DownloadURL createdAfter rows = Returned items ->
    Forall2 (fun elem item => visit DownloadURL createdAfter elem = Returned item) rows items.
Proof.
  intros items Hall.
  pose proof (NewsFacts.visitAll_returned_inv DownloadURL createdAfter rows items Hall) as Hok.
  destruct (NewsFacts.visitAll_returns DownloadURL createdAfter rows Hok) as (items' & H' & HF).
  congruence.
Qed.

End Facts.

(** X21. Every item [GetNews] returns has its update time and its
    notification channels cleared and its image URL replaced by the download
    URL of the picture client; the creation time and the identifier are those
    of the row at the same position. *)
Theorem get_news_strips_internal_fields :
  forall (storage_Select : Context -> queryArgs -> option (list PersonalNews) + error)
         (DownloadURL : string -> string)
         (ctx : Context) (now : Z) (newsType language : string) (limit offset : Z)
         (createdAfter : option Z) (rows items : list PersonalNews) (err : option error),
    storage_Select ctx {| argUserID := requestingUserID ctx; argLanguage := language;
                          argType := newsType; argLimit := int64OfUint64 limit;
                          argOffset := int64OfUint64 offset |} = inl (Some rows) ->
    GetNews storage_Select DownloadURL ctx now newsType language limit offset createdAfter
      = Returned (Some items, err) ->
    (forall item, item ∈ items -> UpdatedAt item = None /\ NotificationChannels item = None)
    /\ (forall i row, rows !! i = Some row ->
          exists item, items !! i = Some item
                       /\ ImageURL item = DownloadURL (ImageURL row)
                       /\ CreatedAt item = CreatedAt row /\ ID item = ID row).
Proof.
  intros storage_Select DownloadURL ctx now newsType language limit offset createdAfter
         rows items err Hsel Hres.
  unfold GetNews in Hres. destruct (ctxErr now ctx); [discriminate |].
  rewrite Hsel in Hres.
  destruct (visitAll DownloadURL createdAfter rows) as [items' | |] eqn:Hall; try discriminate.
  injection Hres as <- <-.
  pose proof (visitAll_Forall2 DownloadURL createdAfter rows _ Hall) as HF. split.
  - intros item Hin. apply list_elem_of_lookup in Hin as [i Hi].
    destruct (Forall2_lookup_r _ _ _ _ _ HF Hi) as (row & _ & Hvisit).
    apply visit_fields in Hvisit. tauto.
  - intros i row Hrow. destruct (Forall2_lookup_l _ _ _ _ _ HF Hrow) as (item & Hi & Hvisit).
    exists item. apply visit_fields in Hvisit. tauto.
Qed.

Lemma get_news_strips_internal_fields_witness :
  exists items,
    (Samples.threeRows Background
       {| argUserID := requestingUserID Background; argLanguage := "en";
          argType := "regular"; argLimit := int64OfUint64 10; argOffset := int64OfUint64 0 |}
     = inl (Some [Samples.unseenOld; Samples.unseenNew; Samples.seen])
     /\ GetNews Samples.threeRows Samples.cdn Background 0 "regular" "en" 10 0 (Some 50)
        = Returned (Some items, None))
    /\ forall item, item ∈ items -> UpdatedAt item = None /\ NotificationChannels item = None.
Proof.
  destruct (GetNews Samples.threeRows Samples.cdn Background 0 "regular" "en" 10 0 (Some 50))
    as [[[items |] [e |]] | |] eqn:Hres; try (vm_compute in Hres; discriminate).
  exists items.
  assert (Hsel : Samples.threeRows Background
                   {| argUserID := requestingUserID Background; argLanguage := "en";
                      argType := "regular"; argLimit := int64OfUint64 10;
                      argOffset := int64OfUint64 0 |}
                 = inl (Some [Samples.unseenOld; Samples.unseenNew; Samples.seen]))
    by reflexivity.
  split; [split; [exact Hsel | reflexivity] |].
  destruct (get_news_strips_internal_fields Samples.threeRows Samples.cdn Background 0
              "regular" "en" 10 0 (Some 50) _ items None Hsel Hres) as [Hall _].
  exact Hall.
Defined.

(** X22. [GetNews] returns either a list or an error, never both and never
    neither.  Under a failed context the error is the wrapped context error
    whatever the store would answer; an error of the store is returned
    wrapped. *)
Theorem get_news_list_xor_error :
  forall (storage_Select : Context -> queryArgs -> option (list PersonalNews) + error)
         (DownloadURL : string -> string)
         (ctx : Context) (now : Z) (newsType language : string) (limit offset : Z)
         (createdAfter : option Z),
    let result := GetNews storage_Select DownloadURL ctx now newsType language limit offset
                    createdAfter in
    (forall slice err, result = Returned (slice, err) -> (slice = None <-> err <> None))
    /\ (forall e, ctxErr now ctx = Some e ->
          result = Returned (None, Some (Wrapped e "get news failed because context failed")))
    /\ (forall e, ctxErr now ctx = None ->
          storage_Select ctx {| argUserID := requestingUserID ctx; argLanguage := language;
                                argType := newsType; argLimit := int64OfUint64 limit;
                                argOffset := int64OfUint64 offset |} = inr e ->
          result = Returned (None, Some (Wrapped e "failed to get news for args"))).
Proof.
  intros storage_Select DownloadURL ctx now newsType language limit offset createdAfter
         result. subst result. unfold GetNews. split_and!.
  - intros slice err. destruct (ctxErr now ctx).
    { intros H. injection H as <- <-. split; [discriminate | reflexivity]. }
    destruct (storage_Select ctx _) as [[rows |] | e].
    + destruct (visitAll DownloadURL createdAfter rows); try discriminate.
      intros H. injection H as <- <-. split; [discriminate | congruence].
    + intros H. injection H as <- <-. split; [discriminate | congruence].
    + intros H. injection H as <- <-. split; [discriminate | reflexivity].
  - intros e ->. reflexivity.
  - intros e -> ->. reflexivity.
Qed.

Lemma get_news_list_xor_error_witness :
  ctxErr 0 Samples.cancelledCtx = Some Canceled
  /\ GetNews Samples.threeRows Samples.cdn Samples.cancelledCtx 0 "regular" "en" 10 0 None
     = Returned (None, Some (Wrapped Canceled "get news failed because context failed")).
Proof.
  assert (H : ctxErr 0 Samples.cancelledCtx = Some Canceled) by reflexivity.
  split; [exact H |].
  destruct (get_news_list_xor_error Samples.threeRows Samples.cdn Samples.cancelledCtx 0
              "regular" "en" 10 0 None) as (_ & Hctx & _).
  exact (Hctx Canceled H).
Defined.

(** X23. With a live context and rows from the store, [GetNews] panics
    exactly when some row that is not viewed has no creation time or the
    [createdAfter] argument is nil; a nil [createdAfter] is harmless as long
    as no row is unviewed. *)
Theorem get_news_panics_iff_nil_dereferenced :
  forall (storage_Select : Context -> queryArgs -> option (list PersonalNews) + error)
         (DownloadURL : string -> string)
         (ctx : Context) (now : Z) (newsType language : string) (limit offset : Z)
         (createdAfter : option Z) (rows : list PersonalNews),
    ctxErr now ctx = None ->
    storage_Select ctx {| argUserID := requestingUserID ctx; argLanguage := language;
                          argType := newsType; argLimit := int64OfUint64 limit;
                          argOffset := int64OfUint64 offset |} = inl (Some rows) ->
    let result := GetNews storage_Select DownloadURL ctx now newsType language limit offset
                    createdAfter in
    (result = Panicked
     <-> exists row, row ∈ rows /\ Viewed row = Some false
                     /\ (CreatedAt row = None \/ createdAfter = None))
    /\ ((forall row, row ∈ rows -> Viewed row <> Some false) ->
        exists items, result = Returned (Some items, None)).
Proof.
  intros storage_Select DownloadURL ctx now newsType language limit offset createdAfter
         rows Hlive Hsel result. subst result. unfold GetNews. rewrite Hlive, Hsel.
  assert (Hiff : Forall (dereferencable createdAfter) rows
                 <-> ~ exists row, row ∈ rows /\ Viewed row = Some false
                                   /\ (CreatedAt row = None \/ createdAfter = None)).
  { rewrite Forall_forall. unfold dereferencable. split.
    - intros Hok (row & Hin & Hv & Hnil).
      destruct (Hok row Hin Hv) as [[c Hc] [k Hk]]. destruct Hnil; congruence.
    - intros Hno row Hin Hv. destruct (CreatedAt row) eqn:Hc, createdAfter eqn:Hk;
        try (exfalso; apply Hno; exists row; auto; fail).
      split; eauto. }
  split.
  - destruct (visitAll DownloadURL createdAfter rows) as [items | |] eqn:Hall.
    + split; [discriminate |]. intros Hex. exfalso.
      apply (proj1 Hiff); [| exact Hex].
      eapply NewsFacts.visitAll_returned_inv. exact Hall.
    + split; [| reflexivity]. intros _.
      eapply visitAll_panicked_inv. exact Hall.
    + exfalso. eapply visitAll_never_blocks. exact Hall.
  - intros Hviewed.
    assert (Hok : Forall (dereferencable createdAfter) rows).
    { apply Forall_forall. intros row Hin Hv. exfalso. exact (Hviewed row Hin Hv). }
    destruct (NewsFacts.visitAll_returns DownloadURL createdAfter rows Hok)
      as (items & Hitems & _).
    rewrite Hitems. eauto.
Qed.

Lemma get_news_panics_iff_nil_dereferenced_witness :
  (ctxErr 0 Background = None
   /\ Samples.threeRows Background
        {| argUserID := requestingUserID Background; argLanguage := "en";
           argType := "regular"; argLimit := int64OfUint64 10; argOffset := int64OfUint64 0 |}
      = inl (Some [Samples.unseenOld; Samples.unseenNew; Samples.seen]))
  /\ GetNews Samples.threeRows Samples.cdn Background 0 "regular" "en" 10 0 None = Panicked.
Proof.
  assert (H1 : ctxErr 0 Background = None) by reflexivity.
  assert (H2 : Samples.threeRows Background
                 {| argUserID := requestingUserID Background; argLanguage := "en";
                    argType := "regular"; argLimit := int64OfUint64 10;
                    argOffset := int64OfUint64 0 |}
               = inl (Some [Samples.unseenOld; Samples.unseenNew; Samples.seen]))
    by reflexivity.
  split; [split; assumption |].
  destruct (get_news_panics_iff_nil_dereferenced Samples.threeRows Samples.cdn Background 0
              "regular" "en" 10 0 None _ H1 H2) as [Hiff _].
  apply Hiff. exists Samples.unseenOld. split; [left |]. split; [reflexivity | right; reflexivity].
Defined.

(** X24. [GetUnreadNewsCount] checks the context before it touches
    [createdAfter]: under a failed context it returns the wrapped context
    error even for a nil [createdAfter], while under a live context a nil
    [createdAfter] panics before the store is asked.  When it returns, it
    returns either a count or an error, never both and never neither, and the
    count is the one the store reported for the instant inside
    [createdAfter]. *)
Theorem unread_count_guards_and_results :
  forall (storage_GetCount : Context -> countArgs -> option Z + error)
         (RegularNewsType FeaturedNewsType : string)
         (ctx : Context) (now : Z) (language : string) (createdAfter : option (option Z)),
    let result := GetUnreadNewsCount storage_GetCount RegularNewsType FeaturedNewsType
                    ctx now language createdAfter in
    (forall e, ctxErr now ctx = Some e ->
       result = Returned (None, Some (Wrapped e "context failed")))
    /\ (ctxErr now ctx = None -> createdAfter = None -> result = Panicked)
    /\ (forall count err, result = Returned (count, err) -> (count = None <-> err <> None))
    /\ (forall inner n,
          ctxErr now ctx = None -> createdAfter = Some inner ->
          storage_GetCount ctx {| countUserID := requestingUserID ctx;
                                  countLanguage := language;
                                  countTypes := (RegularNewsType, FeaturedNewsType);
                                  countSince := inner |} = inl (Some n) ->
          result = Returned (Some n, None)).
Proof.
  intros storage_GetCount RegularNewsType FeaturedNewsType ctx now language createdAfter
         result. subst result. unfold GetUnreadNewsCount. split_and!.
  - intros e ->. reflexivity.
  - intros -> ->. reflexivity.
  - intros count err. destruct (ctxErr now ctx).
    { intros H. injection H as <- <-. split; [discriminate | reflexivity]. }
    destruct createdAfter as [inner |]; [| discriminate].
    destruct (storage_GetCount ctx _) as [[n |] | e]; try discriminate;
      intros H; injection H as <- <-; split; try discriminate; congruence.
  - intros inner n -> -> ->. reflexivity.
Qed.

Lemma unread_count_guards_and_results_witness :
  (ctxErr 0 Samples.cancelledCtx = Some Canceled
   /\ ctxErr 0 Background = None /\ @None (option Z) = None)
  /\ GetUnreadNewsCount MoreSamples.countIsSeven "regular" "featured" Samples.cancelledCtx 0
       "en" None = Returned (None, Some (Wrapped Canceled "context failed"))
  /\ GetUnreadNewsCount MoreSamples.countIsSeven "regular" "featured" Background 0 "en" None
     = Panicked.
Proof.
  assert (H1 : ctxErr 0 Samples.cancelledCtx = Some Canceled) by reflexivity.
  assert (H2 : ctxErr 0 Background = None) by reflexivity.
  assert (H3 : @None (option Z) = None) by reflexivity.
  split; [split_and!; assumption |]. split.
  - destruct (unread_count_guards_and_results MoreSamples.countIsSeven "regular" "featured"
                Samples.cancelledCtx 0 "en" None) as (Hctx & _).
    exact (Hctx Canceled H1).
  - destruct (unread_count_guards_and_results MoreSamples.countIsSeven "regular" "featured"
                Background 0 "en" None) as (_ & Hnil & _).
    exact (Hnil H2 H3).
Defined.

Lemma int64OfUint64_wraps (x : Z) :
  0 <= x < 2 ^ 64 ->
  - 2 ^ 63 <= int64OfUint64 x < 2 ^ 63
  /\ (int64OfUint64 x) mod 2 ^ 64 = x
  /\ (x < 2 ^ 63 -> int64OfUint64 x = x)
  /\ (2 ^ 63 <= x -> int64OfUint64 x < 0).
Proof.
  intros Hx. unfold int64OfUint64.
  destruct (Z.ltb_spec x (2 ^ 63)) as [Hlt | Hge].
  - split_and!; try lia. apply Z.mod_small. lia.
  - split_and!; try lia.
    replace (x - 2 ^ 64) with (x + (-1) * 2 ^ 64) by lia.
    rewrite Z.mod_add by lia. apply Z.mod_small. lia.
Qed.

(** X25. Under a live context [GetNews] queries the store once, with the
    caller's language and type, the user of the context, and its unsigned
    limit and offset reinterpreted as signed 64-bit numbers: the values
    bound are the ones in [-2^63, 2^63) congruent to the arguments modulo
    2^64, so a limit or offset below 2^63 is bound as it is and one of 2^63
    or more is bound as a negative number.  The result depends on the store
    through its answer to that one query only; a store that refuses
    negative limits and offsets makes [GetNews] fail, with the store's error
    wrapped, for every limit or offset of 2^63 or more. *)
Theorem limit_conversion_wraps :
  forall (ctx : Context) (now : Z) (newsType language : string) (limit offset : Z)
         (createdAfter : option Z),
    0 <= limit < 2 ^ 64 -> 0 <= offset < 2 ^ 64 -> ctxErr now ctx = None ->
    exists lim off : Z,
      (- 2 ^ 63 <= lim < 2 ^ 63 /\ lim mod 2 ^ 64 = limit)
      /\ (- 2 ^ 63 <= off < 2 ^ 63 /\ off mod 2 ^ 64 = offset)
      /\ (limit < 2 ^ 63 -> lim = limit) /\ (2 ^ 63 <= limit -> lim < 0)
      /\ (offset < 2 ^ 63 -> off = offset) /\ (2 ^ 63 <= offset -> off < 0)
      /\ (forall (storage_Select storage_Select' :
                    Context -> queryArgs -> option (list PersonalNews) + error)
                 (DownloadURL : string -> string),
            let args := {| argUserID := requestingUserID ctx; argLanguage := language;
                           argType := newsType; argLimit := lim; argOffset := off |} in
            storage_Select ctx args = storage_Select' ctx args ->
            GetNews storage_Select DownloadURL ctx now newsType language limit offset
              createdAfter
            = GetNews storage_Select' DownloadURL ctx now newsType language limit offset
                createdAfter)
      /\ (forall (storage_Select : Context -> queryArgs -> option (list PersonalNews) + error)
                 (DownloadURL : string -> string) (e : error),
            (forall c a, argLimit a < 0 \/ argOffset a < 0 -> storage_Select c a = inr e) ->
            2 ^ 63 <= limit \/ 2 ^ 63 <= offset ->
            GetNews storage_Select DownloadURL ctx now newsType language limit offset
              createdAfter
            = Returned (None, Some (Wrapped e "failed to get news for args"))).
Proof.
  intros ctx now newsType language limit offset createdAfter Hlimit Hoffset Hlive.
  destruct (int64OfUint64_wraps limit Hlimit) as (Hl1 & Hl2 & Hl3 & Hl4).
  destruct (int64OfUint64_wraps offset Hoffset) as (Ho1 & Ho2 & Ho3 & Ho4).
  exists (int64OfUint64 limit), (int64OfUint64 offset).
  split; [split; assumption |]. split; [split; assumption |].
  split; [exact Hl3 |]. split; [exact Hl4 |]. split; [exact Ho3 |]. split; [exact Ho4 |].
  split.
  - intros sel sel' DownloadURL args Hagree. unfold GetNews. rewrite Hlive.
    fold args. rewrite Hagree. reflexivity.
  - intros sel DownloadURL e Hrefuse Hbig. unfold GetNews. rewrite Hlive.
    rewrite Hrefuse; [reflexivity |]. simpl. destruct Hbig; [left | right]; auto.
Qed.

(** A request for 2^63 articles against a store that refuses negative
    limits fails. *)
Lemma limit_conversion_wraps_witness :
  let refusing := fun (_ : Context) (a : queryArgs) =>
                    if (argLimit a <? 0) || (argOffset a <? 0)
                    then inr (External "LIMIT must not be negative")
                    else @inl (option (list PersonalNews)) error None in
  (0 <= 2 ^ 63 < 2 ^ 64 /\ 0 <= 0 < 2 ^ 64 /\ ctxErr 0 Background = None)
  /\ GetNews refusing (fun url => url) Background 0 "regular" "en" (2 ^ 63) 0 None
     = Returned (None, Some (Wrapped (External "LIMIT must not be negative")
                               "failed to get news for args"))
  /\ GetNews refusing (fun url => url) Background 0 "regular" "en" 10 0 None
     = Returned (Some [], None).
Proof.
  intros refusing.
  assert (H1 : 0 <= 2 ^ 63 < 2 ^ 64) by lia.
  assert (H2 : 0 <= 0 < 2 ^ 64) by lia.
  assert (H3 : ctxErr 0 Background = None) by reflexivity.
  split; [split_and!; try assumption; lia |].
  destruct (limit_conversion_wraps Background 0 "regular" "en" (2 ^ 63) 0 None H1 H2 H3)
    as (lim & off & _ & _ & _ & _ & _ & _ & _ & Hfail).
  split; [| reflexivity].
  apply Hfail; [| left; lia].
  intros c a Hneg. unfold refusing.
  destruct (Z.ltb_spec (argLimit a) 0); [reflexivity |].
  destruct (Z.ltb_spec (argOffset a) 0); [reflexivity | lia].
Defined.

End NewsMore.
